(** * SearchQueryParser: a shallow embedding of the query parser and evaluator

    The development follows the TypeScript sources [Filter.ts],
    [FilterGroup.ts] and [SearchQueryParser.ts].

    JavaScript strings are modelled by [string]; a character is a code unit
    in the range 0..255 (Latin-1), which is where [toLowerCase], [trim] and
    the regular expression classes [\w] and [.] are given their JavaScript
    meaning below. *)

From Stdlib Require Import String Ascii List Bool Arith Lia Permutation.
Import ListNotations.

#[local] Set Warnings "-register-all".

Local Open Scope list_scope.
Local Open Scope string_scope.
Local Open Scope nat_scope.

(** ** Characters and the string methods used by the sources *)

Module Js.

Definition code (c : ascii) : nat := nat_of_ascii c.

(** The double quote character (code 34) and the one-character string. *)
Definition quote : ascii := Eval cbv in ascii_of_nat 34.
Definition quoteStr : string := String quote EmptyString.

(** WhiteSpace and LineTerminator code points below 256:
    TAB, LF, VT, FF, CR, SP and NBSP. *)
Definition isWhiteSpace (c : ascii) : bool :=
  let n := code c in
  ((9 <=? n) && (n <=? 13)) || (n =? 32) || (n =? 160).

(** [.] without the [s] flag refuses LF and CR. *)
Definition isLineTerminator (c : ascii) : bool :=
  let n := code c in (n =? 10) || (n =? 13).

(** [\w] is [[A-Za-z0-9_]]. *)
Definition isWordChar (c : ascii) : bool :=
  let n := code c in
  ((65 <=? n) && (n <=? 90)) || ((97 <=? n) && (n <=? 122))
  || ((48 <=? n) && (n <=? 57)) || (n =? 95).

Definition toLowerChar (c : ascii) : ascii :=
  let n := code c in
  if ((65 <=? n) && (n <=? 90))
     || ((192 <=? n) && (n <=? 222) && negb (n =? 215))
  then ascii_of_nat (n + 32) else c.

Fixpoint toLowerCase (s : string) : string :=
  match s with
  | EmptyString => EmptyString
  | String c s' => String (toLowerChar c) (toLowerCase s')
  end.

(** A string is truthy when it is not empty. *)
Definition truthy (s : string) : bool :=
  match s with EmptyString => false | String _ _ => true end.

Fixpoint trimStart (s : string) : string :=
  match s with
  | EmptyString => EmptyString
  | String c s' => if isWhiteSpace c then trimStart s' else s
  end.

Fixpoint trimEnd (s : string) : string :=
  match s with
  | EmptyString => EmptyString
  | String c s' =>
      let r := trimEnd s' in
      if isWhiteSpace c && negb (truthy r) then EmptyString else String c r
  end.

Definition trim (s : string) : string := trimEnd (trimStart s).

Definition startsWith (s p : string) : bool := prefix p s.

Fixpoint endsWith (s p : string) : bool :=
  String.eqb s p ||
  match s with
  | EmptyString => false
  | String _ s' => endsWith s' p
  end.

Fixpoint includes (s t : string) : bool :=
  prefix t s ||
  match s with
  | EmptyString => false
  | String _ s' => includes s' t
  end.

Fixpoint dropLast (s : string) : string :=
  match s with
  | EmptyString => EmptyString
  | String c EmptyString => EmptyString
  | String c s' => String c (dropLast s')
  end.

(** [s.slice(1)] *)
Definition slice1 (s : string) : string :=
  match s with EmptyString => EmptyString | String _ s' => s' end.

(** [s.slice(1, -1)] *)
Definition slice1m1 (s : string) : string := dropLast (slice1 s).

(** [buffer += character] *)
Definition push (s : string) (c : ascii) : string := s ++ String c EmptyString.

(** [list.join(sep)] *)
Definition join (sep : string) (l : list string) : string := String.concat sep l.

End Js.

(** ** Records (the entries a query is matched against) *)

(** The values a property can hold: a string, an array, or anything else.
    Array elements are values again; only their string elements are used. *)
Inductive JsValue : Type :=
| JStr (s : string)
| JArr (l : list JsValue)
| JOther.

(** A plain object, as the list of its own properties in enumeration order. *)
Definition Entry : Type := list (string * JsValue).

(** [value.filter(v => typeof v === string)], at the type of strings. *)
Fixpoint stringsOf (l : list JsValue) : list string :=
  match l with
  | [] => []
  | JStr s :: l' => s :: stringsOf l'
  | _ :: l' => stringsOf l'
  end.

(** [Object.values(entry)] *)
Definition values (entry : Entry) : list JsValue := map snd entry.

(** [entry[key]]; [None] is [undefined].  What a plain object inherits
    (functions, the prototype) is neither a string nor an array and is
    treated by [getFields] like [undefined]. *)
Fixpoint getProp (entry : Entry) (key : string) : option JsValue :=
  match entry with
  | [] => None
  | (k, v) :: entry' => if String.eqb k key then Some v else getProp entry' key
  end.

(** ** Filter.ts *)

Record Filter : Type := mkFilter {
  field : option string;
  term : string;
  operator : string
}.

Module FilterImpl.

(** *** The regular expression [/^(\w+)([:=])Q?(.+?)Q?$/]

    [Q] stands for the double quote character.  The matcher tries the
    alternatives in the order of a backtracking engine: [\w+] and [Q?]
    are greedy, [(.+?)] is lazy. *)

Definition quote : ascii := Js.quote.

Definition isOperatorChar (c : ascii) : bool :=
  Ascii.eqb c ":"%char || Ascii.eqb c "="%char.

(** [Q?$] at [s]: take the quote when there is one, else nothing; then
    the input must be over. *)
Definition optQuoteEnd (s : string) : bool :=
  match s with
  | EmptyString => true
  | String c s' =>
      if Ascii.eqb c quote
      then (match s' with EmptyString => true | _ => false end)
      else false
  end.

(** [(.+?)Q?$] once the group already holds [acc] (not empty): stop as
    early as the rest of the pattern allows, else take one more
    character. *)
Fixpoint lazyMore (acc s : string) : option string :=
  if optQuoteEnd s then Some acc
  else match s with
       | EmptyString => None
       | String c s' =>
           if Js.isLineTerminator c then None
           else lazyMore (Js.push acc c) s'
       end.

(** [(.+?)Q?$] *)
Definition lazyDots (s : string) : option string :=
  match s with
  | EmptyString => None
  | String c s' =>
      if Js.isLineTerminator c then None
      else lazyMore (String c EmptyString) s'
  end.

(** [Q?(.+?)Q?$]: first with the opening quote taken, then without. *)
Definition afterOperator (s : string) : option string :=
  match s with
  | String c s' =>
      if Ascii.eqb c quote then
        match lazyDots s' with
        | Some t => Some t
        | None => lazyDots s
        end
      else lazyDots s
  | EmptyString => lazyDots s
  end.

(** [([:=])Q?(.+?)Q?$] *)
Definition operatorAndTerm (s : string) : option (string * string) :=
  match s with
  | String c s' =>
      if isOperatorChar c then
        match afterOperator s' with
        | Some t => Some (String c EmptyString, t)
        | None => None
        end
      else None
  | EmptyString => None
  end.

(** [(\w+)] with [name] already taken, then the rest of the pattern: the
    longer name is tried first. *)
Fixpoint wordPlus (name s : string) : option (string * string * string) :=
  match s with
  | String c s' =>
      if Js.isWordChar c then
        match wordPlus (Js.push name c) s' with
        | Some r => Some r
        | None =>
            match operatorAndTerm s' with
            | Some (op, t) => Some (Js.push name c, op, t)
            | None => None
            end
        end
      else None
  | EmptyString => None
  end.

(** [term.match(/^(\w+)([:=])Q?(.+?)Q?$/)]: the three groups. *)
Definition fieldMatch (term : string) : option (string * string * string) :=
  wordPlus EmptyString term.

Definition parse (term : string) : Filter :=
  match fieldMatch term with
  | Some (f, op, t) => mkFilter (Some f) t op
  | None =>
      if Js.startsWith term Js.quoteStr && Js.endsWith term Js.quoteStr
      then mkFilter None (Js.slice1m1 term) ":"
      else mkFilter None term ":"
  end.

Definition equals (this otherFilter : Filter) : bool :=
  match field this, field otherFilter with
  | None, None => true
  | Some a, Some b => String.eqb a b
  | _, _ => false
  end
  && String.eqb (term this) (term otherFilter)
  && String.eqb (operator this) (operator otherFilter).

Definition toString (this : Filter) : string :=
  let string0 :=
    match field this with
    | Some f => [f ++ operator this]
    | None => []
    end in
  let term0 := term this in
  let term1 :=
    if Js.includes (Js.trim term0) " " then Js.quoteStr ++ term0 ++ Js.quoteStr else term0 in
  Js.join EmptyString (string0 ++ [term1])%list.

Definition matchField (this : Filter) (value : string) : bool :=
  let value := Js.toLowerCase value in
  let term := Js.toLowerCase (term this) in
  if String.eqb (operator this) "=" then String.eqb value term else Js.includes value term.

(** [!this.field]: [null] and the empty string are falsy. *)
Definition noField (this : Filter) : bool :=
  match field this with
  | None => true
  | Some f => negb (Js.truthy f)
  end.

Definition getFields (this : Filter) (entry : Entry) : list string :=
  match field this with
  | Some f =>
      if Js.truthy f then
        match getProp entry (Js.toLowerCase f) with
        | Some (JArr l) => map Js.toLowerCase (stringsOf l)
        | Some (JStr s) => [Js.toLowerCase s]
        | _ => []
        end
      else
        map Js.toLowerCase
          (filter Js.truthy
             (flat_map (fun value =>
                          match value with
                          | JStr s => [s]
                          | JArr l => stringsOf l
                          | JOther => []
                          end) (values entry)))
  | None =>
      map Js.toLowerCase
        (filter Js.truthy
           (flat_map (fun value =>
                        match value with
                        | JStr s => [s]
                        | JArr l => stringsOf l
                        | JOther => []
                        end) (values entry)))
  end.

Definition matchEntry (this : Filter) (entry : Entry) : bool :=
  let values := getFields this entry in
  existsb (fun value => matchField this value) values.

End FilterImpl.

(** ** FilterGroup.ts *)

(** The fields of a filter group, over the type of its items. *)
Record GroupOf (A : Type) : Type := mkGroup {
  include : list A;
  exclude : list A;
  mode : string
}.

Arguments mkGroup {A} _ _ _.
Arguments include {A} _.
Arguments exclude {A} _.
Arguments mode {A} _.

(** [Filter | FilterGroup] *)
Inductive Item : Type :=
| IFilter (f : Filter)
| IGroup (g : GroupOf Item).

Definition FilterGroup : Type := GroupOf Item.

Module FilterGroupImpl.

(** [new FilterGroup(mode)] and [new FilterGroup()] *)
Definition new (mode : string) : FilterGroup := mkGroup [] [] mode.
Definition new0 : FilterGroup := new "AND".

Definition setInclude (this : FilterGroup) (l : list Item) : FilterGroup :=
  mkGroup l (exclude this) (mode this).
Definition setExclude (this : FilterGroup) (l : list Item) : FilterGroup :=
  mkGroup (include this) l (mode this).
Definition setMode (this : FilterGroup) (m : string) : FilterGroup :=
  mkGroup (include this) (exclude this) m.

Definition add (this : FilterGroup) (filterOrGroup : Item) (isExclude : bool)
  : FilterGroup :=
  if isExclude
  then setExclude this (exclude this ++ [filterOrGroup])
  else setInclude this (include this ++ [filterOrGroup]).

Definition addWithMode (this : FilterGroup) (filterOrGroup : Item)
           (mode0 : string) (isExclude : bool) : FilterGroup :=
  let this1 :=
    if negb isExclude && negb (String.eqb (mode this) mode0) then
      let subgroup := setInclude (new (mode this)) (include this) in
      setMode (setInclude this [IGroup subgroup]) mode0
    else this in
  add this1 filterOrGroup isExclude.

(** The callback of [list.filter] in [remove]: for an item that is not a
    [Filter] it returns [undefined], which is falsy. *)
Definition removeKeeps (filter0 : Filter) (item : Item) : bool :=
  match item with
  | IFilter f => negb (FilterImpl.equals f filter0)
  | IGroup _ => false
  end.

Definition remove (this : FilterGroup) (filter0 : Filter) (isExclude : bool)
  : FilterGroup :=
  let list0 := if isExclude then exclude this else include this in
  let list1 := filter (removeKeeps filter0) list0 in
  if isExclude then setExclude this list1 else setInclude this list1.

(** The closure [match] of [matchesEntry], which carries the recursion. *)
Fixpoint matchItem (entry : Entry) (item : Item) {struct item} : bool :=
  match item with
  | IGroup g =>
      let includesMatch :=
        if length (include g) =? 0 then true
        else if String.eqb (mode g) "AND"
             then forallb (matchItem entry) (include g)
             else existsb (matchItem entry) (include g) in
      let excludesMatch :=
        forallb (fun item => negb (matchItem entry item)) (exclude g) in
      includesMatch && excludesMatch
  | IFilter f => FilterImpl.matchEntry f entry
  end.

Definition matchesEntry (this : FilterGroup) (entry : Entry) : bool :=
  let includesMatch :=
    if length (include this) =? 0 then true
    else if String.eqb (mode this) "AND"
         then forallb (matchItem entry) (include this)
         else existsb (matchItem entry) (include this) in
  let excludesMatch :=
    forallb (fun item => negb (matchItem entry item)) (exclude this) in
  includesMatch && excludesMatch.

Definition isFilter (item : Item) : bool :=
  match item with IFilter _ => true | IGroup _ => false end.

Fixpoint hasFilterItem (filter0 : Filter) (isExclude nestedEntries : bool)
         (item : Item) {struct item} : bool :=
  match item with
  | IFilter f => FilterImpl.equals f filter0
  | IGroup g =>
      if nestedEntries
      then existsb (hasFilterItem filter0 isExclude nestedEntries)
             (if isExclude then exclude g else include g)
      else false
  end.

Definition hasFilter (this : FilterGroup) (filter0 : Filter)
           (isExclude nestedEntries : bool) : bool :=
  existsb (hasFilterItem filter0 isExclude nestedEntries)
    (if isExclude then exclude this else include this).

(** [item.toString()] for either kind of item; [itemMapper] is inlined at
    its two uses. *)
Fixpoint itemToString (item : Item) {struct item} : string :=
  match item with
  | IFilter f => FilterImpl.toString f
  | IGroup g =>
      let itemMapper (itemList : list Item) (it : Item) : string :=
        match it with
        | IGroup _ =>
            if 1 <? length itemList
            then "(" ++ itemToString it ++ ")"
            else itemToString it
        | IFilter _ => itemToString it
        end in
      let joiner := if String.eqb (mode g) "AND" then " " else "~" in
      let includes := Js.join joiner (map (itemMapper (include g)) (include g)) in
      let excludes :=
        Js.join " " (map (fun it => "-" ++ itemMapper (exclude g) it) (exclude g)) in
      Js.join " " (filter Js.truthy [includes; excludes])
  end.

Definition itemMapper (item : Item) (itemList : list Item) : string :=
  match item with
  | IGroup _ =>
      if 1 <? length itemList
      then "(" ++ itemToString item ++ ")"
      else itemToString item
  | IFilter _ => itemToString item
  end.

Definition toString (this : FilterGroup) : string :=
  let joiner := if String.eqb (mode this) "AND" then " " else "~" in
  let includes :=
    Js.join joiner (map (fun item => itemMapper item (include this)) (include this)) in
  let excludes :=
    Js.join " " (map (fun item => "-" ++ itemMapper item (exclude this)) (exclude this)) in
  Js.join " " (filter Js.truthy [includes; excludes]).

End FilterGroupImpl.

(** ** SearchQueryParser.ts *)

Module SearchQueryParser.

(** The three variables of [tokenize]. *)
Record TokState : Type := mkTok {
  tokens : list string;
  buffer : string;
  inQuotes : bool
}.

Definition isStructural (character : ascii) : bool :=
  Ascii.eqb character "("%char || Ascii.eqb character ")"%char
  || Ascii.eqb character "~"%char || Ascii.eqb character " "%char.

(** The flush of the buffer: [if (buffer.trim()) tokens.push(buffer.trim())]. *)
Definition flush (tokens0 : list string) (buffer0 : string) : list string :=
  if Js.truthy (Js.trim buffer0) then (tokens0 ++ [Js.trim buffer0])%list else tokens0.

(** The body of the [forEach] callback. *)
Definition tokenizeStep (st : TokState) (character : ascii) : TokState :=
  if Ascii.eqb character Js.quote then
    mkTok (tokens st) (Js.push (buffer st) character) (negb (inQuotes st))
  else if negb (inQuotes st) && isStructural character then
    let tokens1 := flush (tokens st) (buffer st) in
    let tokens2 :=
      if negb (Ascii.eqb character " "%char)
      then (tokens1 ++ [String character EmptyString])%list
      else tokens1 in
    mkTok tokens2 EmptyString (inQuotes st)
  else
    mkTok (tokens st) (Js.push (buffer st) character) (inQuotes st).

Definition tokenize (query : string) : list string :=
  let st :=
    fold_left tokenizeStep (list_ascii_of_string query)
      (mkTok [] EmptyString false) in
  flush (tokens st) (buffer st).

(** The [for] loop of [parseTokens], at index [i] with the group built so
    far and [currentMode].  The loop calls [parseTokens] for a bracket, so
    the two are one recursion; [fuel] bounds the number of loop iterations
    entered on the longest path. *)
Fixpoint parseLoop (fuel : nat) (tokens0 : list string) (i : nat)
         (group : FilterGroup) (currentMode : string)
  : option (FilterGroup * nat) :=
  match fuel with
  | O => None
  | S fuel' =>
      match nth_error tokens0 i with
      | None =>
          Some (FilterGroupImpl.setMode group currentMode, length tokens0)
      | Some token =>
          if String.eqb token "~" then
            parseLoop fuel' tokens0 (S i) group "OR"
          else if String.eqb token "(" then
            match parseLoop fuel' tokens0 (i + 1) FilterGroupImpl.new0 "AND" with
            | Some (subgroup, nextIndex) =>
                parseLoop fuel' tokens0 (S nextIndex)
                  (FilterGroupImpl.add group (IGroup subgroup) false)
                  currentMode
            | None => None
            end
          else if String.eqb token ")" then
            Some (FilterGroupImpl.setMode group currentMode, i)
          else
            let isExclude := Js.startsWith token "-" in
            let raw := if isExclude then Js.slice1 token else token in
            let filter0 := FilterImpl.parse raw in
            parseLoop fuel' tokens0 (S i)
              (FilterGroupImpl.add group (IFilter filter0) isExclude)
              currentMode
      end
  end.

Definition parseTokensFuel (fuel : nat) (tokens0 : list string) (start : nat)
  : option (FilterGroup * nat) :=
  parseLoop fuel tokens0 start FilterGroupImpl.new0 (mode FilterGroupImpl.new0).

(** Fuel that is always enough (see [parseLoop_total]). *)
Definition parseFuel (tokens0 : list string) (start : nat) : nat :=
  S (length tokens0 - start).

Definition parseTokens (tokens0 : list string) (start : nat)
  : option (FilterGroup * nat) :=
  parseTokensFuel (parseFuel tokens0 start) tokens0 start.

Definition parseQuery (query : string) : option FilterGroup :=
  let tokens0 := tokenize query in
  match parseTokens tokens0 0 with
  | Some (group, _) => Some group
  | None => None
  end.

(** *** The call stack

    [parseTokens] calls itself once for every opening bracket it enters, and
    nothing in the code bounds the depth of these calls.  An engine holds
    only so many calls at a time: a call for which the stack has no room
    left throws a [RangeError], which [parseTokens] and [parseQuery] do not
    catch.  [parseLoop] above is the loop on a stack that never fills up: it
    gives the value that a call returns when it returns. *)

(** How a call ends: with a value, or with the [RangeError] of a full call
    stack. *)
Inductive Completion (A : Type) : Type :=
| Returned (a : A)
| RangeError.

Arguments Returned {A} a.
Arguments RangeError {A}.

(** The loop of [parseTokens] as [parseLoop] has it, run while the call
    stack has room for [frames] more nested calls of [parseTokens]: the call
    for an opening bracket takes one of them and throws when none is left,
    and what a nested call throws ends the calling loop as well. *)
Fixpoint parseLoopWithin (fuel frames : nat) (tokens0 : list string) (i : nat)
         (group : FilterGroup) (currentMode : string)
  : option (Completion (FilterGroup * nat)) :=
  match fuel with
  | O => None
  | S fuel' =>
      match nth_error tokens0 i with
      | None =>
          Some (Returned
                  (FilterGroupImpl.setMode group currentMode, length tokens0))
      | Some token =>
          if String.eqb token "~" then
            parseLoopWithin fuel' frames tokens0 (S i) group "OR"
          else if String.eqb token "(" then
            match frames with
            | O => Some RangeError
            | S frames' =>
                match parseLoopWithin fuel' frames' tokens0 (i + 1)
                        FilterGroupImpl.new0 "AND" with
                | Some (Returned (subgroup, nextIndex)) =>
                    parseLoopWithin fuel' frames tokens0 (S nextIndex)
                      (FilterGroupImpl.add group (IGroup subgroup) false)
                      currentMode
                | Some RangeError => Some RangeError
                | None => None
                end
            end
          else if String.eqb token ")" then
            Some (Returned (FilterGroupImpl.setMode group currentMode, i))
          else
            let isExclude := Js.startsWith token "-" in
            let raw := if isExclude then Js.slice1 token else token in
            let filter0 := FilterImpl.parse raw in
            parseLoopWithin fuel' frames tokens0 (S i)
              (FilterGroupImpl.add group (IFilter filter0) isExclude)
              currentMode
      end
  end.

(** A running call of [parseTokens] with room for [frames] nested calls. *)
Definition parseTokensWithin (frames : nat) (tokens0 : list string)
           (start : nat)
  : option (Completion (FilterGroup * nat)) :=
  parseLoopWithin (parseFuel tokens0 start) frames tokens0 start
    FilterGroupImpl.new0 (mode FilterGroupImpl.new0).

Definition parseQueryWithin (frames : nat) (query : string)
  : option (Completion FilterGroup) :=
  let tokens0 := tokenize query in
  match parseTokensWithin frames tokens0 0 with
  | Some (Returned (group, _)) => Some (Returned group)
  | Some RangeError => Some RangeError
  | None => None
  end.

(** [new SearchQueryParser(query).matchesEntry(entry)] *)
Definition queryMatches (query : string) (entry : Entry) : option bool :=
  match parseQuery query with
  | Some g => Some (FilterGroupImpl.matchesEntry g entry)
  | None => None
  end.

(** The instance: its only field is [rootGroup]. *)
Record Parser : Type := mkParser { rootGroup : FilterGroup }.

(** [new SearchQueryParser(query)]; [None] as argument is [null]. *)
Definition construct (query : option string) : option Parser :=
  match query with
  | None => Some (mkParser FilterGroupImpl.new0)
  | Some q =>
      match parseQuery q with
      | Some g => Some (mkParser g)
      | None => None
      end
  end.

Definition hasQuery (this : Parser) : bool :=
  (0 <? length (include (rootGroup this)))
  || (0 <? length (exclude (rootGroup this))).

Definition instMatchesEntry (this : Parser) (entry : Entry) : bool :=
  FilterGroupImpl.matchesEntry (rootGroup this) entry.

Definition instToString (this : Parser) : string :=
  FilterGroupImpl.toString (rootGroup this).

End SearchQueryParser.

(** * Definitions that follow the specification's wording

    They are compared with the embedded code in the theorems below. *)

Module Spec.

(** The include side of a group: vacuously true on an empty include list,
    else all items (mode AND) or at least one item (any other mode, which
    is how OR is recognised) must match. *)
Definition includeMatch (g : FilterGroup) (e : Entry) : bool :=
  match include g with
  | [] => true
  | _ :: _ =>
      if String.eqb (mode g) "AND"
      then forallb (FilterGroupImpl.matchItem e) (include g)
      else existsb (FilterGroupImpl.matchItem e) (include g)
  end.

(** The exclude side: no exclude item matches. *)
Definition excludeMatch (g : FilterGroup) (e : Entry) : bool :=
  negb (existsb (FilterGroupImpl.matchItem e) (exclude g)).

(** What a flush emits: the trimmed buffer when it is not empty. *)
Definition flushed (buffer : string) : list string :=
  if Js.truthy (Js.trim buffer) then [Js.trim buffer] else [].

(** The scan of the tokenizer, by the characters still to read: a quote is
    buffered and toggles [inQuotes]; inside quotes everything is buffered;
    outside quotes a bracket or a tilde flushes and is a token of its own,
    a space only flushes, any other character is buffered; the end of the
    input flushes. *)
Fixpoint scan (inQuotes : bool) (buffer : string) (chars : list ascii)
  : list string :=
  match chars with
  | [] => flushed buffer
  | c :: rest =>
      if Ascii.eqb c Js.quote then scan (negb inQuotes) (Js.push buffer c) rest
      else if inQuotes then scan true (Js.push buffer c) rest
      else if Ascii.eqb c "("%char || Ascii.eqb c ")"%char || Ascii.eqb c "~"%char
      then (flushed buffer ++ String c EmptyString :: scan false EmptyString rest)%list
      else if Ascii.eqb c " "%char
      then (flushed buffer ++ scan false EmptyString rest)%list
      else scan false (Js.push buffer c) rest
  end.

Definition tokenize (query : string) : list string :=
  scan false EmptyString (list_ascii_of_string query).

(** Whether a tilde occurs at the bracket level where the scan starts:
    [depth] counts the brackets opened since; the level ends at its
    closing bracket or with the tokens. *)
Fixpoint tildeAtLevel (depth : nat) (toks : list string) : bool :=
  match toks with
  | [] => false
  | t :: rest =>
      if String.eqb t "(" then tildeAtLevel (S depth) rest
      else if String.eqb t ")" then
        match depth with
        | O => false
        | S d => tildeAtLevel d rest
        end
      else if String.eqb t "~" then (depth =? 0) || tildeAtLevel depth rest
      else tildeAtLevel depth rest
  end.

(** *** The leaf-filter parse *)

(** The longest prefix of word characters, and what follows it. *)
Fixpoint takeWord (s : string) : string :=
  match s with
  | String c s' => if Js.isWordChar c then String c (takeWord s') else EmptyString
  | EmptyString => EmptyString
  end.

Fixpoint dropWord (s : string) : string :=
  match s with
  | String c s' => if Js.isWordChar c then dropWord s' else s
  | EmptyString => EmptyString
  end.

Fixpoint hasLineTerminator (s : string) : bool :=
  match s with
  | String c s' => Js.isLineTerminator c || hasLineTerminator s'
  | EmptyString => false
  end.

(** The pattern: word characters, then a colon or an equals sign, then the
    rest, which is not empty and lies on one line.  The three parts. *)
Definition splitField (token : string) : option (string * string * string) :=
  match dropWord token with
  | String c rest =>
      if Js.truthy (takeWord token) && FilterImpl.isOperatorChar c
         && Js.truthy rest && negb (hasLineTerminator rest)
      then Some (takeWord token, String c EmptyString, rest)
      else None
  | EmptyString => None
  end.

(** A pair of surrounding quotes is stripped, a lone quote is not. *)
Definition stripQuotePair (s : string) : string :=
  if Js.startsWith s Js.quoteStr && Js.endsWith s Js.quoteStr
     && (2 <=? String.length s)
  then Js.slice1m1 s else s.

(** The parse as the specification words it. *)
Definition parseAsClaimed (token : string) : Filter :=
  match splitField token with
  | Some (name, op, rest) => mkFilter (Some name) (stripQuotePair rest) op
  | None =>
      if Js.startsWith token Js.quoteStr && Js.endsWith token Js.quoteStr
         && (2 <=? String.length token)
      then mkFilter None (Js.slice1m1 token) ":"
      else mkFilter None token ":"
  end.

(** A quote at the start is stripped when something follows it; a quote at
    the end is stripped when something precedes it. *)
Definition stripLeadingQuote (s : string) : string :=
  match s with
  | String c s' => if Ascii.eqb c Js.quote && Js.truthy s' then s' else s
  | EmptyString => EmptyString
  end.

Definition stripTrailingQuote (s : string) : string :=
  if Js.endsWith s Js.quoteStr && (2 <=? String.length s)
  then Js.dropLast s else s.

(** The parse with each quote stripped on its own. *)
Definition parse (token : string) : Filter :=
  match splitField token with
  | Some (name, op, rest) =>
      mkFilter (Some name) (stripTrailingQuote (stripLeadingQuote rest)) op
  | None =>
      if Js.startsWith token Js.quoteStr && Js.endsWith token Js.quoteStr
      then mkFilter None (Js.slice1m1 token) ":"
      else mkFilter None token ":"
  end.

(** *** Trees built by [add] *)

(** The groups obtained from [new FilterGroup(mode)] by calls of [add] with
    filters and with groups obtained in the same way. *)
Inductive Built : FilterGroup -> Prop :=
| Built_new (m : string) : Built (FilterGroupImpl.new m)
| Built_add_filter (g : FilterGroup) (f : Filter) (isExclude : bool) :
    Built g -> Built (FilterGroupImpl.add g (IFilter f) isExclude)
| Built_add_group (g h : FilterGroup) (isExclude : bool) :
    Built g -> Built h ->
    Built (FilterGroupImpl.add g (IGroup h) isExclude).

(** Serialising and parsing again gives a tree with the same result on the
    entry [e]. *)
Definition roundTripAgrees (g : FilterGroup) (e : Entry) : Prop :=
  SearchQueryParser.queryMatches (FilterGroupImpl.toString g) e
  = Some (FilterGroupImpl.matchesEntry g e).

(** *** The lookup of a field *)

(** The candidate values read off the property found for a field. *)
Definition candidatesOf (value : option JsValue) : list string :=
  match value with
  | Some (JArr l) => map Js.toLowerCase (stringsOf l)
  | Some (JStr s) => [Js.toLowerCase s]
  | _ => []
  end.

(** The first property whose key equals [key] up to letter case. *)
Fixpoint getPropAnyCase (entry : Entry) (key : string) : option JsValue :=
  match entry with
  | [] => None
  | (k, v) :: entry' =>
      if String.eqb (Js.toLowerCase k) (Js.toLowerCase key) then Some v
      else getPropAnyCase entry' key
  end.

(** The candidates of a filter with a field, were the key match blind to
    letter case. *)
Definition getFieldsAnyCase (f : Filter) (entry : Entry) : list string :=
  match field f with
  | Some k => candidatesOf (getPropAnyCase entry k)
  | None => []
  end.

(** *** Bracket nesting *)

(** The deepest bracket level that the tokens reach, counted from the level
    where the reading starts: [depth] is the number of brackets open at this
    point, and the reading ends with the tokens or at the bracket that
    closes the starting level. *)
Fixpoint bracketDepth (depth : nat) (toks : list string) : nat :=
  match toks with
  | [] => depth
  | t :: rest =>
      if String.eqb t "(" then bracketDepth (S depth) rest
      else if String.eqb t ")" then
        match depth with
        | O => O
        | S d => Nat.max depth (bracketDepth d rest)
        end
      else bracketDepth depth rest
  end.

(** The query made of [n] opening brackets. *)
Fixpoint openBrackets (n : nat) : string :=
  match n with
  | O => EmptyString
  | S n' => String "("%char (openBrackets n')
  end.

End Spec.

(** * Auxiliary definitions used in the statements *)

(** The strings gathered from all properties for a filter without field,
    before empty strings are dropped and the case is lowered. *)
Definition allStrings (entry : Entry) : list string :=
  flat_map (fun value =>
              match value with
              | JStr s => [s]
              | JArr l => stringsOf l
              | JOther => []
              end) (values entry).

(** The string without its last character when that is a quote. *)
Definition withoutClosingQuote (s : string) : string :=
  if Js.endsWith s Js.quoteStr then Js.dropLast s else s.

(** ** Serialising a tree and parsing it again *)

Module RoundTrip.

(** A string that the tokenizer keeps in one piece wherever it stands: read
    from outside quotes it meets no bracket, tilde or space outside quotes
    and ends outside quotes. *)
Fixpoint unbroken (inQuotes : bool) (chars : list ascii) : bool :=
  match chars with
  | [] => negb inQuotes
  | c :: rest =>
      if Ascii.eqb c Js.quote then unbroken (negb inQuotes) rest
      else if negb inQuotes && SearchQueryParser.isStructural c then false
      else unbroken inQuotes rest
  end.

(** One token: not empty, no white space at either end, unbroken. *)
Definition wholeToken (w : string) : bool :=
  Js.truthy w && String.eqb (Js.trimStart w) w && String.eqb (Js.trimEnd w) w
  && unbroken false (list_ascii_of_string w).

(** A leaf filter that survives the round trip on its own: its string is one
    token, is not read as an exclusion, and parses back to the filter. *)
Definition leafOk (f : Filter) : bool :=
  let w := FilterImpl.toString f in
  wholeToken w && negb (Js.startsWith w "-")
  && FilterImpl.equals (FilterImpl.parse w) f.

(** The trees of the round trip: every leaf is [leafOk] and the exclude
    lists hold leaves only, at every depth. *)
Fixpoint roundTrippable (item : Item) : bool :=
  match item with
  | IFilter f => leafOk f
  | IGroup g =>
      forallb roundTrippable (include g)
      && forallb (fun x => FilterGroupImpl.isFilter x && roundTrippable x)
           (exclude g)
  end.

(** [parts.join(sep)] on token lists. *)
Fixpoint joinTokens (sep : list string) (parts : list (list string))
  : list string :=
  match parts with
  | [] => []
  | [p] => p
  | p :: rest => (p ++ sep ++ joinTokens sep rest)%list
  end.

(** The token of an excluded leaf. *)
Definition excludeToken (item : Item) : list string :=
  match item with
  | IFilter f => [("-" ++ FilterImpl.toString f)%string]
  | IGroup _ => []
  end.

(** The tokens in the string of an item. *)
Fixpoint itemTokens (item : Item) : list string :=
  match item with
  | IFilter f => [FilterImpl.toString f]
  | IGroup g =>
      let wrap (itemList : list Item) (x : Item) : list string :=
        match x with
        | IGroup _ =>
            if 1 <? length itemList
            then ("(" :: itemTokens x ++ [")"])%list
            else itemTokens x
        | IFilter _ => itemTokens x
        end in
      let sep := if String.eqb (mode g) "AND" then [] else ["~"] in
      (joinTokens sep (map (wrap (include g)) (include g))
       ++ flat_map excludeToken (exclude g))%list
  end.

(** An item between brackets, as it stands in a list of several items. *)
Definition wrapTokens (x : Item) : list string :=
  match x with
  | IGroup _ => ("(" :: itemTokens x ++ [")"])%list
  | IFilter _ => itemTokens x
  end.

(** The group that parsing the tokens of an item yields.  A group that is
    the only include item of its parent is written without brackets, and
    its items are read as items of the parent. *)
Fixpoint reparsed (item : Item) : FilterGroup :=
  match item with
  | IFilter f => mkGroup [IFilter f] [] "AND"
  | IGroup g =>
      let norm (x : Item) : Item :=
        match x with
        | IFilter _ => x
        | IGroup _ => IGroup (reparsed x)
        end in
      let mode1 :=
        if negb (String.eqb (mode g) "AND") && (1 <? length (include g))
        then "OR" else "AND" in
      match include g with
      | [x] =>
          match x with
          | IGroup _ =>
              let r := reparsed x in
              mkGroup (include r) (exclude r ++ exclude g) (mode r)
          | IFilter _ => mkGroup (map norm (include g)) (exclude g) mode1
          end
      | _ => mkGroup (map norm (include g)) (exclude g) mode1
      end
  end.

Definition normItem (x : Item) : Item :=
  match x with
  | IFilter _ => x
  | IGroup _ => IGroup (reparsed x)
  end.

(** The group [acc] after the loop has read the tokens of a group [r] at
    its own level, and the mode flag after them. *)
Definition absorb (acc r : FilterGroup) : FilterGroup :=
  mkGroup (include acc ++ include r) (exclude acc ++ exclude r) (mode acc).

Definition modeAfter (m : string) (r : FilterGroup) : string :=
  if String.eqb (mode r) "OR" then "OR" else m.

(** The loop returns [(r, n)] with some amount of fuel. *)
Definition Returns (toks : list string) (i : nat) (g : FilterGroup)
           (m : string) (r : FilterGroup) (n : nat) : Prop :=
  exists fuel, SearchQueryParser.parseLoop fuel toks i g m = Some (r, n).

(** What may follow a token: nothing, or a character that ends it. *)
Definition Sep (rest : list ascii) : Prop :=
  match rest with
  | [] => True
  | c :: _ => SearchQueryParser.isStructural c = true
  end.

(** The string [s] is read as the tokens [ts] wherever it stands between
    separators. *)
Definition Tokenizes (s : string) (ts : list string) : Prop :=
  forall rest, Sep rest ->
    Spec.scan false EmptyString (list_ascii_of_string s ++ rest)
    = (ts ++ Spec.scan false EmptyString rest)%list.

(** Reading the tokens of [x] at index [i] leads on to the index after them,
    with [x] absorbed in the group under construction. *)
Definition ParsesAs (x : Item) : Prop :=
  forall (toks : list string) (i : nat) (acc : FilterGroup) (m : string)
         (post : list string) (r : FilterGroup) (n : nat),
    skipn i toks = (itemTokens x ++ post)%list ->
    Returns toks (i + length (itemTokens x))
      (absorb acc (reparsed x)) (modeAfter m (reparsed x)) r n ->
    Returns toks i acc m r n.

(** Characters that never end a token and are kept by [trim]. *)
Definition plainChar (c : ascii) : bool :=
  negb (Js.isWhiteSpace c) && negb (SearchQueryParser.isStructural c)
  && negb (Ascii.eqb c Js.quote).

Definition allChars (p : ascii -> bool) (s : string) : bool :=
  forallb p (list_ascii_of_string s).

(** A word: one or more letters, digits or underscores. *)
Definition isWord (s : string) : bool :=
  Js.truthy s && allChars Js.isWordChar s.

(** A filter made of words: a word as term, and either no field and the
    operator colon, or a word as field and the operator colon or equals
    sign. *)
Definition wordFilter (f : Filter) : bool :=
  isWord (term f)
  && match field f with
     | None => String.eqb (operator f) ":"
     | Some k =>
         isWord k
         && (String.eqb (operator f) ":" || String.eqb (operator f) "=")
     end.

(** The trees whose filters are made of words and whose exclude lists hold
    filters only. *)
Fixpoint wordTree (item : Item) : bool :=
  match item with
  | IFilter f => wordFilter f
  | IGroup g =>
      forallb wordTree (include g)
      && forallb (fun x => FilterGroupImpl.isFilter x && wordTree x)
           (exclude g)
  end.

End RoundTrip.

(** ** Induction on items, through the lists of a group *)

Section ItemInduction.

Variable P : Item -> Prop.
Hypothesis P_filter : forall f, P (IFilter f).
Hypothesis P_group :
  forall g, Forall P (include g) -> Forall P (exclude g) -> P (IGroup g).

Fixpoint Item_nested_ind (item : Item) : P item :=
  match item with
  | IFilter f => P_filter f
  | IGroup g =>
      let all :=
        fix all (l : list Item) : Forall P l :=
          match l with
          | [] => Forall_nil P
          | x :: l' => Forall_cons x (Item_nested_ind x) (all l')
          end in
      match g with
      | mkGroup inc exc m =>
          P_group (mkGroup inc exc m) (all inc) (all exc)
      end
  end.

End ItemInduction.

(** ** Definitions for further properties of the code *)

Module Props.

(** [f] with another term. *)
Definition withTerm (f : Filter) (t : string) : Filter :=
  mkFilter (field f) t (operator f).

(** [f] with another operator. *)
Definition withOperator (f : Filter) (op : string) : Filter :=
  mkFilter (field f) (term f) op.

(** A value with [h] applied to the string it is, or to the strings of the
    array it is. *)
Definition mapValue (h : string -> string) (v : JsValue) : JsValue :=
  match v with
  | JStr s => JStr (h s)
  | JArr l =>
      JArr (map (fun x => match x with JStr s => JStr (h s) | _ => x end) l)
  | JOther => JOther
  end.

(** An entry with [h] applied to its string values, keys unchanged. *)
Definition mapValues (h : string -> string) (entry : Entry) : Entry :=
  map (fun kv => (fst kv, mapValue h (snd kv))) entry.

(** A filter whose term is written between quotes: the trimmed term holds a
    space; without field the operator is the colon, with a field the field
    is a word, the operator the colon or the equals sign, and the term lies
    on one line. *)
Definition phraseFilter (f : Filter) : bool :=
  Js.includes (Js.trim (term f)) " "
  && match field f with
     | None => String.eqb (operator f) ":"
     | Some k =>
         RoundTrip.isWord k
         && (String.eqb (operator f) ":" || String.eqb (operator f) "=")
         && negb (Spec.hasLineTerminator (term f))
     end.

(** No double quote in the string. *)
Definition noQuote (s : string) : bool :=
  RoundTrip.allChars (fun c => negb (Ascii.eqb c Js.quote)) s.

(** The list that [isExclude] selects. *)
Definition selected (g : FilterGroup) (isExclude : bool) : list Item :=
  if isExclude then exclude g else include g.

(** Where the tokenizer stands after [chars]: inside quotes or not. *)
Fixpoint quoteState (inQuotes : bool) (chars : list ascii) : bool :=
  match chars with
  | [] => inQuotes
  | c :: rest =>
      quoteState (if Ascii.eqb c Js.quote then negb inQuotes else inQuotes) rest
  end.

(** A string with an even number of double quotes. *)
Definition balanced (s : string) : bool :=
  negb (quoteState false (list_ascii_of_string s)).

(** A token that is neither a bracket nor the tilde. *)
Definition leafToken (t : string) : bool :=
  negb (String.eqb t "~") && negb (String.eqb t "(")
  && negb (String.eqb t ")").

(** The filter the loop adds for a leaf token, and the list it goes to. *)
Definition tokenIsExclude (t : string) : bool := Js.startsWith t "-".

Definition tokenFilter (t : string) : Item :=
  IFilter (FilterImpl.parse (if Js.startsWith t "-" then Js.slice1 t else t)).

(** What the parser builds, at every depth: a mode that is AND or OR,
    exclude lists of filters only, and filters as [Filter.parse] yields
    them. *)
Definition parsedFilter (f : Filter) : bool :=
  (String.eqb (operator f) ":" || String.eqb (operator f) "=")
  && match field f with
     | None => String.eqb (operator f) ":"
     | Some k => RoundTrip.isWord k && Js.truthy (term f)
     end.

Fixpoint parsedShape (item : Item) : bool :=
  match item with
  | IFilter f => parsedFilter f
  | IGroup g =>
      (String.eqb (mode g) "AND" || String.eqb (mode g) "OR")
      && forallb parsedShape (include g)
      && forallb (fun x => FilterGroupImpl.isFilter x && parsedShape x)
           (exclude g)
  end.

(** A token list without brackets, and the group it stands for: the leaf
    tokens that do not start with a minus sign give the include list, those
    that do give the exclude list, in their order; the mode is OR when a
    tilde occurs and AND otherwise. *)
Definition noBrackets (toks : list string) : bool :=
  forallb (fun t => negb (String.eqb t "(") && negb (String.eqb t ")")) toks.

Definition isTilde (t : string) : bool := String.eqb t "~".

Definition flatIncludes (toks : list string) : list Item :=
  map tokenFilter
    (filter (fun t => negb (tokenIsExclude t)) (filter leafToken toks)).

Definition flatExcludes (toks : list string) : list Item :=
  map tokenFilter (filter tokenIsExclude (filter leafToken toks)).

Definition flatGroup (toks : list string) : FilterGroup :=
  mkGroup (flatIncludes toks) (flatExcludes toks)
    (if existsb isTilde toks then "OR" else "AND").

(** The two parts of [toString]: the include items joined by the joiner
    of the mode, and the exclude items, each behind a minus sign, joined by
    spaces. *)
Definition incString (g : FilterGroup) : string :=
  Js.join (if String.eqb (mode g) "AND" then " " else "~")
    (map (fun item => FilterGroupImpl.itemMapper item (include g)) (include g)).

Definition dashed (item : Item) : string :=
  ("-" ++ FilterGroupImpl.itemToString item)%string.

Definition excString (g : FilterGroup) : string :=
  Js.join " "
    (map (fun item => ("-" ++ FilterGroupImpl.itemMapper item (exclude g))%string)
       (exclude g)).

(** [[a, b].filter(Boolean).join(" ")] *)
Definition twoParts (a b : string) : string :=
  Js.join " " (filter Js.truthy [a; b]).

(** Whether the first token that is not a tilde exists and is not a closing
    bracket. *)
Fixpoint startsQuery (toks : list string) : bool :=
  match toks with
  | [] => false
  | t :: rest =>
      if String.eqb t "~" then startsQuery rest else negb (String.eqb t ")")
  end.

(** Whether one of the two lists of a group holds an item. *)
Definition hasItems (g : FilterGroup) : bool :=
  (0 <? length (include g)) || (0 <? length (exclude g)).

(** A token as the tokenizer may emit it: a bracket, the tilde, or a
    string that it keeps in one piece. *)
Definition validToken (t : string) : bool :=
  String.eqb t "(" || String.eqb t ")" || String.eqb t "~"
  || RoundTrip.wholeToken t.

(** Whether the tokenizer, reading [chars] from the given state, meets no
    bracket, tilde or space outside quotes. *)
Fixpoint noBreak (inQuotes : bool) (chars : list ascii) : bool :=
  match chars with
  | [] => true
  | c :: rest =>
      if Ascii.eqb c Js.quote then noBreak (negb inQuotes) rest
      else if negb inQuotes && SearchQueryParser.isStructural c then false
      else noBreak inQuotes rest
  end.

End Props.

(** * Theorems *)

(** ** General facts on strings *)

Lemma append_nil_r (s : string) : (s ++ EmptyString)%string = s.
Proof. induction s as [|c s IH]; simpl; [reflexivity | now rewrite IH]. Qed.

Lemma append_assoc (a b c : string) :
  ((a ++ b) ++ c)%string = (a ++ (b ++ c))%string.
Proof. induction a as [|x a IH]; simpl; [reflexivity | now rewrite IH]. Qed.

Lemma toLowerCase_truthy (s : string) :
  Js.truthy (Js.toLowerCase s) = Js.truthy s.
Proof. destruct s; reflexivity. Qed.

Lemma truthy_false_iff (s : string) : Js.truthy s = false <-> s = EmptyString.
Proof. destruct s; simpl; split; congruence. Qed.

Lemma truthy_true_iff (s : string) : Js.truthy s = true <-> s <> EmptyString.
Proof. destruct s; simpl; split; congruence. Qed.

(** ** Group evaluation *)

Lemma matchItem_group (e : Entry) (g : FilterGroup) :
  FilterGroupImpl.matchItem e (IGroup g) = FilterGroupImpl.matchesEntry g e.
Proof. reflexivity. Qed.

Lemma matchItem_filter (e : Entry) (f : Filter) :
  FilterGroupImpl.matchItem e (IFilter f) = FilterImpl.matchEntry f e.
Proof. reflexivity. Qed.

Lemma forallb_negb_existsb {A : Type} (p : A -> bool) (l : list A) :
  forallb (fun x => negb (p x)) l = negb (existsb p l).
Proof.
  induction l as [|x l IH]; simpl; [reflexivity|].
  rewrite IH. now destruct (p x), (existsb p l).
Qed.

Lemma excludeMatch_none (g : FilterGroup) (e : Entry) :
  Spec.excludeMatch g e = true
  <-> forall item, In item (exclude g)
                   -> FilterGroupImpl.matchItem e item = false.
Proof.
  unfold Spec.excludeMatch. split.
  - intros H item Hin. apply negb_true_iff in H.
    destruct (FilterGroupImpl.matchItem e item) eqn:Hm; [|reflexivity].
    assert (existsb (FilterGroupImpl.matchItem e) (exclude g) = true)
      by (apply existsb_exists; eauto).
    congruence.
  - intros H. apply negb_true_iff.
    destruct (existsb (FilterGroupImpl.matchItem e) (exclude g)) eqn:Hx;
      [|reflexivity].
    apply existsb_exists in Hx. destruct Hx as [item [Hin Hm]].
    rewrite (H item Hin) in Hm. discriminate.
Qed.

(** C1. A group matches an entry exactly when its include side and its
    exclude side both hold: the include side is true on an empty include
    list and otherwise is the conjunction (mode AND) or the disjunction (any
    other mode) of the recursive results on the include items; the exclude
    side holds exactly when no exclude item matches, whatever the mode. *)
Theorem matchesEntry_include_and_exclude :
  forall (g : FilterGroup) (e : Entry),
    FilterGroupImpl.matchesEntry g e
    = Spec.includeMatch g e && Spec.excludeMatch g e
    /\ (forall g', FilterGroupImpl.matchItem e (IGroup g')
                   = FilterGroupImpl.matchesEntry g' e)
    /\ (forall f, FilterGroupImpl.matchItem e (IFilter f)
                  = FilterImpl.matchEntry f e)
    /\ (forall m, Spec.excludeMatch (FilterGroupImpl.setMode g m) e
                  = Spec.excludeMatch g e)
    /\ Spec.excludeMatch g e
       = forallb (fun item => negb (FilterGroupImpl.matchItem e item))
           (exclude g).
Proof.
  intros g e.
  split; [|split; [|split; [|split]]]; try reflexivity.
  - unfold FilterGroupImpl.matchesEntry, Spec.includeMatch, Spec.excludeMatch.
    rewrite forallb_negb_existsb.
    destruct (include g) as [|x l]; reflexivity.
  - unfold Spec.excludeMatch. now rewrite forallb_negb_existsb.
Qed.

(** ** Mutation of a group *)

(** C10. Adding with a mode to the exclude list never restructures the
    group: include list and mode stay, the item goes to the end of the
    exclude list, whatever the requested mode.  On the include side the
    items are moved into a subgroup exactly when the requested mode differs
    from the group's mode. *)
Theorem addWithMode_exclude_keeps_structure :
  forall (g : FilterGroup) (item : Item) (m : string),
    FilterGroupImpl.addWithMode g item m true
    = mkGroup (include g) (exclude g ++ [item]) (mode g)
    /\ FilterGroupImpl.addWithMode g item m false
       = (if String.eqb (mode g) m
          then mkGroup (include g ++ [item]) (exclude g) (mode g)
          else mkGroup [IGroup (mkGroup (include g) [] (mode g)); item]
                 (exclude g) m).
Proof.
  intros g item m. split.
  - reflexivity.
  - unfold FilterGroupImpl.addWithMode. simpl.
    destruct (String.eqb (mode g) m); reflexivity.
Qed.

Lemma remove_keeps_only_filters (g : FilterGroup) (f : Filter) (b : bool) :
  Forall (fun item => FilterGroupImpl.isFilter item = true)
    (if b then exclude (FilterGroupImpl.remove g f b)
     else include (FilterGroupImpl.remove g f b)).
Proof.
  unfold FilterGroupImpl.remove.
  destruct b; simpl; apply Forall_forall; intros x Hx;
    apply filter_In in Hx; destruct Hx as [_ Hx]; destruct x; simpl in *;
    congruence.
Qed.

Lemma remove_other_list (g : FilterGroup) (f : Filter) (b : bool) :
  (if b then include (FilterGroupImpl.remove g f b)
   else exclude (FilterGroupImpl.remove g f b))
  = (if b then include g else exclude g)
  /\ mode (FilterGroupImpl.remove g f b) = mode g.
Proof. destruct b; split; reflexivity. Qed.

(** C7 (the code departs from it). Removing the filter [a] from a group
    whose include list holds [a] and a nested group empties the include
    list: the nested group is dropped with the filter. *)
Theorem remove_drops_nested_group :
  let a := mkFilter None "a" ":" in
  let nested := mkGroup [IFilter (mkFilter None "b" ":")] [] "AND" in
  FilterGroupImpl.remove (mkGroup [IFilter a; IGroup nested] [] "AND") a false
  = mkGroup [] [] "AND"
  /\ FilterGroupImpl.remove
       (mkGroup [] [IGroup nested; IFilter (mkFilter None "c" ":")] "AND")
       a true
     = mkGroup [] [IFilter (mkFilter None "c" ":")] "AND".
Proof. split; reflexivity. Qed.

(** ** Candidate values of a leaf filter *)

Lemma getFields_noField (f : Filter) (entry : Entry) :
  FilterImpl.noField f = true ->
  FilterImpl.getFields f entry
  = map Js.toLowerCase (filter Js.truthy (allStrings entry)).
Proof.
  unfold FilterImpl.noField, FilterImpl.getFields, allStrings.
  destruct (field f) as [k|]; [|reflexivity].
  destruct (Js.truthy k); simpl; [discriminate | reflexivity].
Qed.

Lemma getFields_field (f : Filter) (entry : Entry) (k : string) :
  field f = Some k -> Js.truthy k = true ->
  FilterImpl.getFields f entry
  = match getProp entry (Js.toLowerCase k) with
    | Some (JArr l) => map Js.toLowerCase (stringsOf l)
    | Some (JStr s) => [Js.toLowerCase s]
    | _ => []
    end.
Proof.
  intros Hf Hk. unfold FilterImpl.getFields. now rewrite Hf, Hk.
Qed.

Lemma In_stringsOf (l : list JsValue) (s : string) :
  In s (stringsOf l) <-> In (JStr s) l.
Proof.
  induction l as [|v l IH]; simpl; [tauto|].
  destruct v as [s'|l'|]; simpl; rewrite IH.
  - split; (intros [H|H]; [left; congruence | now right]).
  - split; [now right | intros [H|H]; [discriminate | assumption]].
  - split; [now right | intros [H|H]; [discriminate | assumption]].
Qed.

Lemma In_allStrings (entry : Entry) (s : string) :
  In s (allStrings entry) <->
  exists k v, In (k, v) entry /\ (v = JStr s \/ exists l, v = JArr l /\ In (JStr s) l).
Proof.
  unfold allStrings, values. rewrite in_flat_map. split.
  - intros [v [Hv Hs]]. apply in_map_iff in Hv.
    destruct Hv as [[k v'] [Hkv Hin]]. simpl in Hkv. subst v'.
    exists k, v. split; [assumption|].
    destruct v as [s'|l|]; simpl in Hs.
    + left. destruct Hs as [->|[]]. reflexivity.
    + right. exists l. split; [reflexivity|]. now apply In_stringsOf.
    + contradiction.
  - intros [k [v [Hin Hv]]]. exists v. split.
    + apply in_map_iff. exists (k, v). auto.
    + destruct Hv as [->|[l [-> Hl]]]; simpl; [auto|]. now apply In_stringsOf.
Qed.

Lemma exact_empty_term (f : Filter) (value : string) :
  term f = EmptyString -> operator f = "=" ->
  FilterImpl.matchField f value = negb (Js.truthy value).
Proof.
  intros Ht Ho. unfold FilterImpl.matchField. rewrite Ht, Ho. simpl.
  destruct value; reflexivity.
Qed.

(** C9. A filter without field never sees an empty string: its candidates
    are the lower-cased non-empty strings found as property values or as
    string elements of array values, so with operator [=] and an empty term
    it matches no entry.  A filter with a field whose lower-cased name is a
    key holding the empty string has the empty string as candidate, and with
    operator [=] and an empty term it matches that entry. *)
Theorem empty_string_asymmetry :
  forall (f : Filter) (entry : Entry),
    (FilterImpl.noField f = true ->
       (forall v, In v (FilterImpl.getFields f entry) ->
          v <> EmptyString
          /\ exists s, v = Js.toLowerCase s /\ s <> EmptyString
                       /\ exists k w, In (k, w) entry
                            /\ (w = JStr s
                                \/ exists l, w = JArr l /\ In (JStr s) l))
       /\ (term f = EmptyString -> operator f = "=" ->
           FilterImpl.matchEntry f entry = false))
    /\ (forall k, field f = Some k -> Js.truthy k = true ->
          getProp entry (Js.toLowerCase k) = Some (JStr EmptyString) ->
          FilterImpl.getFields f entry = [EmptyString]
          /\ (term f = EmptyString -> operator f = "=" ->
              FilterImpl.matchEntry f entry = true)).
Proof.
  intros f entry. split.
  - intros Hno. rewrite (getFields_noField f entry Hno).
    assert (Hcand : forall v,
               In v (map Js.toLowerCase (filter Js.truthy (allStrings entry))) ->
               exists s, v = Js.toLowerCase s /\ Js.truthy s = true
                         /\ In s (allStrings entry)).
    { intros v Hv. apply in_map_iff in Hv. destruct Hv as [s [<- Hs]].
      apply filter_In in Hs. destruct Hs as [Hin Ht]. eauto. }
    split.
    + intros v Hv. destruct (Hcand v Hv) as [s [-> [Ht Hin]]]. split.
      * apply truthy_true_iff. now rewrite toLowerCase_truthy.
      * exists s. split; [reflexivity|]. split; [now apply truthy_true_iff|].
        now apply In_allStrings.
    + intros Ht Ho. unfold FilterImpl.matchEntry.
      rewrite (getFields_noField f entry Hno).
      destruct (existsb _ _) eqn:Hx; [|reflexivity].
      apply existsb_exists in Hx. destruct Hx as [v [Hv Hm]].
      destruct (Hcand v Hv) as [s [-> [Hs _]]].
      rewrite (exact_empty_term f _ Ht Ho) in Hm.
      rewrite toLowerCase_truthy, Hs in Hm. discriminate.
  - intros k Hf Hk Hget.
    assert (Hg : FilterImpl.getFields f entry = [EmptyString]).
    { rewrite (getFields_field f entry k Hf Hk), Hget. reflexivity. }
    split; [assumption|].
    intros Ht Ho. unfold FilterImpl.matchEntry. rewrite Hg. simpl.
    rewrite (exact_empty_term f _ Ht Ho). reflexivity.
Qed.

Lemma empty_string_asymmetry_witness :
  FilterImpl.matchEntry (mkFilter None EmptyString "=")
    [("a", JStr EmptyString); ("b", JArr [JOther; JStr EmptyString])] = false
  /\ FilterImpl.matchEntry (mkFilter (Some "A") EmptyString "=")
       [("a", JStr EmptyString); ("b", JArr [JOther; JStr EmptyString])] = true.
Proof.
  split.
  - apply (empty_string_asymmetry (mkFilter None EmptyString "=")
             [("a", JStr EmptyString); ("b", JArr [JOther; JStr EmptyString])]);
      reflexivity.
  - apply (proj2 (empty_string_asymmetry (mkFilter (Some "A") EmptyString "=")
             [("a", JStr EmptyString); ("b", JArr [JOther; JStr EmptyString])])
             "A"); reflexivity.
Defined.

Lemma getFields_candidates (f : Filter) (entry : Entry) (k : string) :
  field f = Some k -> Js.truthy k = true ->
  FilterImpl.getFields f entry
  = Spec.candidatesOf (getProp entry (Js.toLowerCase k)).
Proof. apply getFields_field. Qed.

(** C2 as stated fails: the key [Name] of an entry is not found by the
    filter field [name], which a key match blind to letter case finds. *)
Lemma field_lookup_is_case_sensitive :
  ~ (forall (f : Filter) (entry : Entry),
        FilterImpl.noField f = false ->
        FilterImpl.getFields f entry = Spec.getFieldsAnyCase f entry).
Proof.
  intros H.
  specialize (H (mkFilter (Some "name") "bob" ":") [("Name", JStr "Bob")]
                eq_refl).
  vm_compute in H. discriminate.
Qed.

Lemma toLowerChar_idempotent (c : ascii) :
  Js.toLowerChar (Js.toLowerChar c) = Js.toLowerChar c.
Proof. destruct c as [[] [] [] [] [] [] [] []]; reflexivity. Qed.

Lemma toLowerCase_idempotent (s : string) :
  Js.toLowerCase (Js.toLowerCase s) = Js.toLowerCase s.
Proof.
  induction s as [|c s IH]; [reflexivity|].
  cbn [Js.toLowerCase]. now rewrite toLowerChar_idempotent, IH.
Qed.

Lemma getProp_absent (entry : Entry) (key : string) :
  (forall k v, In (k, v) entry -> k <> key) -> getProp entry key = None.
Proof.
  induction entry as [|[k v] entry IH]; intros H; [reflexivity|].
  cbn [getProp].
  destruct (String.eqb k key) eqn:E.
  - apply String.eqb_eq in E. exfalso. apply (H k v); [now left | exact E].
  - apply IH. intros k' v' Hin. apply (H k' v'). now right.
Qed.

(** C2, amended. A filter with a field lower-cases the name of its field
    and reads the property of exactly that key: the candidates are the
    lower-cased string, or string elements, found there.  A lower-case key
    is found by every spelling of the field that differs from it in letter
    case only; in an entry none of whose keys is lower-case no property is
    found, whatever the field. *)
Theorem field_lookup_by_lowered_name :
  forall (f : Filter) (entry : Entry) (k : string),
    field f = Some k -> Js.truthy k = true ->
    FilterImpl.getFields f entry
    = Spec.candidatesOf (getProp entry (Js.toLowerCase k))
    /\ FilterImpl.matchEntry f entry
       = existsb (FilterImpl.matchField f)
           (Spec.candidatesOf (getProp entry (Js.toLowerCase k)))
    /\ (forall (key : string) (v : JsValue),
          Js.toLowerCase k = key ->
          FilterImpl.getFields f ((key, v) :: entry)
          = Spec.candidatesOf (Some v))
    /\ ((forall key v, In (key, v) entry -> Js.toLowerCase key <> key) ->
        FilterImpl.getFields f entry = []
        /\ FilterImpl.matchEntry f entry = false).
Proof.
  intros f entry k Hf Hk.
  split; [now apply getFields_candidates|].
  split.
  { unfold FilterImpl.matchEntry.
    now rewrite (getFields_candidates f entry k Hf Hk). }
  split.
  - intros key v Hkey.
    rewrite (getFields_candidates f _ k Hf Hk). cbn [getProp].
    now rewrite Hkey, String.eqb_refl.
  - intros Hcap.
    assert (Hnone : FilterImpl.getFields f entry = []).
    { rewrite (getFields_candidates f _ k Hf Hk), getProp_absent;
        [reflexivity|].
      intros key v Hin Heq. apply (Hcap key v Hin).
      rewrite Heq. apply toLowerCase_idempotent. }
    split; [exact Hnone|].
    unfold FilterImpl.matchEntry. now rewrite Hnone.
Qed.

Lemma field_lookup_by_lowered_name_witness :
  FilterImpl.getFields (mkFilter (Some "Name") "bob" ":")
    [("name", JStr "Bob Jones"); ("Name", JStr "Rob")] = ["bob jones"]
  /\ FilterImpl.matchEntry (mkFilter (Some "Name") "bob" ":")
       [("Name", JStr "Bob Jones")] = false
  /\ FilterImpl.matchEntry (mkFilter (Some "name") "bob" ":")
       [("Name", JStr "Bob Jones")] = false.
Proof.
  split; [|split].
  - apply (field_lookup_by_lowered_name
             (mkFilter (Some "Name") "bob" ":") [("Name", JStr "Rob")] "Name"
             eq_refl eq_refl).
    reflexivity.
  - apply (field_lookup_by_lowered_name
             (mkFilter (Some "Name") "bob" ":") [("Name", JStr "Bob Jones")]
             "Name" eq_refl eq_refl).
    intros key v [[= <- <-]|[]]. discriminate.
  - apply (field_lookup_by_lowered_name
             (mkFilter (Some "name") "bob" ":") [("Name", JStr "Bob Jones")]
             "name" eq_refl eq_refl).
    intros key v [[= <- <-]|[]]. discriminate.
Defined.

(** ** The tokenizer *)

Lemma flush_flushed (toks : list string) (buf : string) :
  SearchQueryParser.flush toks buf = (toks ++ Spec.flushed buf)%list.
Proof.
  unfold SearchQueryParser.flush, Spec.flushed.
  destruct (Js.truthy (Js.trim buf)); [reflexivity | now rewrite app_nil_r].
Qed.

(** The loop of [tokenize] from any state, followed by the last flush, adds
    to the tokens already emitted what the scan yields. *)
Lemma tokenize_loop_scan (chars : list ascii) :
  forall st : SearchQueryParser.TokState,
    SearchQueryParser.flush
      (SearchQueryParser.tokens
         (fold_left SearchQueryParser.tokenizeStep chars st))
      (SearchQueryParser.buffer
         (fold_left SearchQueryParser.tokenizeStep chars st))
    = (SearchQueryParser.tokens st
       ++ Spec.scan (SearchQueryParser.inQuotes st)
            (SearchQueryParser.buffer st) chars)%list.
Proof.
  induction chars as [|c chars IH]; intros [toks buf inQ].
  - apply flush_flushed.
  - cbn [fold_left Spec.scan]. rewrite IH. clear IH.
    unfold SearchQueryParser.tokenizeStep, SearchQueryParser.isStructural.
    cbn [SearchQueryParser.tokens SearchQueryParser.buffer
         SearchQueryParser.inQuotes].
    destruct (Ascii.eqb c Js.quote) eqn:Hq; [reflexivity|].
    destruct inQ; [reflexivity|].
    cbn [negb andb].
    destruct (Ascii.eqb c "(") eqn:H1.
    { apply Ascii.eqb_eq in H1. subst c. cbn.
      rewrite flush_flushed, <- !app_assoc. reflexivity. }
    destruct (Ascii.eqb c ")") eqn:H2.
    { apply Ascii.eqb_eq in H2. subst c. cbn.
      rewrite flush_flushed, <- !app_assoc. reflexivity. }
    destruct (Ascii.eqb c "~") eqn:H3.
    { apply Ascii.eqb_eq in H3. subst c. cbn.
      rewrite flush_flushed, <- !app_assoc. reflexivity. }
    destruct (Ascii.eqb c " ") eqn:H4.
    { cbn. rewrite flush_flushed, <- !app_assoc. reflexivity. }
    reflexivity.
Qed.

Lemma tokenize_scan (query : string) :
  SearchQueryParser.tokenize query = Spec.tokenize query.
Proof.
  unfold SearchQueryParser.tokenize, Spec.tokenize.
  apply (tokenize_loop_scan (list_ascii_of_string query)
           (SearchQueryParser.mkTok [] EmptyString false)).
Qed.

Lemma flushed_nonempty (buf t : string) :
  In t (Spec.flushed buf) -> t <> EmptyString.
Proof.
  unfold Spec.flushed. destruct (Js.truthy (Js.trim buf)) eqn:Ht; simpl.
  - intros [<-|[]]. now apply truthy_true_iff.
  - contradiction.
Qed.

Lemma scan_nonempty (chars : list ascii) :
  forall (inQ : bool) (buf t : string),
    In t (Spec.scan inQ buf chars) -> t <> EmptyString.
Proof.
  induction chars as [|c chars IH]; intros inQ buf t; simpl.
  - apply flushed_nonempty.
  - destruct (Ascii.eqb c Js.quote); [apply IH|].
    destruct inQ; [apply IH|].
    destruct (Ascii.eqb c "(" || Ascii.eqb c ")" || Ascii.eqb c "~").
    { intros H. apply in_app_or in H. destruct H as [H|[<-|H]].
      - now apply flushed_nonempty in H.
      - discriminate.
      - now apply IH in H. }
    destruct (Ascii.eqb c " ").
    { intros H. apply in_app_or in H. destruct H as [H|H].
      - now apply flushed_nonempty in H.
      - now apply IH in H. }
    apply IH.
Qed.

(** C4. The tokenizer is the character scan with an [inQuotes] flag that the
    specification describes: it yields the same tokens as [Spec.tokenize] on
    every input.  No token is empty, so runs of spaces yield no token, and
    a bracket next to a word is split from it. *)
Theorem tokenize_is_the_described_scan :
  forall query : string,
    SearchQueryParser.tokenize query = Spec.tokenize query
    /\ (forall t, In t (SearchQueryParser.tokenize query) -> t <> EmptyString)
    /\ SearchQueryParser.tokenize "(hello)" = ["("; "hello"; ")"]
    /\ SearchQueryParser.tokenize "a    b" = ["a"; "b"]
    /\ SearchQueryParser.tokenize "     " = [].
Proof.
  intros query. split; [apply tokenize_scan|].
  split; [|repeat split].
  intros t. rewrite tokenize_scan. apply scan_nonempty.
Qed.

(** ** The parser: termination *)

Lemma nth_error_skipn_cons {A : Type} (l : list A) (i : nat) (x : A) :
  nth_error l i = Some x -> skipn i l = x :: skipn (S i) l.
Proof.
  revert i. induction l as [|y l IH]; intros [|i]; simpl; try discriminate.
  - intros [= ->]. reflexivity.
  - intros H. rewrite (IH i H). reflexivity.
Qed.

Lemma nth_error_skipn_nil {A : Type} (l : list A) (i : nat) :
  nth_error l i = None -> skipn i l = [].
Proof.
  intros H. apply nth_error_None in H. now apply skipn_all2.
Qed.

(** With more than [length tokens - i] units of fuel the loop returns, at an
    index between [i] and the number of tokens. *)
Lemma parseLoop_total (fuel : nat) :
  forall (toks : list string) (i : nat) (g : FilterGroup) (m : string),
    length toks - i < fuel ->
    exists g' n,
      SearchQueryParser.parseLoop fuel toks i g m = Some (g', n)
      /\ n <= length toks /\ Nat.min i (length toks) <= n.
Proof.
  induction fuel as [|fuel IH]; intros toks i g m Hfuel; [lia|].
  cbn [SearchQueryParser.parseLoop].
  destruct (nth_error toks i) as [token|] eqn:Hnth.
  - assert (Hi : i < length toks) by (apply nth_error_Some; congruence).
    destruct (String.eqb token "~").
    { destruct (IH toks (S i) g "OR") as [g' [n [-> [H1 H2]]]]; [lia|].
      exists g', n. repeat split; lia. }
    destruct (String.eqb token "(").
    { destruct (IH toks (i + 1) FilterGroupImpl.new0 "AND")
        as [sub [next [-> [H1 H2]]]]; [lia|].
      destruct (IH toks (S next)
                  (FilterGroupImpl.add g (IGroup sub) false) m)
        as [g' [n [-> [H3 H4]]]]; [lia|].
      exists g', n. repeat split; lia. }
    destruct (String.eqb token ")").
    { eexists _, i. repeat split; lia. }
    match goal with
    | |- context [SearchQueryParser.parseLoop fuel toks (S i) ?g1 m] =>
        destruct (IH toks (S i) g1 m) as [g' [n [-> [H1 H2]]]]; [lia|]
    end.
    exists g', n. repeat split; lia.
  - apply nth_error_None in Hnth.
    eexists _, (length toks). repeat split; lia.
Qed.

(** Once the loop returns, more fuel does not change the result. *)
Lemma parseLoop_fuel_mono (fuel : nat) :
  forall (toks : list string) (i : nat) (g : FilterGroup) (m : string)
         (r : FilterGroup * nat) (fuel' : nat),
    SearchQueryParser.parseLoop fuel toks i g m = Some r ->
    fuel <= fuel' ->
    SearchQueryParser.parseLoop fuel' toks i g m = Some r.
Proof.
  induction fuel as [|fuel IH]; intros toks i g m r fuel' H Hle;
    [discriminate|].
  destruct fuel' as [|fuel']; [lia|].
  cbn [SearchQueryParser.parseLoop] in *.
  destruct (nth_error toks i) as [token|]; [|assumption].
  destruct (String.eqb token "~"); [apply IH with (1 := H); lia|].
  destruct (String.eqb token "(").
  { destruct (SearchQueryParser.parseLoop fuel toks (i + 1)
                FilterGroupImpl.new0 "AND") as [[sub next]|] eqn:Hsub;
      [|discriminate].
    rewrite (IH _ _ _ _ _ fuel' Hsub) by lia.
    apply IH with (1 := H); lia. }
  destruct (String.eqb token ")"); [assumption|].
  apply IH with (1 := H); lia.
Qed.

(** *** The call stack: how deep the brackets may nest *)

Lemma bracketDepth_plain (t : string) (rest : list string) (d : nat) :
  String.eqb t "(" = false -> String.eqb t ")" = false ->
  Spec.bracketDepth d (t :: rest) = Spec.bracketDepth d rest.
Proof. intros H1 H2. cbn [Spec.bracketDepth]. now rewrite H1, H2. Qed.

(** Where the loop returns is the end of the bracket level it started in:
    the depth reached from a deeper start is the depth reached inside the
    level, or the depth reached behind it. *)
Lemma parseLoop_depth (fuel : nat) :
  forall (toks : list string) (i : nat) (g : FilterGroup) (m : string)
         (r : FilterGroup) (n : nat),
    SearchQueryParser.parseLoop fuel toks i g m = Some (r, n) ->
    forall d,
      Spec.bracketDepth (S d) (skipn i toks)
      = Nat.max (S d + Spec.bracketDepth 0 (skipn i toks))
                (Spec.bracketDepth d (skipn (S n) toks)).
Proof.
  induction fuel as [|fuel IH]; intros toks i g m r n H d; [discriminate|].
  cbn [SearchQueryParser.parseLoop] in H.
  destruct (nth_error toks i) as [token|] eqn:Hnth.
  - rewrite (nth_error_skipn_cons _ _ _ Hnth).
    destruct (String.eqb token "~") eqn:Ht.
    { apply String.eqb_eq in Ht. subst token.
      rewrite !bracketDepth_plain by reflexivity.
      apply (IH _ _ _ _ _ _ H). }
    destruct (String.eqb token "(") eqn:Ho.
    { apply String.eqb_eq in Ho. subst token.
      destruct (SearchQueryParser.parseLoop fuel toks (i + 1)
                  FilterGroupImpl.new0 "AND") as [[sub next]|] eqn:Hsub;
        [|discriminate].
      rewrite Nat.add_1_r in Hsub.
      pose proof (IH _ _ _ _ _ _ Hsub) as Hd1.
      pose proof (IH _ _ _ _ _ _ H d) as Hd2.
      cbn [Spec.bracketDepth String.eqb Ascii.eqb Bool.eqb].
      rewrite (Hd1 (S d)), (Hd1 0), Hd2. lia. }
    destruct (String.eqb token ")") eqn:Hc.
    { apply String.eqb_eq in Hc. subst token.
      injection H as <- <-.
      cbn [Spec.bracketDepth String.eqb Ascii.eqb Bool.eqb]. lia. }
    rewrite !bracketDepth_plain by assumption.
    apply (IH _ _ _ _ _ _ H).
  - injection H as <- <-.
    rewrite (nth_error_skipn_nil _ _ Hnth), skipn_all2 by lia.
    cbn [Spec.bracketDepth]. lia.
Qed.

(** The loop on a bounded call stack: it throws exactly when the brackets
    ahead nest deeper than the stack has room for, and returns what the
    loop returns otherwise. *)
Lemma parseLoopWithin_spec (fuel : nat) :
  forall (frames : nat) (toks : list string) (i : nat) (g : FilterGroup)
         (m : string),
    length toks - i < fuel ->
    exists (r : FilterGroup) (n : nat),
      SearchQueryParser.parseLoop fuel toks i g m = Some (r, n)
      /\ SearchQueryParser.parseLoopWithin fuel frames toks i g m
         = Some (if Spec.bracketDepth 0 (skipn i toks) <=? frames
                 then SearchQueryParser.Returned (r, n)
                 else SearchQueryParser.RangeError).
Proof.
  induction fuel as [|fuel IH]; intros frames toks i g m Hfuel; [lia|].
  cbn [SearchQueryParser.parseLoop SearchQueryParser.parseLoopWithin].
  destruct (nth_error toks i) as [token|] eqn:Hnth.
  - assert (Hi : i < length toks) by (apply nth_error_Some; congruence).
    rewrite (nth_error_skipn_cons _ _ _ Hnth).
    destruct (String.eqb token "~") eqn:Ht.
    { apply String.eqb_eq in Ht. subst token.
      rewrite bracketDepth_plain by reflexivity.
      apply IH. lia. }
    destruct (String.eqb token "(") eqn:Ho.
    { apply String.eqb_eq in Ho. subst token.
      destruct (parseLoop_total fuel toks (i + 1) FilterGroupImpl.new0 "AND")
        as [sub [next [Hsub [Hn1 Hn2]]]]; [lia|].
      pose proof (parseLoop_depth _ _ _ _ _ _ _ Hsub 0) as Hd.
      rewrite Nat.add_1_r in Hd.
      rewrite Hsub.
      cbn [Spec.bracketDepth String.eqb Ascii.eqb Bool.eqb]. rewrite Hd.
      destruct (IH frames toks (S next)
                  (FilterGroupImpl.add g (IGroup sub) false) m)
        as [r [n [Hr Hw]]]; [lia|].
      exists r, n. split; [exact Hr|].
      destruct frames as [|frames'].
      { destruct (Nat.leb_spec
                    (Nat.max (1 + Spec.bracketDepth 0 (skipn (S i) toks))
                       (Spec.bracketDepth 0 (skipn (S next) toks))) 0);
          [lia | reflexivity]. }
      destruct (IH frames' toks (i + 1) FilterGroupImpl.new0 "AND")
        as [sub' [next' [Hsub' Hw']]]; [lia|].
      rewrite Hsub in Hsub'. injection Hsub' as <- <-.
      rewrite Hw'. rewrite Nat.add_1_r.
      destruct (Nat.leb_spec (Spec.bracketDepth 0 (skipn (S i) toks)) frames')
        as [Hin|Hin].
      - rewrite Hw.
        destruct (Nat.leb_spec (Spec.bracketDepth 0 (skipn (S next) toks))
                    (S frames'));
          destruct (Nat.leb_spec
                      (Nat.max (1 + Spec.bracketDepth 0 (skipn (S i) toks))
                         (Spec.bracketDepth 0 (skipn (S next) toks)))
                      (S frames'));
          first [reflexivity | lia].
      - destruct (Nat.leb_spec
                    (Nat.max (1 + Spec.bracketDepth 0 (skipn (S i) toks))
                       (Spec.bracketDepth 0 (skipn (S next) toks)))
                    (S frames'));
          [lia | reflexivity]. }
    destruct (String.eqb token ")") eqn:Hc.
    { apply String.eqb_eq in Hc. subst token.
      eexists _, i. split; reflexivity. }
    rewrite bracketDepth_plain by assumption.
    apply IH. lia.
  - rewrite (nth_error_skipn_nil _ _ Hnth).
    eexists _, (length toks). split; reflexivity.
Qed.

Lemma tokenize_openBrackets (n : nat) :
  SearchQueryParser.tokenize (Spec.openBrackets n) = repeat "(" n.
Proof.
  rewrite tokenize_scan. unfold Spec.tokenize.
  induction n as [|n IH]; [reflexivity|].
  cbn [Spec.openBrackets list_ascii_of_string Spec.scan repeat].
  change (Ascii.eqb "(" Js.quote) with false. cbv iota.
  change (Ascii.eqb "(" "(" || Ascii.eqb "(" ")" || Ascii.eqb "(" "~")
    with true.
  cbv iota. now rewrite IH.
Qed.

Lemma bracketDepth_openBrackets (n : nat) :
  forall d : nat, Spec.bracketDepth d (repeat "(" n) = d + n.
Proof.
  induction n as [|n IH]; intros d; cbn [repeat Spec.bracketDepth].
  - lia.
  - cbn [String.eqb Ascii.eqb Bool.eqb]. rewrite IH. lia.
Qed.

Lemma parseQueryWithin_spec (frames : nat) (query : string) :
  exists g : FilterGroup,
    SearchQueryParser.parseQuery query = Some g
    /\ SearchQueryParser.parseQueryWithin frames query
       = Some (if Spec.bracketDepth 0 (SearchQueryParser.tokenize query)
                  <=? frames
               then SearchQueryParser.Returned g
               else SearchQueryParser.RangeError).
Proof.
  unfold SearchQueryParser.parseQuery, SearchQueryParser.parseQueryWithin,
    SearchQueryParser.parseTokens, SearchQueryParser.parseTokensFuel,
    SearchQueryParser.parseTokensWithin.
  cbv zeta.
  destruct (parseLoopWithin_spec
              (SearchQueryParser.parseFuel (SearchQueryParser.tokenize query) 0)
              frames (SearchQueryParser.tokenize query) 0
              FilterGroupImpl.new0 (mode FilterGroupImpl.new0))
    as [g [n [Hr Hw]]]; [unfold SearchQueryParser.parseFuel; lia|].
  exists g. rewrite Hr, Hw. split; [reflexivity|].
  cbn [skipn].
  now destruct (Spec.bracketDepth 0 (SearchQueryParser.tokenize query)
                <=? frames).
Qed.

Lemma deep_brackets_overflow (frames n : nat) :
  frames < n ->
  SearchQueryParser.parseQueryWithin frames (Spec.openBrackets n)
  = Some SearchQueryParser.RangeError.
Proof.
  intros Hlt.
  destruct (parseQueryWithin_spec frames (Spec.openBrackets n))
    as [g [_ ->]].
  rewrite tokenize_openBrackets, bracketDepth_openBrackets.
  destruct (Nat.leb_spec (0 + n) frames); [lia | reflexivity].
Qed.

(** C8 as stated fails: on a call stack with room for 4000 nested calls of
    [parseTokens], [parseQuery] throws a [RangeError] on the query made of
    4001 opening brackets. *)
Lemma parsing_overflows_call_stack :
  SearchQueryParser.parseQueryWithin 4000 (Spec.openBrackets 4001)
  = Some SearchQueryParser.RangeError.
Proof. apply deep_brackets_overflow. apply Nat.lt_succ_diag_r. Qed.

(** C8, amended. Parsing ends on every input, and it throws only when the
    call stack is too small for the brackets.  For every token list, start
    index and stack size, [parseTokens] ends: it throws a [RangeError] when
    the opening brackets ahead nest deeper than the stack has room for
    nested calls, and returns a group and an index within the tokens
    otherwise.  For every string, [parseQuery] returns a group unless the
    brackets of the query nest deeper than the stack allows; an open quote,
    unmatched closing brackets and stray operators never make it throw.
    Whatever the size of the stack, some query of opening brackets
    overflows it. *)
Theorem parsing_returns_within_call_stack :
  (forall (frames : nat) (toks : list string) (start : nat),
      exists (g : FilterGroup) (n : nat),
        SearchQueryParser.parseTokens toks start = Some (g, n)
        /\ n <= length toks
        /\ SearchQueryParser.parseTokensWithin frames toks start
           = Some (if Spec.bracketDepth 0 (skipn start toks) <=? frames
                   then SearchQueryParser.Returned (g, n)
                   else SearchQueryParser.RangeError))
  /\ (forall (frames : nat) (query : string),
        exists g : FilterGroup,
          SearchQueryParser.parseQuery query = Some g
          /\ SearchQueryParser.parseQueryWithin frames query
             = Some (if Spec.bracketDepth 0 (SearchQueryParser.tokenize query)
                        <=? frames
                     then SearchQueryParser.Returned g
                     else SearchQueryParser.RangeError))
  /\ (forall frames : nat,
        SearchQueryParser.parseQueryWithin frames
          (Spec.openBrackets (S frames))
        = Some SearchQueryParser.RangeError)
  /\ SearchQueryParser.parseQueryWithin 0 "a) ((b ~ -"
     = Some (SearchQueryParser.Returned
               (mkGroup [IFilter (mkFilter None "a" ":")] [] "AND"))
  /\ SearchQueryParser.parseQueryWithin 1 "((b ~ -"
     = Some SearchQueryParser.RangeError.
Proof.
  split; [|split; [|split; [|split; reflexivity]]].
  - intros frames toks start.
    unfold SearchQueryParser.parseTokens, SearchQueryParser.parseTokensFuel,
      SearchQueryParser.parseTokensWithin.
    destruct (parseLoopWithin_spec (SearchQueryParser.parseFuel toks start)
                frames toks start FilterGroupImpl.new0
                (mode FilterGroupImpl.new0))
      as [g [n [Hr Hw]]]; [unfold SearchQueryParser.parseFuel; lia|].
    exists g, n. split; [exact Hr|]. split; [|exact Hw].
    destruct (parseLoop_total (SearchQueryParser.parseFuel toks start) toks
                start FilterGroupImpl.new0 (mode FilterGroupImpl.new0))
      as [g' [n' [Hr' [Hn _]]]]; [unfold SearchQueryParser.parseFuel; lia|].
    rewrite Hr in Hr'. now injection Hr' as _ <-.
  - intros frames query. apply parseQueryWithin_spec.
  - intros frames. apply deep_brackets_overflow. lia.
Qed.

(** ** The parser: one mode per bracket level *)

Lemma tildeAtLevel_plain (t : string) (rest : list string) (d : nat) :
  String.eqb t "(" = false -> String.eqb t ")" = false ->
  String.eqb t "~" = false ->
  Spec.tildeAtLevel d (t :: rest) = Spec.tildeAtLevel d rest.
Proof. intros H1 H2 H3. simpl. now rewrite H1, H2, H3. Qed.

(** The mode of the group the loop returns, and where the loop stops: the
    returned index is the end of the bracket level the loop started in. *)
Lemma parseLoop_mode (fuel : nat) :
  forall (toks : list string) (i : nat) (g : FilterGroup) (m : string)
         (r : FilterGroup) (n : nat),
    SearchQueryParser.parseLoop fuel toks i g m = Some (r, n) ->
    mode r = (if Spec.tildeAtLevel 0 (skipn i toks) then "OR" else m)
    /\ forall d, Spec.tildeAtLevel (S d) (skipn i toks)
                 = Spec.tildeAtLevel d (skipn (S n) toks).
Proof.
  induction fuel as [|fuel IH]; intros toks i g m r n H; [discriminate|].
  cbn [SearchQueryParser.parseLoop] in H.
  destruct (nth_error toks i) as [token|] eqn:Hnth.
  - rewrite (nth_error_skipn_cons _ _ _ Hnth).
    destruct (String.eqb token "~") eqn:Ht.
    { apply String.eqb_eq in Ht. subst token.
      destruct (IH _ _ _ _ _ _ H) as [Hm Hd]. split.
      - rewrite Hm. simpl. now destruct (Spec.tildeAtLevel 0 _).
      - intros d. simpl. apply Hd. }
    destruct (String.eqb token "(") eqn:Ho.
    { apply String.eqb_eq in Ho. subst token.
      destruct (SearchQueryParser.parseLoop fuel toks (i + 1)
                  FilterGroupImpl.new0 "AND") as [[sub next]|] eqn:Hsub;
        [|discriminate].
      rewrite Nat.add_1_r in Hsub.
      destruct (IH _ _ _ _ _ _ Hsub) as [_ Hd1].
      destruct (IH _ _ _ _ _ _ H) as [Hm Hd2]. split.
      - rewrite Hm. simpl. now rewrite Hd1.
      - intros d. simpl. rewrite Hd1. apply Hd2. }
    destruct (String.eqb token ")") eqn:Hc.
    { apply String.eqb_eq in Hc. subst token.
      injection H as <- <-. split; reflexivity. }
    destruct (IH _ _ _ _ _ _ H) as [Hm Hd]. split.
    + rewrite Hm. now rewrite tildeAtLevel_plain.
    + intros d. rewrite tildeAtLevel_plain by assumption. apply Hd.
  - injection H as <- <-.
    rewrite (nth_error_skipn_nil _ _ Hnth). split; [reflexivity|].
    intros d. rewrite skipn_all2 by lia. reflexivity.
Qed.

(** C3. The group parsed for a bracket level has one mode for all its
    include items: OR when a tilde occurs among the tokens of that level
    (nested brackets apart), AND when none does. *)
Theorem parseTokens_single_mode :
  (forall (toks : list string) (start : nat),
      exists (g : FilterGroup) (n : nat),
        SearchQueryParser.parseTokens toks start = Some (g, n)
        /\ mode g = (if Spec.tildeAtLevel 0 (skipn start toks)
                     then "OR" else "AND"))
  /\ SearchQueryParser.parseQuery "a b~c"
     = Some (mkGroup [IFilter (mkFilter None "a" ":");
                      IFilter (mkFilter None "b" ":");
                      IFilter (mkFilter None "c" ":")] [] "OR")
  /\ SearchQueryParser.parseQuery "a (b~c) d"
     = Some (mkGroup [IFilter (mkFilter None "a" ":");
                      IGroup (mkGroup [IFilter (mkFilter None "b" ":");
                                       IFilter (mkFilter None "c" ":")] [] "OR");
                      IFilter (mkFilter None "d" ":")] [] "AND").
Proof.
  split; [|split; reflexivity].
  intros toks start.
  destruct (parseLoop_total (SearchQueryParser.parseFuel toks start) toks
              start FilterGroupImpl.new0 (mode FilterGroupImpl.new0))
    as [g [n [H _]]]; [unfold SearchQueryParser.parseFuel; lia|].
  exists g, n. split; [exact H|].
  apply (parseLoop_mode _ _ _ _ _ _ _ H).
Qed.

(** ** The leaf-filter parse *)

Lemma endsWith_cons (c : ascii) (s p : string) :
  s <> EmptyString -> String.length p = 1 ->
  Js.endsWith (String c s) p = Js.endsWith s p.
Proof.
  intros Hs Hp. cbn [Js.endsWith].
  destruct p as [|x [|y p]]; try discriminate.
  destruct s as [|d s]; [congruence|].
  cbn [String.eqb]. now destruct (Ascii.eqb c x).
Qed.

Lemma dropLast_cons (c : ascii) (s : string) :
  s <> EmptyString -> Js.dropLast (String c s) = String c (Js.dropLast s).
Proof. destruct s; [congruence | reflexivity]. Qed.

Lemma withoutClosingQuote_cons (c : ascii) (s : string) :
  s <> EmptyString \/ Ascii.eqb c Js.quote = false ->
  withoutClosingQuote (String c s) = String c (withoutClosingQuote s).
Proof.
  unfold withoutClosingQuote. destruct s as [|d s].
  - intros [H|H]; [congruence|]. cbn. rewrite H. reflexivity.
  - intros _. rewrite endsWith_cons by (reflexivity || discriminate).
    rewrite dropLast_cons by discriminate.
    now destruct (Js.endsWith (String d s) Js.quoteStr).
Qed.

Lemma lazyMore_spec (s : string) :
  forall acc : string,
    FilterImpl.lazyMore acc s
    = if Spec.hasLineTerminator s then None
      else Some (acc ++ withoutClosingQuote s)%string.
Proof.
  induction s as [|c s IH]; intros acc.
  - cbn. now rewrite append_nil_r.
  - cbn [FilterImpl.lazyMore FilterImpl.optQuoteEnd Spec.hasLineTerminator].
    unfold FilterImpl.quote.
    destruct (Ascii.eqb c Js.quote) eqn:Hq.
    + apply Ascii.eqb_eq in Hq. subst c.
      destruct s as [|d s].
      * cbn. now rewrite append_nil_r.
      * rewrite IH. cbn [Js.isLineTerminator orb].
        replace (Js.isLineTerminator Js.quote) with false by reflexivity.
        cbn [orb].
        destruct (Spec.hasLineTerminator (String d s)); [reflexivity|].
        rewrite (withoutClosingQuote_cons Js.quote (String d s))
          by (left; discriminate).
        unfold Js.push. rewrite append_assoc. reflexivity.
    + destruct (Js.isLineTerminator c); [reflexivity|]. cbn [orb].
      rewrite IH.
      destruct (Spec.hasLineTerminator s); [reflexivity|].
      rewrite withoutClosingQuote_cons by (now right).
      unfold Js.push. rewrite append_assoc. reflexivity.
Qed.

Lemma stripTrailingQuote_cons (c : ascii) (s : string) :
  Spec.stripTrailingQuote (String c s) = String c (withoutClosingQuote s).
Proof.
  unfold Spec.stripTrailingQuote, withoutClosingQuote.
  destruct s as [|d s].
  - cbn. now rewrite andb_false_r.
  - rewrite endsWith_cons by (reflexivity || discriminate).
    rewrite dropLast_cons by discriminate.
    cbn [String.length Nat.leb]. rewrite andb_true_r.
    now destruct (Js.endsWith (String d s) Js.quoteStr).
Qed.

Lemma lazyDots_spec (s : string) :
  FilterImpl.lazyDots s
  = if Js.truthy s && negb (Spec.hasLineTerminator s)
    then Some (Spec.stripTrailingQuote s) else None.
Proof.
  destruct s as [|c s]; [reflexivity|].
  cbn [FilterImpl.lazyDots Js.truthy Spec.hasLineTerminator andb].
  destruct (Js.isLineTerminator c); [reflexivity|]. cbn [orb].
  rewrite lazyMore_spec, stripTrailingQuote_cons.
  now destruct (Spec.hasLineTerminator s).
Qed.

Lemma afterOperator_spec (s : string) :
  FilterImpl.afterOperator s
  = if Js.truthy s && negb (Spec.hasLineTerminator s)
    then Some (Spec.stripTrailingQuote (Spec.stripLeadingQuote s)) else None.
Proof.
  destruct s as [|c s]; [reflexivity|].
  cbn [FilterImpl.afterOperator Spec.stripLeadingQuote].
  unfold FilterImpl.quote.
  destruct (Ascii.eqb c Js.quote) eqn:Hq; cbn [andb];
    [|apply lazyDots_spec].
  apply Ascii.eqb_eq in Hq. subst c.
  rewrite !lazyDots_spec.
  destruct s as [|d s]; [reflexivity|].
  cbn [Js.truthy andb Spec.hasLineTerminator].
  replace (Js.isLineTerminator Js.quote) with false by reflexivity.
  cbn [orb].
  now destruct (negb (Js.isLineTerminator d || Spec.hasLineTerminator s)).
Qed.

Lemma wordChar_not_operator (c : ascii) :
  Js.isWordChar c = true -> FilterImpl.isOperatorChar c = false.
Proof.
  unfold FilterImpl.isOperatorChar. intros Hw.
  destruct (Ascii.eqb c ":") eqn:H1;
    [apply Ascii.eqb_eq in H1; subst c; discriminate|].
  destruct (Ascii.eqb c "=") eqn:H2;
    [apply Ascii.eqb_eq in H2; subst c; discriminate|].
  reflexivity.
Qed.

Lemma wordPlus_spec (s : string) :
  forall name : string,
    FilterImpl.wordPlus name s
    = if Js.truthy (Spec.takeWord s) then
        match FilterImpl.operatorAndTerm (Spec.dropWord s) with
        | Some (op, t) => Some ((name ++ Spec.takeWord s)%string, op, t)
        | None => None
        end
      else None.
Proof.
  induction s as [|c s IH]; intros name; [reflexivity|].
  cbn [FilterImpl.wordPlus Spec.takeWord Spec.dropWord].
  destruct (Js.isWordChar c) eqn:Hc; [|reflexivity].
  cbn [Js.truthy]. rewrite IH.
  destruct (Js.truthy (Spec.takeWord s)) eqn:Hw.
  - destruct (FilterImpl.operatorAndTerm (Spec.dropWord s)) as [[op t]|].
    + unfold Js.push. rewrite append_assoc. reflexivity.
    + destruct s as [|d s]; [discriminate|].
      cbn [Spec.takeWord] in Hw.
      destruct (Js.isWordChar d) eqn:Hd; [|discriminate].
      cbn [FilterImpl.operatorAndTerm].
      now rewrite (wordChar_not_operator d Hd).
  - assert (Hdrop : Spec.dropWord s = s).
    { destruct s as [|d s]; [reflexivity|].
      cbn [Spec.takeWord] in Hw. cbn [Spec.dropWord].
      destruct (Js.isWordChar d); [discriminate | reflexivity]. }
    assert (Htake : Spec.takeWord s = EmptyString)
      by now apply truthy_false_iff.
    rewrite Hdrop, Htake.
    destruct (FilterImpl.operatorAndTerm s) as [[op t]|]; reflexivity.
Qed.

Lemma fieldMatch_spec (token : string) :
  FilterImpl.fieldMatch token
  = match Spec.splitField token with
    | Some (name, op, rest) =>
        Some (name, op, Spec.stripTrailingQuote (Spec.stripLeadingQuote rest))
    | None => None
    end.
Proof.
  unfold FilterImpl.fieldMatch, Spec.splitField. rewrite wordPlus_spec.
  cbn [append].
  destruct (Js.truthy (Spec.takeWord token)); cbn [andb].
  - destruct (Spec.dropWord token) as [|c rest]; [reflexivity|].
    cbn [FilterImpl.operatorAndTerm].
    destruct (FilterImpl.isOperatorChar c); [|reflexivity]. cbn [andb].
    rewrite afterOperator_spec.
    now destruct (Js.truthy rest && negb (Spec.hasLineTerminator rest)).
  - now destruct (Spec.dropWord token).
Qed.

Lemma parse_spec (token : string) : FilterImpl.parse token = Spec.parse token.
Proof.
  unfold FilterImpl.parse, Spec.parse. rewrite fieldMatch_spec.
  now destruct (Spec.splitField token) as [[[name op] rest]|].
Qed.

(** C5 as stated fails: a token with a field and a lone quote before the
    term loses that quote, where the specification keeps it. *)
Lemma parse_strips_lone_quote :
  ~ (forall token : string,
        FilterImpl.parse token = Spec.parseAsClaimed token).
Proof.
  intros H.
  specialize (H ("name:" ++ Js.quoteStr ++ "bob")%string).
  vm_compute in H. discriminate.
Qed.

(** C5, amended. The leaf-filter parse first tries the pattern: word
    characters, a colon or an equals sign, and a rest that is not empty and
    holds no line terminator.  On success the field is the name, the
    operator is the sign, and the term is the rest without a quote at its
    start and without a quote at its end, each stripped on its own as long
    as a character remains.  Otherwise a token that starts and ends with a
    quote loses its first and last character and gives a filter without
    field and with operator colon; any other token is the term as it is. *)
Theorem parse_strips_each_quote :
  forall token : string,
    FilterImpl.parse token = Spec.parse token
    /\ FilterImpl.parse ("name=" ++ Js.quoteStr ++ "bob jones" ++ Js.quoteStr)
       = mkFilter (Some "name") "bob jones" "="
    /\ FilterImpl.parse ("name:" ++ Js.quoteStr ++ "bob")
       = mkFilter (Some "name") "bob" ":"
    /\ FilterImpl.parse ("name:bob" ++ Js.quoteStr)
       = mkFilter (Some "name") "bob" ":"
    /\ FilterImpl.parse (Js.quoteStr ++ "a b" ++ Js.quoteStr)
       = mkFilter None "a b" ":"
    /\ FilterImpl.parse "name:" = mkFilter None "name:" ":".
Proof.
  intros token. split; [apply parse_spec|]. repeat split.
Qed.


(** ** Round trip: the loop of the parser, without fuel *)

Import RoundTrip.

Lemma skipn_view {A : Type} (l : list A) (i : nat) (x : A) (rest : list A) :
  skipn i l = x :: rest -> nth_error l i = Some x /\ skipn (S i) l = rest.
Proof.
  revert i. induction l as [|y l IH]; intros [|i]; simpl; try discriminate.
  - intros [= -> ->]. split; reflexivity.
  - intros H. destruct (IH i H) as [H1 H2]. split; [assumption|].
    destruct l; [destruct i; discriminate | exact H2].
Qed.

Lemma skipn_plus {A : Type} (l : list A) (i : nat) (pre post : list A) :
  skipn i l = (pre ++ post)%list -> skipn (i + length pre) l = post.
Proof.
  revert i. induction pre as [|x pre IH]; intros i H; simpl in *.
  - now rewrite Nat.add_0_r.
  - apply skipn_view in H. destruct H as [_ H].
    rewrite <- Nat.add_succ_comm. now apply IH.
Qed.

Lemma Returns_at (toks : list string) (i j : nat) (g : FilterGroup)
      (m : string) (r : FilterGroup) (n : nat) :
  Returns toks i g m r n -> i = j -> Returns toks j g m r n.
Proof. now intros H <-. Qed.

Lemma Returns_end (toks : list string) (i : nat) (g : FilterGroup) (m : string) :
  skipn i toks = [] ->
  Returns toks i g m (FilterGroupImpl.setMode g m) (length toks).
Proof.
  intros H. exists 1. cbn [SearchQueryParser.parseLoop].
  destruct (nth_error toks i) eqn:Hn; [|reflexivity].
  apply nth_error_skipn_cons in Hn. congruence.
Qed.

Lemma Returns_close (toks : list string) (i : nat) (g : FilterGroup)
      (m : string) (rest : list string) :
  skipn i toks = ")" :: rest ->
  Returns toks i g m (FilterGroupImpl.setMode g m) i.
Proof.
  intros H. apply skipn_view in H. destruct H as [H _].
  exists 1. cbn [SearchQueryParser.parseLoop]. now rewrite H.
Qed.

Lemma Returns_tilde (toks : list string) (i : nat) (g : FilterGroup)
      (m : string) (rest : list string) (r : FilterGroup) (n : nat) :
  skipn i toks = "~" :: rest ->
  Returns toks (S i) g "OR" r n ->
  Returns toks i g m r n.
Proof.
  intros H [fuel Hr]. apply skipn_view in H. destruct H as [H _].
  exists (S fuel). cbn [SearchQueryParser.parseLoop]. now rewrite H.
Qed.

Lemma Returns_open (toks : list string) (i : nat) (g : FilterGroup)
      (m : string) (rest : list string) (sub r : FilterGroup) (next n : nat) :
  skipn i toks = "(" :: rest ->
  Returns toks (S i) FilterGroupImpl.new0 "AND" sub next ->
  Returns toks (S next) (FilterGroupImpl.add g (IGroup sub) false) m r n ->
  Returns toks i g m r n.
Proof.
  intros H [fuel1 H1] [fuel2 H2]. apply skipn_view in H. destruct H as [H _].
  exists (S (fuel1 + fuel2)). cbn [SearchQueryParser.parseLoop].
  rewrite H. cbn. rewrite Nat.add_1_r.
  rewrite (parseLoop_fuel_mono _ _ _ _ _ _ (fuel1 + fuel2) H1) by lia.
  apply (parseLoop_fuel_mono _ _ _ _ _ _ (fuel1 + fuel2) H2). lia.
Qed.

Lemma Returns_leaf (toks : list string) (i : nat) (g : FilterGroup)
      (m : string) (t : string) (rest : list string) (r : FilterGroup) (n : nat) :
  skipn i toks = t :: rest ->
  String.eqb t "~" = false -> String.eqb t "(" = false ->
  String.eqb t ")" = false ->
  Returns toks (S i)
    (FilterGroupImpl.add g
       (IFilter (FilterImpl.parse
                   (if Js.startsWith t "-" then Js.slice1 t else t)))
       (Js.startsWith t "-")) m r n ->
  Returns toks i g m r n.
Proof.
  intros H Ht Ho Hc [fuel Hr]. apply skipn_view in H. destruct H as [H _].
  exists (S fuel). cbn [SearchQueryParser.parseLoop].
  rewrite H, Ht, Ho, Hc. exact Hr.
Qed.

Lemma Returns_parseTokens (toks : list string) (i : nat) (r : FilterGroup)
      (n : nat) :
  Returns toks i FilterGroupImpl.new0 "AND" r n ->
  SearchQueryParser.parseTokens toks i = Some (r, n).
Proof.
  intros [fuel H].
  unfold SearchQueryParser.parseTokens, SearchQueryParser.parseTokensFuel.
  destruct (parseLoop_total (SearchQueryParser.parseFuel toks i) toks i
              FilterGroupImpl.new0 (mode FilterGroupImpl.new0))
    as [g' [n' [H' _]]]; [unfold SearchQueryParser.parseFuel; lia|].
  rewrite H'.
  pose proof (parseLoop_fuel_mono _ _ _ _ _ _
                (fuel + SearchQueryParser.parseFuel toks i) H) as E1.
  pose proof (parseLoop_fuel_mono _ _ _ _ _ _
                (fuel + SearchQueryParser.parseFuel toks i) H') as E2.
  cbn [mode FilterGroupImpl.new0 FilterGroupImpl.new] in E2.
  rewrite E1 in E2 by lia. symmetry. apply E2. lia.
Qed.

(** ** Round trip: one token *)

Lemma equals_eq (a b : Filter) : FilterImpl.equals a b = true -> a = b.
Proof.
  destruct a as [fa ta oa], b as [fb tb ob]. unfold FilterImpl.equals. simpl.
  intros H. apply andb_true_iff in H. destruct H as [H Ho].
  apply andb_true_iff in H. destruct H as [Hf Ht].
  apply String.eqb_eq in Ho, Ht. subst.
  destruct fa as [x|], fb as [y|]; try discriminate; [|reflexivity].
  apply String.eqb_eq in Hf. now subst.
Qed.

Lemma list_ascii_app (a b : string) :
  list_ascii_of_string (a ++ b)
  = (list_ascii_of_string a ++ list_ascii_of_string b)%list.
Proof. induction a as [|c a IH]; simpl; [reflexivity | now rewrite IH]. Qed.

Lemma structural_not_quote (c : ascii) :
  SearchQueryParser.isStructural c = true -> Ascii.eqb c Js.quote = false.
Proof.
  unfold SearchQueryParser.isStructural. intros H.
  destruct (Ascii.eqb c Js.quote) eqn:Hq; [|reflexivity].
  apply Ascii.eqb_eq in Hq. subst c. discriminate.
Qed.

(** An unbroken run of characters only grows the buffer. *)
Lemma scan_unbroken (chars : list ascii) :
  forall (inQ : bool) (buf : string) (rest : list ascii),
    unbroken inQ chars = true ->
    Spec.scan inQ buf (chars ++ rest)
    = Spec.scan false (buf ++ string_of_list_ascii chars) rest.
Proof.
  induction chars as [|c chars IH]; intros inQ buf rest H.
  - cbn in *. rewrite append_nil_r. now destruct inQ.
  - cbn [unbroken] in H. cbn [app Spec.scan string_of_list_ascii].
    replace (buf ++ String c (string_of_list_ascii chars))%string
      with (Js.push buf c ++ string_of_list_ascii chars)%string
      by (unfold Js.push; now rewrite append_assoc).
    destruct (Ascii.eqb c Js.quote) eqn:Hq; [now apply IH|].
    destruct inQ; cbn [negb andb] in H; [now apply IH|].
    unfold SearchQueryParser.isStructural in H.
    destruct (Ascii.eqb c "(") ; [discriminate|].
    destruct (Ascii.eqb c ")") ; [discriminate|].
    destruct (Ascii.eqb c "~") ; [discriminate|].
    destruct (Ascii.eqb c " ") ; [discriminate|].
    cbn [orb]. now apply IH.
Qed.

(** A separator after a buffered token emits the token. *)
Lemma scan_flush_at_sep (w : string) (rest : list ascii) :
  Js.truthy w = true -> Js.trim w = w -> Sep rest ->
  Spec.scan false w rest = w :: Spec.scan false EmptyString rest.
Proof.
  intros Hw Ht Hsep.
  assert (Hf : Spec.flushed w = [w])
    by (unfold Spec.flushed; now rewrite Ht, Hw).
  destruct rest as [|c rest]; [exact Hf|].
  cbn [Sep] in Hsep. cbn [Spec.scan].
  rewrite (structural_not_quote c Hsep), Hf.
  replace (Spec.flushed EmptyString) with (@nil string) by reflexivity.
  unfold SearchQueryParser.isStructural in Hsep.
  destruct (Ascii.eqb c "(" || Ascii.eqb c ")" || Ascii.eqb c "~");
    [reflexivity|].
  cbn [orb] in Hsep. now rewrite Hsep.
Qed.

Lemma wholeToken_facts (w : string) :
  wholeToken w = true ->
  Js.truthy w = true /\ Js.trimStart w = w /\ Js.trimEnd w = w
  /\ unbroken false (list_ascii_of_string w) = true.
Proof.
  unfold wholeToken. intros H.
  apply andb_true_iff in H. destruct H as [H H4].
  apply andb_true_iff in H. destruct H as [H H3].
  apply andb_true_iff in H. destruct H as [H1 H2].
  apply String.eqb_eq in H2, H3. auto.
Qed.

Lemma wholeToken_tokenizes (w : string) :
  wholeToken w = true -> Tokenizes w [w].
Proof.
  intros H. destruct (wholeToken_facts w H) as [H1 [H2 [H3 H4]]].
  intros rest Hsep.
  rewrite (scan_unbroken _ false EmptyString rest H4).
  rewrite string_of_list_ascii_of_string. cbn [append].
  apply scan_flush_at_sep; try assumption.
  unfold Js.trim. now rewrite H2.
Qed.

Lemma wholeToken_minus (w : string) :
  wholeToken w = true -> wholeToken ("-" ++ w) = true.
Proof.
  intros H. destruct (wholeToken_facts w H) as [H1 [H2 [H3 H4]]].
  unfold wholeToken. cbn [append Js.truthy Js.trimStart Js.trimEnd].
  replace (Js.isWhiteSpace "-") with false by reflexivity.
  cbn [andb list_ascii_of_string unbroken].
  replace (Ascii.eqb "-" Js.quote) with false by reflexivity.
  replace (SearchQueryParser.isStructural "-") with false by reflexivity.
  cbn [negb andb]. rewrite H3, H4, !String.eqb_refl. reflexivity.
Qed.

Lemma wholeToken_not_special (w : string) :
  wholeToken w = true ->
  String.eqb w "~" = false /\ String.eqb w "(" = false
  /\ String.eqb w ")" = false.
Proof.
  intros H. repeat split.
  - destruct (String.eqb w "~") eqn:E; [|reflexivity].
    apply String.eqb_eq in E. subst w. discriminate.
  - destruct (String.eqb w "(") eqn:E; [|reflexivity].
    apply String.eqb_eq in E. subst w. discriminate.
  - destruct (String.eqb w ")") eqn:E; [|reflexivity].
    apply String.eqb_eq in E. subst w. discriminate.
Qed.

Lemma leafOk_facts (f : Filter) :
  leafOk f = true ->
  wholeToken (FilterImpl.toString f) = true
  /\ Js.startsWith (FilterImpl.toString f) "-" = false
  /\ FilterImpl.parse (FilterImpl.toString f) = f.
Proof.
  unfold leafOk. intros H.
  apply andb_true_iff in H. destruct H as [H H3].
  apply andb_true_iff in H. destruct H as [H1 H2].
  apply negb_true_iff in H2. apply equals_eq in H3. auto.
Qed.

(** ** Round trip: parsing the tokens of a tree *)

Lemma prefix_empty (s : string) : prefix EmptyString s = true.
Proof. destruct s; reflexivity. Qed.

Lemma startsWith_minus (w : string) : Js.startsWith ("-" ++ w) "-" = true.
Proof.
  unfold Js.startsWith. cbn [append prefix].
  destruct (ascii_dec "-" "-"); [apply prefix_empty | congruence].
Qed.

Lemma add_include (acc : FilterGroup) (x : Item) :
  FilterGroupImpl.add acc x false
  = mkGroup (include acc ++ [x]) (exclude acc) (mode acc).
Proof. reflexivity. Qed.

Lemma add_exclude (acc : FilterGroup) (x : Item) :
  FilterGroupImpl.add acc x true
  = mkGroup (include acc) (exclude acc ++ [x]) (mode acc).
Proof. reflexivity. Qed.

Lemma parse_leaf (f : Filter) : leafOk f = true -> ParsesAs (IFilter f).
Proof.
  intros Hok toks i acc m post r n Hs Hr.
  destruct (leafOk_facts f Hok) as [Hw [Hm Hp]].
  destruct (wholeToken_not_special _ Hw) as [H1 [H2 H3]].
  cbn [itemTokens app] in Hs.
  apply (Returns_leaf _ _ _ _ _ _ _ _ Hs H1 H2 H3).
  rewrite Hm, Hp, add_include.
  cbn [itemTokens length reparsed] in Hr.
  unfold absorb, modeAfter in Hr. cbn [include exclude mode] in Hr.
  rewrite app_nil_r, Nat.add_1_r in Hr.
  replace (String.eqb "AND" "OR") with false in Hr by reflexivity.
  exact Hr.
Qed.

Lemma parse_excludes (E : list Item) :
  forallb (fun x => FilterGroupImpl.isFilter x && roundTrippable x) E = true ->
  forall (toks : list string) (i : nat) (acc : FilterGroup) (m : string)
         (post : list string) (r : FilterGroup) (n : nat),
    skipn i toks = (flat_map excludeToken E ++ post)%list ->
    Returns toks (i + length (flat_map excludeToken E))
      (mkGroup (include acc) (exclude acc ++ E) (mode acc)) m r n ->
    Returns toks i acc m r n.
Proof.
  induction E as [|x E IH]; intros HE toks i acc m post r n Hs Hr.
  - cbn in Hr. rewrite Nat.add_0_r, app_nil_r in Hr. now destruct acc.
  - cbn [forallb] in HE. apply andb_true_iff in HE. destruct HE as [Hx HE].
    apply andb_true_iff in Hx. destruct Hx as [Hf Hx].
    destruct x as [f|g]; [|discriminate].
    cbn [roundTrippable] in Hx.
    destruct (leafOk_facts f Hx) as [Hw [_ Hp]].
    destruct (wholeToken_not_special _ (wholeToken_minus _ Hw)) as [H1 [H2 H3]].
    cbn [flat_map excludeToken app] in Hs.
    apply (Returns_leaf _ _ _ _ _ _ _ _ Hs H1 H2 H3).
    rewrite startsWith_minus. cbn [append Js.slice1].
    rewrite Hp, add_exclude.
    apply skipn_view in Hs. destruct Hs as [_ Hs].
    apply (IH HE _ _ _ _ _ _ _ Hs).
    cbn [include exclude mode flat_map excludeToken app length] in Hr |- *.
    rewrite <- app_assoc. cbn [app].
    now rewrite <- Nat.add_succ_comm in Hr.
Qed.

Lemma reparsed_group (g : FilterGroup) :
  reparsed (IGroup g)
  = let plain :=
      mkGroup (map normItem (include g)) (exclude g)
        (if negb (String.eqb (mode g) "AND") && (1 <? length (include g))
         then "OR" else "AND") in
    match include g with
    | [x] =>
        match x with
        | IGroup _ =>
            mkGroup (include (reparsed x)) (exclude (reparsed x) ++ exclude g)
              (mode (reparsed x))
        | IFilter _ => plain
        end
    | _ => plain
    end.
Proof.
  destruct g as [inc exc m]. cbn [include exclude mode].
  destruct inc as [|x [|y l]]; reflexivity.
Qed.

Lemma itemTokens_group (g : FilterGroup) :
  itemTokens (IGroup g)
  = (joinTokens (if String.eqb (mode g) "AND" then [] else ["~"])
       (map (fun x => if 1 <? length (include g)
                      then wrapTokens x else itemTokens x) (include g))
     ++ flat_map excludeToken (exclude g))%list.
Proof.
  cbn [itemTokens]. f_equal. f_equal. apply map_ext. intros x.
  destruct x; [|reflexivity].
  now destruct (1 <? length (include g)).
Qed.

Lemma reparsed_mode (x : Item) :
  mode (reparsed x) = "AND" \/ mode (reparsed x) = "OR".
Proof.
  induction x as [f|g IHinc _] using Item_nested_ind; [now left|].
  rewrite reparsed_group. cbv zeta.
  destruct (include g) as [|y [|z l]].
  - left. cbn. now rewrite andb_false_r.
  - destruct y as [f|h].
    + left. cbn. now rewrite andb_false_r.
    + cbn [mode]. now inversion IHinc.
  - cbn [mode].
    destruct (negb (String.eqb (mode g) "AND") && _); [now right | now left].
Qed.

Lemma absorb_new0 (x : Item) :
  FilterGroupImpl.setMode (absorb FilterGroupImpl.new0 (reparsed x))
    (modeAfter "AND" (reparsed x))
  = reparsed x.
Proof.
  unfold FilterGroupImpl.setMode, absorb, modeAfter.
  cbn [include exclude mode FilterGroupImpl.new0 FilterGroupImpl.new app].
  destruct (reparsed_mode x) as [H|H]; rewrite H; cbn;
    rewrite <- H; now destruct (reparsed x).
Qed.

(** An item as it stands among several: a leaf as its token, a group
    between brackets, parsed by the recursive call. *)
Lemma parse_wrapped (x : Item) :
  ParsesAs x ->
  forall (toks : list string) (i : nat) (acc : FilterGroup) (m : string)
         (post : list string) (r : FilterGroup) (n : nat),
    skipn i toks = (wrapTokens x ++ post)%list ->
    Returns toks (i + length (wrapTokens x))
      (mkGroup (include acc ++ [normItem x]) (exclude acc) (mode acc)) m r n ->
    Returns toks i acc m r n.
Proof.
  intros HP toks i acc m post r n Hs Hr.
  destruct x as [f|h].
  - apply (HP _ _ _ _ _ _ _ Hs).
    cbn [wrapTokens normItem] in Hr.
    unfold absorb, modeAfter. cbn [reparsed include exclude mode].
    rewrite app_nil_r.
    replace (String.eqb "AND" "OR") with false by reflexivity.
    exact Hr.
  - cbn [wrapTokens normItem] in Hs, Hr.
    change (("(" :: itemTokens (IGroup h) ++ [")"]) ++ post)%list
      with ("(" :: (itemTokens (IGroup h) ++ [")"]) ++ post)%list in Hs.
    rewrite <- app_assoc in Hs.
    apply (Returns_open _ _ _ _ _ (reparsed (IGroup h))
             _ (S i + length (itemTokens (IGroup h))) _ Hs).
    + apply skipn_view in Hs. destruct Hs as [_ Hs].
      apply (HP _ _ _ _ _ _ _ Hs).
      apply skipn_plus in Hs.
      rewrite <- (absorb_new0 (IGroup h)) at 3.
      apply (Returns_close _ _ _ _ _ Hs).
    + rewrite add_include.
      cbn [length] in Hr. rewrite length_app in Hr. cbn [length] in Hr.
      replace (S (S i + length (itemTokens (IGroup h))))
        with (i + S (length (itemTokens (IGroup h)) + 1)) by lia.
      exact Hr.
Qed.

(** The items after the first, each behind the separator of the group. *)
Lemma parse_sequence (items : list Item) (tilde : bool) :
  Forall ParsesAs items ->
  forall (toks : list string) (i : nat) (acc : FilterGroup) (m : string)
         (post : list string) (r : FilterGroup) (n : nat),
    let sep := if tilde then ["~"] else [] in
    let tokens := flat_map (fun x => sep ++ wrapTokens x)%list items in
    skipn i toks = (tokens ++ post)%list ->
    Returns toks (i + length tokens)
      (mkGroup (include acc ++ map normItem items) (exclude acc) (mode acc))
      (match items with [] => m | _ :: _ => if tilde then "OR" else m end)
      r n ->
    Returns toks i acc m r n.
Proof.
  intros HP. induction HP as [|x items Hx _ IH];
    intros toks i acc m post r n sep tokens Hs Hr.
  - subst tokens. cbn in Hr. rewrite Nat.add_0_r, app_nil_r in Hr.
    now destruct acc.
  - subst tokens. cbn [flat_map] in Hs, Hr.
    rewrite <- !app_assoc in Hs. rewrite !length_app in Hr.
    set (rest := flat_map (fun x => sep ++ wrapTokens x)%list items) in *.
    assert (Hstep :
              forall i' m',
                skipn i' toks = (wrapTokens x ++ rest ++ post)%list ->
                Returns toks (i' + (length (wrapTokens x) + length rest))
                  (mkGroup (include acc ++ map normItem (x :: items))
                     (exclude acc) (mode acc))
                  (if tilde then "OR" else m) r n ->
                (match items with
                 | [] => m'
                 | _ :: _ => if tilde then "OR" else m'
                 end = if tilde then "OR" else m) ->
                Returns toks i' acc m' r n).
    { intros i' m' Hs' Hr' Hm.
      apply (parse_wrapped x Hx _ _ _ _ _ _ _ Hs').
      apply skipn_plus in Hs'.
      apply (IH _ _ _ _ _ _ _ Hs'). fold rest sep.
      cbn [include exclude mode]. rewrite <- app_assoc. cbn [app].
      rewrite Hm, <- Nat.add_assoc. exact Hr'. }
    destruct tilde; subst sep; cbn [app length] in Hs, Hr.
    + apply (Returns_tilde _ _ _ _ _ _ _ Hs).
      apply skipn_view in Hs. destruct Hs as [_ Hs].
      apply (Hstep _ _ Hs).
      * replace (S i + (length (wrapTokens x) + length rest))
          with (i + (S (length (wrapTokens x)) + length rest)) by lia.
        exact Hr.
      * now destruct items.
    + apply (Hstep _ _ Hs Hr). now destruct items.
Qed.

Lemma joinTokens_cons_map {A : Type} (w : A -> list string)
      (sep : list string) (x : A) (rest : list A) :
  joinTokens sep (map w (x :: rest))
  = (w x ++ flat_map (fun y => sep ++ w y) rest)%list.
Proof.
  revert x. induction rest as [|y rest IH]; intros x.
  - cbn. now rewrite app_nil_r.
  - change (joinTokens sep (map w (x :: y :: rest)))
      with (w x ++ sep ++ joinTokens sep (map w (y :: rest)))%list.
    rewrite IH. cbn [flat_map]. now rewrite <- app_assoc.
Qed.

Lemma Forall_ParsesAs (items : list Item) :
  Forall (fun x => roundTrippable x = true -> ParsesAs x) items ->
  forallb roundTrippable items = true ->
  Forall ParsesAs items.
Proof.
  induction 1 as [|x items Hx _ IH]; intros H; [constructor|].
  cbn [forallb] in H. apply andb_true_iff in H. destruct H as [H1 H2].
  constructor; auto.
Qed.

Lemma absorb_plain (acc : FilterGroup) (inc exc : list Item) (m1 : string) :
  absorb acc (mkGroup inc exc m1)
  = mkGroup (include acc ++ inc) (exclude acc ++ exc) (mode acc).
Proof. reflexivity. Qed.

(** The tokens of a tree of the round trip are parsed to [reparsed]. *)
Lemma parses_tree (x : Item) : roundTrippable x = true -> ParsesAs x.
Proof.
  induction x as [f|g IHinc _] using Item_nested_ind; [apply parse_leaf|].
  intros Hrt. cbn [roundTrippable] in Hrt.
  apply andb_true_iff in Hrt. destruct Hrt as [Hinc Hexc].
  pose proof (Forall_ParsesAs _ IHinc Hinc) as HP. clear IHinc Hinc.
  intros toks i acc m post r n Hs Hr.
  rewrite itemTokens_group in Hs, Hr. rewrite reparsed_group in Hr.
  cbv zeta in Hr.
  destruct (include g) as [|x1 [|x2 l]].
  - (* no include item *)
    cbn [map joinTokens app length Nat.ltb Nat.leb] in Hs, Hr.
    rewrite andb_false_r, absorb_plain, app_nil_r in Hr.
    unfold modeAfter in Hr. cbn [mode] in Hr.
    replace (String.eqb "AND" "OR") with false in Hr by reflexivity.
    apply (parse_excludes _ Hexc _ _ _ _ _ _ _ Hs Hr).
  - (* one include item, written without brackets *)
    cbn [map joinTokens length Nat.ltb Nat.leb] in Hs, Hr.
    rewrite <- app_assoc in Hs. rewrite length_app, Nat.add_assoc in Hr.
    inversion HP as [|? ? HP1 _]; subst.
    apply (HP1 _ _ _ _ _ _ _ Hs).
    apply skipn_plus in Hs.
    apply (parse_excludes _ Hexc _ _ _ _ _ _ _ Hs).
    destruct x1 as [f|h].
    + rewrite andb_false_r, absorb_plain in Hr.
      unfold modeAfter in Hr |- *. cbn [mode map normItem] in Hr.
      cbn [reparsed include exclude mode absorb].
      replace (String.eqb "AND" "OR") with false in Hr |- * by reflexivity.
      rewrite app_nil_r. exact Hr.
    + rewrite absorb_plain in Hr.
      unfold modeAfter in Hr |- *. cbn [mode] in Hr.
      unfold absorb. cbn [include exclude mode].
      rewrite <- app_assoc. exact Hr.
  - (* several include items *)
    replace (1 <? length (x1 :: x2 :: l)) with true in Hs, Hr by reflexivity.
    rewrite andb_true_r in Hr.
    rewrite (joinTokens_cons_map wrapTokens) in Hs, Hr.
    rewrite <- !app_assoc in Hs. rewrite !length_app in Hr.
    inversion HP as [|? ? HP1 HP2]; subst.
    apply (parse_wrapped x1 HP1 _ _ _ _ _ _ _ Hs).
    apply skipn_plus in Hs.
    assert (Hseq :
              forall tilde : bool,
                (if String.eqb (mode g) "AND" then [] else ["~"])
                = (if tilde then ["~"] else []) ->
                (if tilde then "OR" else m)
                = modeAfter m
                    (mkGroup (map normItem (x1 :: x2 :: l)) (exclude g)
                       (if negb (String.eqb (mode g) "AND")
                        then "OR" else "AND")) ->
                Returns toks (i + length (wrapTokens x1))
                  (mkGroup (include acc ++ [normItem x1]) (exclude acc)
                     (mode acc)) m r n).
    { intros tilde Hsep Hm. rewrite Hsep in Hs, Hr.
      apply (parse_sequence (x2 :: l) tilde HP2 _ _ _ _ _ _ _ Hs).
      apply skipn_plus in Hs.
      apply (parse_excludes _ Hexc _ _ _ _ _ _ _ Hs).
      cbn [include exclude mode]. rewrite Hm, absorb_plain in *.
      rewrite <- app_assoc. cbn [app map] in Hr |- *.
      apply (Returns_at _ _ _ _ _ _ _ Hr). lia. }
    destruct (String.eqb (mode g) "AND").
    + apply (Hseq false); reflexivity.
    + apply (Hseq true); reflexivity.
Qed.

Lemma parseTokens_itemTokens (x : Item) :
  roundTrippable x = true ->
  SearchQueryParser.parseTokens (itemTokens x) 0
  = Some (reparsed x, length (itemTokens x)).
Proof.
  intros Hrt. apply Returns_parseTokens.
  apply (parses_tree x Hrt (itemTokens x) 0 FilterGroupImpl.new0 "AND" []).
  - cbn [skipn]. now rewrite app_nil_r.
  - cbn [Nat.add]. rewrite <- (absorb_new0 x) at 3.
    apply Returns_end. apply skipn_all.
Qed.

(** ** Round trip: the parsed tree matches the same entries *)

Lemma forallb_app_split {A : Type} (p : A -> bool) (l1 l2 : list A) :
  forallb p (l1 ++ l2) = forallb p l1 && forallb p l2.
Proof. apply forallb_app. Qed.

Lemma forallb_map_ext (e : Entry) (items : list Item) :
  Forall (fun x => FilterGroupImpl.matchItem e (normItem x)
                   = FilterGroupImpl.matchItem e x) items ->
  forallb (FilterGroupImpl.matchItem e) (map normItem items)
  = forallb (FilterGroupImpl.matchItem e) items
  /\ existsb (FilterGroupImpl.matchItem e) (map normItem items)
     = existsb (FilterGroupImpl.matchItem e) items.
Proof.
  induction 1 as [|x items Hx _ [IH1 IH2]]; [split; reflexivity|].
  cbn [map forallb existsb]. now rewrite Hx, IH1, IH2.
Qed.

Lemma reparsed_matches (e : Entry) (x : Item) :
  FilterGroupImpl.matchItem e (normItem x) = FilterGroupImpl.matchItem e x.
Proof.
  induction x as [f|g IHinc _] using Item_nested_ind; [reflexivity|].
  cbn [normItem]. rewrite !matchItem_group, reparsed_group. cbv zeta.
  unfold FilterGroupImpl.matchesEntry.
  destruct (include g) as [|x1 [|x2 l]] eqn:Hinc.
  - reflexivity.
  - inversion IHinc as [|? ? H1 _]; subst. destruct x1 as [f|h].
    + cbn [include exclude mode map normItem length forallb existsb Nat.eqb
              Nat.ltb Nat.leb].
      rewrite andb_false_r.
      replace (String.eqb "AND" "AND") with true by reflexivity.
      destruct (String.eqb (mode g) "AND"); [reflexivity|].
      now rewrite andb_true_r, orb_false_r.
    + cbn [normItem] in H1. rewrite !matchItem_group in H1.
      unfold FilterGroupImpl.matchesEntry in H1.
      cbn [include exclude mode].
      rewrite forallb_app_split, andb_assoc, H1.
      cbn [length Nat.eqb forallb existsb].
      rewrite matchItem_group. unfold FilterGroupImpl.matchesEntry.
      destruct (String.eqb (mode g) "AND");
        [now rewrite andb_true_r | now rewrite orb_false_r].
  - destruct (forallb_map_ext e _ IHinc) as [Hall Hsome].
    cbn [include exclude mode]. rewrite Hall, Hsome.
    cbn [length map Nat.eqb Nat.ltb Nat.leb]. rewrite andb_true_r.
    destruct (String.eqb (mode g) "AND"); reflexivity.
Qed.

Lemma reparsed_matchesEntry (g : FilterGroup) (e : Entry) :
  FilterGroupImpl.matchesEntry (reparsed (IGroup g)) e
  = FilterGroupImpl.matchesEntry g e.
Proof. apply (reparsed_matches e (IGroup g)). Qed.

(** ** Round trip: the tokens of the string of a tree *)

Lemma tokenizes_empty (ts : list string) :
  Tokenizes EmptyString ts -> ts = [].
Proof.
  intros H. specialize (H [] I). cbn in H.
  rewrite app_nil_r in H. now symmetry.
Qed.

Lemma tokenizes_nil : Tokenizes EmptyString [].
Proof. intros rest _. reflexivity. Qed.

Lemma tokenizes_space (a b : string) (ta tb : list string) :
  Tokenizes a ta -> Tokenizes b tb ->
  Tokenizes (a ++ " " ++ b) (ta ++ [] ++ tb).
Proof.
  intros Ha Hb rest Hsep.
  rewrite !list_ascii_app, <- !app_assoc.
  rewrite Ha by reflexivity. cbn [list_ascii_of_string app Spec.scan].
  replace (Ascii.eqb " " Js.quote) with false by reflexivity.
  cbn. now rewrite (Hb rest Hsep).
Qed.

Lemma tokenizes_tilde (a b : string) (ta tb : list string) :
  Tokenizes a ta -> Tokenizes b tb ->
  Tokenizes (a ++ "~" ++ b) (ta ++ ["~"] ++ tb).
Proof.
  intros Ha Hb rest Hsep.
  rewrite !list_ascii_app, <- !app_assoc.
  rewrite Ha by reflexivity. cbn [list_ascii_of_string app Spec.scan].
  replace (Ascii.eqb "~" Js.quote) with false by reflexivity.
  cbn. now rewrite (Hb rest Hsep).
Qed.

Lemma tokenizes_brackets (a : string) (ta : list string) :
  Tokenizes a ta -> Tokenizes ("(" ++ a ++ ")") ("(" :: ta ++ [")"]).
Proof.
  intros Ha rest Hsep.
  rewrite !list_ascii_app, <- !app_assoc.
  cbn [list_ascii_of_string app Spec.scan].
  replace (Ascii.eqb "(" Js.quote) with false by reflexivity.
  cbn. rewrite Ha by reflexivity. cbn [Spec.scan].
  replace (Ascii.eqb ")" Js.quote) with false by reflexivity.
  cbn. now rewrite <- app_assoc.
Qed.

Lemma tokenizes_join (sepS : string) (sepT : list string) :
  (forall a b ta tb, Tokenizes a ta -> Tokenizes b tb ->
                     Tokenizes (a ++ sepS ++ b) (ta ++ sepT ++ tb)) ->
  forall (strs : list string) (parts : list (list string)),
    Forall2 Tokenizes strs parts ->
    Tokenizes (Js.join sepS strs) (joinTokens sepT parts).
Proof.
  intros Hsep strs parts H. unfold Js.join.
  induction H as [|s p strs parts Hs Hrest IH]; [apply tokenizes_nil|].
  destruct Hrest as [|s' p' strs parts Hs' Hrest]; [exact Hs|].
  change (Tokenizes (s ++ sepS ++ String.concat sepS (s' :: strs))
            (p ++ sepT ++ joinTokens sepT (p' :: parts))).
  apply Hsep; assumption.
Qed.

Lemma Forall2_map_both {A B C : Type} (R : B -> C -> Prop)
      (f : A -> B) (h : A -> C) (l : list A) :
  Forall (fun x => R (f x) (h x)) l -> Forall2 R (map f l) (map h l).
Proof. induction 1; cbn; constructor; assumption. Qed.

Lemma joinTokens_no_sep (parts : list (list string)) :
  joinTokens [] parts = concat parts.
Proof.
  induction parts as [|p [|q parts] IH]; [reflexivity| |].
  - cbn. now rewrite app_nil_r.
  - change (joinTokens [] (p :: q :: parts))
      with (p ++ [] ++ joinTokens [] (q :: parts))%list.
    rewrite IH. reflexivity.
Qed.

Lemma tokenizes_two_parts (a b : string) (ta tb : list string) :
  Tokenizes a ta -> Tokenizes b tb ->
  Tokenizes (Js.join " " (filter Js.truthy [a; b])) (ta ++ tb).
Proof.
  intros Ha Hb.
  destruct a as [|c a], b as [|d b]; cbn [filter Js.truthy Js.join String.concat].
  - apply tokenizes_empty in Ha, Hb. subst. apply tokenizes_nil.
  - apply tokenizes_empty in Ha. subst. exact Hb.
  - apply tokenizes_empty in Hb. subst. now rewrite app_nil_r.
  - apply (tokenizes_space _ _ _ _ Ha Hb).
Qed.

Lemma itemToString_group (g : FilterGroup) :
  FilterGroupImpl.itemToString (IGroup g) = FilterGroupImpl.toString g.
Proof. reflexivity. Qed.

(** The string of a tree of the round trip is read as [itemTokens]. *)
Lemma tokenizes_tree (x : Item) :
  roundTrippable x = true ->
  Tokenizes (FilterGroupImpl.itemToString x) (itemTokens x).
Proof.
  induction x as [f|g IHinc _] using Item_nested_ind.
  - intros H. cbn [roundTrippable] in H.
    destruct (leafOk_facts f H) as [Hw _].
    now apply wholeToken_tokenizes.
  - intros Hrt. cbn [roundTrippable] in Hrt.
    apply andb_true_iff in Hrt. destruct Hrt as [Hinc Hexc].
    cbn [FilterGroupImpl.itemToString itemTokens].
    apply tokenizes_two_parts.
    + (* the include part *)
      assert (Hparts :
                Forall2 Tokenizes
                  (map (fun it =>
                          match it with
                          | IFilter _ => FilterGroupImpl.itemToString it
                          | IGroup _ =>
                              if 1 <? length (include g)
                              then "(" ++ FilterGroupImpl.itemToString it ++ ")"
                              else FilterGroupImpl.itemToString it
                          end) (include g))
                  (map (fun x =>
                          match x with
                          | IFilter _ => itemTokens x
                          | IGroup _ =>
                              if 1 <? length (include g)
                              then ("(" :: itemTokens x ++ [")"])%list
                              else itemTokens x
                          end) (include g))).
      { apply Forall2_map_both.
        rewrite forallb_forall in Hinc. rewrite Forall_forall in IHinc |- *.
        intros y Hy. specialize (IHinc y Hy (Hinc y Hy)).
        destruct y as [f|h]; [exact IHinc|].
        destruct (1 <? length (include g));
          [now apply tokenizes_brackets | exact IHinc]. }
      destruct (String.eqb (mode g) "AND").
      * apply (tokenizes_join " " [] tokenizes_space _ _ Hparts).
      * apply (tokenizes_join "~" ["~"] tokenizes_tilde _ _ Hparts).
    + (* the exclude part *)
      rewrite flat_map_concat_map, <- joinTokens_no_sep.
      apply (tokenizes_join " " [] tokenizes_space).
      apply Forall2_map_both.
      rewrite forallb_forall in Hexc. rewrite Forall_forall.
      intros y Hy. specialize (Hexc y Hy).
      apply andb_true_iff in Hexc. destruct Hexc as [Hf Hy'].
      destruct y as [f|h]; [|discriminate].
      cbn [roundTrippable] in Hy'.
      destruct (leafOk_facts f Hy') as [Hw _].
      cbn [excludeToken FilterGroupImpl.itemToString].
      apply wholeToken_tokenizes. now apply wholeToken_minus.
Qed.

Lemma tokenize_toString (g : FilterGroup) :
  roundTrippable (IGroup g) = true ->
  SearchQueryParser.tokenize (FilterGroupImpl.toString g)
  = itemTokens (IGroup g).
Proof.
  intros Hrt. rewrite tokenize_scan. unfold Spec.tokenize.
  pose proof (tokenizes_tree (IGroup g) Hrt [] I) as H.
  rewrite !app_nil_r in H. cbn [Spec.scan Spec.flushed] in H.
  rewrite itemToString_group in H. exact H.
Qed.

(** ** Round trip: filters made of words are in the class *)

Lemma wordChar_facts (c : ascii) :
  Js.isWordChar c = true ->
  plainChar c = true /\ Js.isLineTerminator c = false
  /\ Ascii.eqb c "-" = false /\ Ascii.eqb c " " = false
  /\ Ascii.eqb c Js.quote = false.
Proof.
  destruct c as [[] [] [] [] [] [] [] []]; vm_compute; intros H;
    first [discriminate H | repeat split].
Qed.

Lemma operatorChar_plain (c : ascii) :
  FilterImpl.isOperatorChar c = true ->
  plainChar c = true /\ Js.isWordChar c = false /\ Ascii.eqb c " " = false.
Proof.
  unfold FilterImpl.isOperatorChar. intros H.
  apply orb_true_iff in H. destruct H as [H|H];
    apply Ascii.eqb_eq in H; subst c; repeat split.
Qed.

Lemma plainChar_facts (c : ascii) :
  plainChar c = true ->
  Js.isWhiteSpace c = false /\ SearchQueryParser.isStructural c = false
  /\ Ascii.eqb c Js.quote = false.
Proof.
  unfold plainChar. intros H.
  apply andb_true_iff in H. destruct H as [H H3].
  apply andb_true_iff in H. destruct H as [H1 H2].
  now rewrite negb_true_iff in H1, H2, H3.
Qed.

Lemma allChars_cons (p : ascii -> bool) (c : ascii) (s : string) :
  allChars p (String c s) = p c && allChars p s.
Proof. reflexivity. Qed.

Lemma allChars_app (p : ascii -> bool) (a b : string) :
  allChars p (a ++ b) = allChars p a && allChars p b.
Proof.
  unfold allChars. now rewrite list_ascii_app, forallb_app.
Qed.

Lemma allChars_impl (p q : ascii -> bool) (s : string) :
  (forall c, p c = true -> q c = true) ->
  allChars p s = true -> allChars q s = true.
Proof.
  intros Hpq. induction s as [|c s IH]; [reflexivity|].
  rewrite !allChars_cons. intros H.
  apply andb_true_iff in H. destruct H as [H1 H2].
  now rewrite (Hpq c H1), IH.
Qed.

Lemma trimEnd_plain (s : string) :
  allChars plainChar s = true -> Js.trimEnd s = s.
Proof.
  induction s as [|c s IH]; [reflexivity|].
  rewrite allChars_cons. intros H.
  apply andb_true_iff in H. destruct H as [H1 H2].
  destruct (plainChar_facts c H1) as [Hws _].
  cbn [Js.trimEnd]. now rewrite Hws, IH.
Qed.

Lemma unbroken_plain (s : string) :
  allChars plainChar s = true ->
  unbroken false (list_ascii_of_string s) = true.
Proof.
  induction s as [|c s IH]; [reflexivity|].
  rewrite allChars_cons. intros H.
  apply andb_true_iff in H. destruct H as [H1 H2].
  destruct (plainChar_facts c H1) as [_ [Hst Hq]].
  cbn [list_ascii_of_string unbroken]. now rewrite Hq, Hst, IH.
Qed.

Lemma includes_space_plain (s : string) :
  allChars plainChar s = true -> Js.includes s " " = false.
Proof.
  induction s as [|c s IH]; [reflexivity|].
  rewrite allChars_cons. intros H.
  apply andb_true_iff in H. destruct H as [H1 H2].
  destruct (plainChar_facts c H1) as [_ [Hst _]].
  cbn [Js.includes prefix]. rewrite (IH H2), orb_false_r.
  destruct (ascii_dec " " c) as [<-|]; [discriminate Hst | reflexivity].
Qed.

Lemma wholeToken_plain (w : string) :
  Js.truthy w = true -> allChars plainChar w = true -> wholeToken w = true.
Proof.
  intros Hw Hp. unfold wholeToken.
  rewrite Hw, (trimEnd_plain w Hp), (unbroken_plain w Hp), String.eqb_refl.
  destruct w as [|c w]; [discriminate|].
  rewrite allChars_cons in Hp. apply andb_true_iff in Hp.
  destruct Hp as [Hc _]. destruct (plainChar_facts c Hc) as [Hws _].
  cbn [Js.trimStart]. now rewrite Hws, String.eqb_refl.
Qed.

Lemma toString_plain_term (f : Filter) :
  allChars plainChar (term f) = true ->
  FilterImpl.toString f
  = match field f with
    | Some k => ((k ++ operator f) ++ term f)%string
    | None => term f
    end.
Proof.
  intros Hp. unfold FilterImpl.toString, Js.trim.
  assert (Hs : Js.trimStart (term f) = term f).
  { destruct (term f) as [|c t]; [reflexivity|].
    rewrite allChars_cons in Hp. apply andb_true_iff in Hp.
    destruct Hp as [Hc _]. destruct (plainChar_facts c Hc) as [Hws _].
    cbn [Js.trimStart]. now rewrite Hws. }
  rewrite Hs, (trimEnd_plain _ Hp), (includes_space_plain _ Hp).
  destruct (field f); reflexivity.
Qed.

Lemma isWord_facts (s : string) :
  isWord s = true ->
  Js.truthy s = true /\ allChars Js.isWordChar s = true
  /\ allChars plainChar s = true.
Proof.
  unfold isWord. intros H. apply andb_true_iff in H. destruct H as [H1 H2].
  repeat split; try assumption.
  apply (allChars_impl Js.isWordChar); [|assumption].
  intros c Hc. now destruct (wordChar_facts c Hc).
Qed.

Lemma takeWord_word (s rest : string) :
  allChars Js.isWordChar s = true ->
  Spec.takeWord (s ++ rest) = (s ++ Spec.takeWord rest)%string
  /\ Spec.dropWord (s ++ rest) = Spec.dropWord rest.
Proof.
  induction s as [|c s IH]; [now split|].
  rewrite allChars_cons. intros H.
  apply andb_true_iff in H. destruct H as [H1 H2].
  destruct (IH H2) as [IH1 IH2].
  cbn [append Spec.takeWord Spec.dropWord]. rewrite H1, IH1, IH2. now split.
Qed.

Lemma word_no_line_terminator (s : string) :
  allChars Js.isWordChar s = true -> Spec.hasLineTerminator s = false.
Proof.
  induction s as [|c s IH]; [reflexivity|].
  rewrite allChars_cons. intros H.
  apply andb_true_iff in H. destruct H as [H1 H2].
  destruct (wordChar_facts c H1) as [_ [Hlt _]].
  cbn [Spec.hasLineTerminator]. now rewrite Hlt, IH.
Qed.

Lemma word_endsWith_quote (s : string) :
  allChars Js.isWordChar s = true -> Js.endsWith s Js.quoteStr = false.
Proof.
  induction s as [|c s IH]; [reflexivity|].
  rewrite allChars_cons. intros H.
  apply andb_true_iff in H. destruct H as [H1 H2].
  destruct (wordChar_facts c H1) as [_ [_ [_ [_ Hq]]]].
  cbn [Js.endsWith]. rewrite (IH H2), orb_false_r.
  unfold Js.quoteStr. cbn [String.eqb]. now rewrite Hq.
Qed.

Lemma word_first_char (s : string) (c0 : ascii) :
  isWord s = true -> Js.isWordChar c0 = false ->
  Js.startsWith s (String c0 EmptyString) = false.
Proof.
  intros H Hc0. destruct (isWord_facts s H) as [Ht [Hw _]].
  destruct s as [|c s]; [discriminate|].
  rewrite allChars_cons in Hw. apply andb_true_iff in Hw.
  destruct Hw as [Hc _].
  unfold Js.startsWith. cbn [prefix].
  destruct (ascii_dec c0 c) as [->|]; [congruence | reflexivity].
Qed.

(** A filter without field, with operator colon and a word as term, is in
    the class. *)
Lemma leafOk_word (t : string) :
  isWord t = true -> leafOk (mkFilter None t ":") = true.
Proof.
  intros H. destruct (isWord_facts t H) as [Ht [Hw Hp]].
  unfold leafOk. rewrite (toString_plain_term (mkFilter None t ":") Hp).
  cbn [field term].
  rewrite (wholeToken_plain t Ht Hp).
  rewrite (word_first_char t "-" H eq_refl).
  rewrite parse_spec. unfold Spec.parse, Spec.splitField.
  destruct (takeWord_word t EmptyString Hw) as [_ Hd].
  rewrite append_nil_r in Hd. rewrite Hd. cbn [Spec.dropWord].
  pose proof (word_first_char t Js.quote H eq_refl) as Hq.
  fold Js.quoteStr in Hq. rewrite Hq.
  unfold FilterImpl.equals. cbn. now rewrite String.eqb_refl.
Qed.

(** A filter whose field and term are words, with operator colon or equals
    sign, is in the class. *)
Lemma leafOk_field_word (k t op : string) :
  isWord k = true -> isWord t = true -> op = ":" \/ op = "=" ->
  leafOk (mkFilter (Some k) t op) = true.
Proof.
  intros Hk H Hop.
  destruct (isWord_facts t H) as [Ht [Hw Hp]].
  destruct (isWord_facts k Hk) as [Hkt [Hkw Hkp]].
  assert (Hopc : exists c, op = String c EmptyString
                           /\ FilterImpl.isOperatorChar c = true)
    by (destruct Hop as [->| ->]; eexists; split; reflexivity).
  destruct Hopc as [c [-> Hc]].
  destruct (operatorChar_plain c Hc) as [Hcp [Hcw _]].
  unfold leafOk.
  rewrite (toString_plain_term (mkFilter (Some k) t (String c EmptyString)) Hp).
  cbn [field term operator].
  assert (Hall : allChars plainChar ((k ++ String c EmptyString) ++ t) = true).
  { rewrite !allChars_app, Hkp, Hp. cbn. now rewrite Hcp. }
  assert (Hne : Js.truthy ((k ++ String c EmptyString) ++ t) = true)
    by (destruct k; [discriminate | reflexivity]).
  rewrite (wholeToken_plain _ Hne Hall).
  assert (Hminus : Js.startsWith ((k ++ String c EmptyString) ++ t) "-" = false).
  { destruct k as [|c0 k]; [discriminate|].
    rewrite allChars_cons in Hkw. apply andb_true_iff in Hkw.
    destruct Hkw as [Hc0 _]. destruct (wordChar_facts c0 Hc0) as [_ [_ [Hm _]]].
    unfold Js.startsWith. cbn [append prefix].
    destruct (ascii_dec "-" c0) as [<-|]; [discriminate Hm | reflexivity]. }
  rewrite Hminus. cbn [negb andb].
  rewrite parse_spec. unfold Spec.parse, Spec.splitField.
  rewrite append_assoc.
  destruct (takeWord_word k (String c EmptyString ++ t) Hkw) as [Htk Hdk].
  rewrite Htk, Hdk. cbn [append Spec.takeWord Spec.dropWord].
  rewrite Hcw, append_nil_r, Hkt, Hc, Ht, (word_no_line_terminator t Hw).
  cbn [andb negb].
  assert (Hlead : Spec.stripLeadingQuote t = t).
  { destruct t as [|c0 t]; [reflexivity|].
    rewrite allChars_cons in Hw. apply andb_true_iff in Hw.
    destruct Hw as [Hc0 _]. destruct (wordChar_facts c0 Hc0) as [_ [_ [_ [_ Hq]]]].
    cbn [Spec.stripLeadingQuote]. now rewrite Hq. }
  rewrite Hlead. unfold Spec.stripTrailingQuote.
  rewrite (word_endsWith_quote t Hw). cbn [andb].
  unfold FilterImpl.equals. cbn [field term operator].
  now rewrite !String.eqb_refl.
Qed.

Lemma wordFilter_leafOk (f : Filter) : wordFilter f = true -> leafOk f = true.
Proof.
  destruct f as [[k|] t op]; unfold wordFilter; cbn [field term operator];
    intros H; apply andb_true_iff in H; destruct H as [Ht H].
  - apply andb_true_iff in H. destruct H as [Hk Hop].
    apply leafOk_field_word; try assumption.
    apply orb_true_iff in Hop.
    destruct Hop as [Hop|Hop]; apply String.eqb_eq in Hop; auto.
  - apply String.eqb_eq in H. subst op. now apply leafOk_word.
Qed.

(** Trees made of words are trees of the round trip. *)
Lemma wordTree_roundTrippable (x : Item) :
  wordTree x = true -> roundTrippable x = true.
Proof.
  induction x as [f|g IHinc IHexc] using Item_nested_ind.
  - apply wordFilter_leafOk.
  - cbn [wordTree roundTrippable]. intros H.
    apply andb_true_iff in H. destruct H as [Hinc Hexc].
    apply andb_true_iff. split.
    + rewrite forallb_forall in Hinc |- *. rewrite Forall_forall in IHinc.
      intros y Hy. apply (IHinc y Hy). now apply Hinc.
    + rewrite forallb_forall in Hexc |- *. rewrite Forall_forall in IHexc.
      intros y Hy. specialize (Hexc y Hy).
      apply andb_true_iff in Hexc. destruct Hexc as [Hf Hw].
      now rewrite Hf, (IHexc y Hy Hw).
Qed.

(** ** Round trip: the theorem *)

Lemma roundtrip_fails_on_tilde_term :
  let g := FilterGroupImpl.add FilterGroupImpl.new0
             (IFilter (mkFilter None "a~b" ":")) false in
  let e := [("text", JStr "a")] in
  FilterGroupImpl.toString g = "a~b"
  /\ FilterGroupImpl.matchesEntry g e = false
  /\ SearchQueryParser.queryMatches (FilterGroupImpl.toString g) e = Some true.
Proof. repeat split. Qed.

Lemma roundtrip_fails_on_excluded_group :
  let h := FilterGroupImpl.add
             (FilterGroupImpl.add FilterGroupImpl.new0
                (IFilter (mkFilter None "a" ":")) false)
             (IFilter (mkFilter None "b" ":")) false in
  let g := FilterGroupImpl.add
             (FilterGroupImpl.add FilterGroupImpl.new0 (IGroup h) true)
             (IFilter (mkFilter None "c" ":")) true in
  let e := [("text", JStr "a")] in
  FilterGroupImpl.toString g = "-(a b) -c"
  /\ FilterGroupImpl.matchesEntry g e = true
  /\ SearchQueryParser.queryMatches (FilterGroupImpl.toString g) e = Some false.
Proof. repeat split. Qed.

(** The round trip does not hold for every tree built by [add]: the tree
    with the single filter of term [a~b] is serialised to [a~b] and parsed
    again as the disjunction of [a] and [b], which matches the entry with
    text [a] where the tree does not. *)
Lemma roundtrip_fails :
  ~ (forall g : FilterGroup, Spec.Built g ->
       forall e : Entry, Spec.roundTripAgrees g e).
Proof.
  intros H.
  specialize (H (FilterGroupImpl.add FilterGroupImpl.new0
                   (IFilter (mkFilter None "a~b" ":")) false)
                (Spec.Built_add_filter _ _ _ (Spec.Built_new "AND"))
                [("text", JStr "a")]).
  unfold Spec.roundTripAgrees in H. vm_compute in H. discriminate.
Qed.

(** C6. [toString] does not write back what the parser reads.  The query
    made of the phrase [a~b] between double quotes parses to the tree with
    the single filter of term [a~b], the tree that one [add] builds.
    [toString] writes that tree as [a~b]: it puts a term between quotes when
    the term holds a space, as it does for the term [a b], but not when the
    term holds a tilde or a bracket, which the tokenizer splits at just the
    same.  The string parses to the disjunction of [a] and [b], which
    matches the entry with text [a] where the tree does not: the round trip
    fails on a tree that the parser itself yields. *)
Theorem roundtrip_breaks_on_unquoted_term :
  let q := String Js.quote ("a~b" ++ Js.quoteStr) in
  let g := FilterGroupImpl.add FilterGroupImpl.new0
             (IFilter (mkFilter None "a~b" ":")) false in
  let e := [("text", JStr "a")] in
  Spec.Built g
  /\ SearchQueryParser.parseQuery q = Some g
  /\ FilterGroupImpl.toString g = "a~b"
  /\ SearchQueryParser.parseQuery (FilterGroupImpl.toString g)
     = Some (mkGroup [IFilter (mkFilter None "a" ":");
                      IFilter (mkFilter None "b" ":")] [] "OR")
  /\ FilterGroupImpl.matchesEntry g e = false
  /\ SearchQueryParser.queryMatches (FilterGroupImpl.toString g) e = Some true
  /\ ~ Spec.roundTripAgrees g e
  /\ FilterImpl.toString (mkFilter None "a b" ":")
     = String Js.quote ("a b" ++ Js.quoteStr)
  /\ SearchQueryParser.parseQuery
       (FilterImpl.toString (mkFilter None "a b" ":"))
     = Some (FilterGroupImpl.add FilterGroupImpl.new0
               (IFilter (mkFilter None "a b" ":")) false).
Proof.
  cbv zeta. split.
  { apply Spec.Built_add_filter. apply (Spec.Built_new "AND"). }
  repeat (split; [reflexivity|]).
  split; [|split; reflexivity].
  unfold Spec.roundTripAgrees. discriminate.
Qed.

(** Where the strings of the leaves are tokens, the round trip holds.  For
    every tree in which each leaf filter is written as one token that parses
    back to it and is not read as an exclusion, and in which the exclude
    lists hold leaf filters only, the string of the tree parses to a tree
    with the same [matchesEntry] result on every entry. *)
Lemma roundtrip_of_plain_trees :
  forall g : FilterGroup,
    roundTrippable (IGroup g) = true ->
    exists g' : FilterGroup,
      SearchQueryParser.parseQuery (FilterGroupImpl.toString g) = Some g'
      /\ forall e : Entry,
           FilterGroupImpl.matchesEntry g' e = FilterGroupImpl.matchesEntry g e
           /\ Spec.roundTripAgrees g e.
Proof.
  intros g Hrt. exists (reparsed (IGroup g)).
  assert (Hp : SearchQueryParser.parseQuery (FilterGroupImpl.toString g)
               = Some (reparsed (IGroup g))).
  { unfold SearchQueryParser.parseQuery.
    now rewrite (tokenize_toString g Hrt), (parseTokens_itemTokens _ Hrt). }
  split; [exact Hp|].
  intros e. split; [apply reparsed_matchesEntry|].
  unfold Spec.roundTripAgrees, SearchQueryParser.queryMatches.
  now rewrite Hp, reparsed_matchesEntry.
Qed.

Lemma roundtrip_of_plain_trees_witness :
  let sub :=
    FilterGroupImpl.add
      (FilterGroupImpl.add
         (FilterGroupImpl.add (FilterGroupImpl.new "OR")
            (IFilter (mkFilter None "b" ":")) false)
         (IFilter (mkFilter (Some "from") "me" "=")) false)
      (IFilter (mkFilter None "x" ":")) true in
  let g :=
    FilterGroupImpl.add
      (FilterGroupImpl.add
         (FilterGroupImpl.add FilterGroupImpl.new0
            (IFilter (mkFilter None "hello world" ":")) false)
         (IGroup sub) false)
      (IFilter (mkFilter (Some "to") "you" ":")) true in
  FilterGroupImpl.toString g
  = Js.quoteStr ++ "hello world" ++ Js.quoteStr ++ " (b~from=me -x) -to:you"
  /\ exists g' : FilterGroup,
       SearchQueryParser.parseQuery (FilterGroupImpl.toString g) = Some g'
       /\ forall e : Entry,
            FilterGroupImpl.matchesEntry g' e
            = FilterGroupImpl.matchesEntry g e
            /\ Spec.roundTripAgrees g e.
Proof.
  split; [reflexivity|].
  apply roundtrip_of_plain_trees. reflexivity.
Defined.

(** * Further properties of the code *)

Import Props.

(** ** Filter.equals *)

Lemma equals_refl (a : Filter) : FilterImpl.equals a a = true.
Proof.
  destruct a as [[k|] t op]; unfold FilterImpl.equals; cbn;
    now rewrite !String.eqb_refl.
Qed.

(** X1. [equals] decides the equality of filters: it answers true exactly
    when field, term and operator are the same. *)
Theorem equals_decides_equality :
  forall a b : Filter, FilterImpl.equals a b = true <-> a = b.
Proof.
  intros a b. split; [apply equals_eq|]. intros <-. apply equals_refl.
Qed.

(** ** Filter.parse: what a parsed filter looks like *)

Lemma takeWord_allWord (s : string) :
  allChars Js.isWordChar (Spec.takeWord s) = true.
Proof.
  induction s as [|c s IH]; [reflexivity|].
  cbn [Spec.takeWord]. destruct (Js.isWordChar c) eqn:Hc; [|reflexivity].
  rewrite allChars_cons. now rewrite Hc, IH.
Qed.

Lemma hasLineTerminator_dropLast (s : string) :
  Spec.hasLineTerminator s = false ->
  Spec.hasLineTerminator (Js.dropLast s) = false.
Proof.
  induction s as [|c s IH]; [reflexivity|].
  cbn [Spec.hasLineTerminator]. intros H.
  apply orb_false_iff in H. destruct H as [Hc Hs].
  destruct s as [|d s]; [reflexivity|].
  rewrite dropLast_cons by discriminate.
  cbn [Spec.hasLineTerminator]. now rewrite Hc, (IH Hs).
Qed.

Lemma stripped_term_facts (rest : string) :
  Js.truthy rest = true -> Spec.hasLineTerminator rest = false ->
  Js.truthy (Spec.stripTrailingQuote (Spec.stripLeadingQuote rest)) = true
  /\ Spec.hasLineTerminator
       (Spec.stripTrailingQuote (Spec.stripLeadingQuote rest)) = false.
Proof.
  intros Ht Hl.
  assert (H1 : Js.truthy (Spec.stripLeadingQuote rest) = true
               /\ Spec.hasLineTerminator (Spec.stripLeadingQuote rest) = false).
  { destruct rest as [|c r]; [discriminate|]. cbn [Spec.stripLeadingQuote].
    destruct (Ascii.eqb c Js.quote && Js.truthy r) eqn:E; [|now split].
    apply andb_true_iff in E. destruct E as [_ E]. split; [exact E|].
    cbn [Spec.hasLineTerminator] in Hl. now apply orb_false_iff in Hl. }
  destruct H1 as [Ht1 Hl1]. revert Ht1 Hl1.
  generalize (Spec.stripLeadingQuote rest). intros s Hs Hls.
  unfold Spec.stripTrailingQuote.
  destruct (Js.endsWith s Js.quoteStr && (2 <=? String.length s)) eqn:E;
    [|now split].
  apply andb_true_iff in E. destruct E as [_ E]. split.
  - destruct s as [|c [|d s]]; try discriminate. reflexivity.
  - now apply hasLineTerminator_dropLast.
Qed.

(** X2. Whatever the token, the parsed filter has the operator colon or
    equals sign; without field the operator is the colon; with a field, the
    field is a word (one or more letters, digits, underscores) and the term
    is neither empty nor holds a line terminator. *)
Theorem parse_result_shape :
  forall token : string,
    (operator (FilterImpl.parse token) = ":"
     \/ operator (FilterImpl.parse token) = "=")
    /\ (field (FilterImpl.parse token) = None ->
        operator (FilterImpl.parse token) = ":")
    /\ (forall k, field (FilterImpl.parse token) = Some k ->
          isWord k = true
          /\ term (FilterImpl.parse token) <> EmptyString
          /\ Spec.hasLineTerminator (term (FilterImpl.parse token)) = false).
Proof.
  intros token. rewrite parse_spec. unfold Spec.parse, Spec.splitField.
  destruct (Spec.dropWord token) as [|c rest].
  { destruct (Js.startsWith token Js.quoteStr && Js.endsWith token Js.quoteStr);
      cbn; repeat split; auto; discriminate. }
  destruct (Js.truthy (Spec.takeWord token) && FilterImpl.isOperatorChar c
            && Js.truthy rest && negb (Spec.hasLineTerminator rest)) eqn:E.
  - apply andb_true_iff in E. destruct E as [E H4].
    apply andb_true_iff in E. destruct E as [E H3].
    apply andb_true_iff in E. destruct E as [H1 H2].
    apply negb_true_iff in H4.
    destruct (stripped_term_facts rest H3 H4) as [Hne Hlt].
    cbn [field term operator]. split; [|split].
    + unfold FilterImpl.isOperatorChar in H2. apply orb_true_iff in H2.
      destruct H2 as [H2|H2]; apply Ascii.eqb_eq in H2; subst c; auto.
    + discriminate.
    + intros k [= <-]. split; [|split].
      * unfold isWord. now rewrite H1, takeWord_allWord.
      * now apply truthy_true_iff.
      * exact Hlt.
  - destruct (Js.startsWith token Js.quoteStr && Js.endsWith token Js.quoteStr);
      cbn; repeat split; auto; discriminate.
Qed.

(** ** Filter.toString and Filter.parse: one filter there and back *)

(** X3. A filter made of words (a word as term; no field and the operator
    colon, or a word as field and the operator colon or equals sign) is
    written without quotes, as the term or as field, operator and term, and
    parsing that string gives the filter back. *)
Theorem word_filter_roundtrip :
  forall f : Filter,
    wordFilter f = true ->
    FilterImpl.toString f
    = match field f with
      | Some k => ((k ++ operator f) ++ term f)%string
      | None => term f
      end
    /\ FilterImpl.parse (FilterImpl.toString f) = f.
Proof.
  intros f H. split.
  - apply toString_plain_term.
    unfold wordFilter in H. apply andb_true_iff in H. destruct H as [H _].
    now destruct (isWord_facts _ H) as [_ [_ Hp]].
  - now destruct (leafOk_facts f (wordFilter_leafOk f H)) as [_ [_ Hp]].
Qed.

Lemma word_filter_roundtrip_witness :
  FilterImpl.toString (mkFilter (Some "from_1") "Me" "=") = "from_1=Me"
  /\ FilterImpl.parse "from_1=Me" = mkFilter (Some "from_1") "Me" "=".
Proof.
  destruct (word_filter_roundtrip (mkFilter (Some "from_1") "Me" "=") eq_refl)
    as [H1 H2].
  split; [exact H1|]. rewrite H1 in H2. exact H2.
Defined.

Lemma endsWith_app_quote (s : string) :
  Js.endsWith (s ++ Js.quoteStr) Js.quoteStr = true.
Proof.
  induction s as [|c s IH]; [reflexivity|].
  cbn [append Js.endsWith]. rewrite IH. apply orb_true_r.
Qed.

Lemma dropLast_app_char (s : string) (c : ascii) :
  Js.dropLast (s ++ String c EmptyString) = s.
Proof.
  induction s as [|d s IH]; [reflexivity|].
  cbn [append]. rewrite dropLast_cons by (destruct s; discriminate).
  now rewrite IH.
Qed.

Lemma hasLineTerminator_app (a b : string) :
  Spec.hasLineTerminator (a ++ b)
  = Spec.hasLineTerminator a || Spec.hasLineTerminator b.
Proof.
  induction a as [|c a IH]; [reflexivity|].
  cbn [append Spec.hasLineTerminator]. now rewrite IH, orb_assoc.
Qed.

Lemma startsWith_quote_cons (s : string) :
  Js.startsWith (String Js.quote s) Js.quoteStr = true.
Proof.
  unfold Js.startsWith, Js.quoteStr. cbn [prefix].
  destruct (ascii_dec Js.quote Js.quote); [apply prefix_empty | congruence].
Qed.

Lemma includes_space_nonempty (s : string) :
  Js.includes (Js.trim s) " " = true -> Js.truthy s = true.
Proof. destruct s; [discriminate | reflexivity]. Qed.

Lemma quoted_strip (t : string) :
  Js.truthy t = true ->
  Spec.stripTrailingQuote
    (Spec.stripLeadingQuote (String Js.quote (t ++ Js.quoteStr))) = t.
Proof.
  intros Ht. cbn [Spec.stripLeadingQuote].
  replace (Ascii.eqb Js.quote Js.quote) with true by reflexivity.
  assert (Hne : Js.truthy (t ++ Js.quoteStr) = true)
    by (destruct t; reflexivity).
  rewrite Hne. cbn [andb]. unfold Spec.stripTrailingQuote.
  rewrite endsWith_app_quote.
  assert (Hlen : (2 <=? String.length (t ++ Js.quoteStr)) = true).
  { destruct t as [|c [|d t]]; [discriminate| |]; reflexivity. }
  rewrite Hlen. apply dropLast_app_char.
Qed.

Lemma toString_phrase (f : Filter) :
  Js.includes (Js.trim (term f)) " " = true ->
  FilterImpl.toString f
  = match field f with
    | Some k =>
        ((k ++ operator f) ++ String Js.quote (term f ++ Js.quoteStr))%string
    | None => String Js.quote (term f ++ Js.quoteStr)
    end.
Proof.
  intros H. unfold FilterImpl.toString. rewrite H.
  destruct (field f); reflexivity.
Qed.

(** X4. A filter whose trimmed term holds a space is written with the term
    between double quotes, and parsing that string gives the filter back:
    without field when the operator is the colon, with a field when the
    field is a word, the operator is the colon or the equals sign and the
    term holds no line terminator. *)
Theorem phrase_filter_roundtrip :
  forall f : Filter,
    phraseFilter f = true ->
    FilterImpl.toString f
    = match field f with
      | Some k =>
          ((k ++ operator f) ++ String Js.quote (term f ++ Js.quoteStr))%string
      | None => String Js.quote (term f ++ Js.quoteStr)
      end
    /\ FilterImpl.parse (FilterImpl.toString f) = f.
Proof.
  intros [fld t op]. unfold phraseFilter. cbn [field term operator].
  intros H. apply andb_true_iff in H. destruct H as [Hsp H].
  pose proof (toString_phrase (mkFilter fld t op) Hsp) as Hstr.
  cbn [field term operator] in Hstr.
  split; [exact Hstr|]. rewrite Hstr. clear Hstr.
  pose proof (includes_space_nonempty t Hsp) as Hne.
  rewrite parse_spec. unfold Spec.parse, Spec.splitField.
  destruct fld as [k|].
  - apply andb_true_iff in H. destruct H as [H Hlt].
    apply andb_true_iff in H. destruct H as [Hk Hop].
    apply negb_true_iff in Hlt.
    destruct (isWord_facts k Hk) as [Hkt [Hkw _]].
    assert (Hopc : exists c, op = String c EmptyString
                             /\ FilterImpl.isOperatorChar c = true).
    { apply orb_true_iff in Hop.
      destruct Hop as [Hop|Hop]; apply String.eqb_eq in Hop; subst op;
        eexists; split; reflexivity. }
    destruct Hopc as [c [-> Hc]].
    destruct (operatorChar_plain c Hc) as [_ [Hcw _]].
    rewrite append_assoc.
    destruct (takeWord_word k
                (String c EmptyString ++ String Js.quote (t ++ Js.quoteStr))
                Hkw) as [Htk Hdk].
    rewrite Htk, Hdk. cbn [append Spec.takeWord Spec.dropWord].
    rewrite Hcw, append_nil_r, Hkt, Hc. cbn [Js.truthy andb].
    cbn [Spec.hasLineTerminator].
    rewrite hasLineTerminator_app, Hlt.
    replace (Js.isLineTerminator Js.quote) with false by reflexivity.
    cbn [orb negb Spec.hasLineTerminator Js.quoteStr].
    replace (Js.isLineTerminator Js.quote) with false by reflexivity.
    cbn [orb negb]. fold Js.quoteStr.
    now rewrite (quoted_strip t Hne).
  - apply String.eqb_eq in H. subst op.
    cbn [Spec.dropWord Spec.takeWord].
    replace (Js.isWordChar Js.quote) with false by reflexivity.
    cbn [Js.truthy andb].
    rewrite startsWith_quote_cons.
    change (String Js.quote (t ++ Js.quoteStr))
      with (Js.quoteStr ++ (t ++ Js.quoteStr))%string at 1.
    rewrite <- append_assoc, endsWith_app_quote. cbn [andb].
    unfold Js.slice1m1. cbn [Js.slice1].
    unfold Js.quoteStr. now rewrite dropLast_app_char.
Qed.

Lemma phrase_filter_roundtrip_witness :
  FilterImpl.parse
    (FilterImpl.toString (mkFilter (Some "name") "bob (the) jones" "="))
  = mkFilter (Some "name") "bob (the) jones" "="
  /\ FilterImpl.parse (FilterImpl.toString (mkFilter None " a b" ":"))
     = mkFilter None " a b" ":".
Proof.
  split.
  - apply (phrase_filter_roundtrip
             (mkFilter (Some "name") "bob (the) jones" "=")). reflexivity.
  - apply (phrase_filter_roundtrip (mkFilter None " a b" ":")). reflexivity.
Defined.

(** ** Filter.matchField, Filter.getFields and Filter.matchEntry *)

Lemma truthy_of_lowered (h : string -> string) (s : string) :
  Js.toLowerCase (h s) = Js.toLowerCase s -> Js.truthy (h s) = Js.truthy s.
Proof.
  intros H. rewrite <- (toLowerCase_truthy (h s)), H.
  apply toLowerCase_truthy.
Qed.

Lemma stringsOf_mapValue (h : string -> string) (l : list JsValue) :
  stringsOf (map (fun x => match x with JStr s => JStr (h s) | _ => x end) l)
  = map h (stringsOf l).
Proof.
  induction l as [|v l IH]; [reflexivity|].
  destruct v; cbn [map stringsOf]; now rewrite IH.
Qed.

Lemma getProp_mapValues (h : string -> string) (entry : Entry) (key : string) :
  getProp (mapValues h entry) key
  = option_map (mapValue h) (getProp entry key).
Proof.
  induction entry as [|[k v] entry IH]; [reflexivity|].
  cbn [mapValues map getProp fst snd].
  destruct (String.eqb k key); [reflexivity | exact IH].
Qed.

Lemma map_lower_map (h : string -> string) (l : list string) :
  (forall s, Js.toLowerCase (h s) = Js.toLowerCase s) ->
  map Js.toLowerCase (map h l) = map Js.toLowerCase l.
Proof.
  intros Hh. rewrite map_map. apply map_ext. exact Hh.
Qed.

Lemma filter_truthy_map (h : string -> string) (l : list string) :
  (forall s, Js.toLowerCase (h s) = Js.toLowerCase s) ->
  filter Js.truthy (map h l) = map h (filter Js.truthy l).
Proof.
  intros Hh. induction l as [|s l IH]; [reflexivity|].
  cbn [map filter]. rewrite (truthy_of_lowered h s (Hh s)), IH.
  now destruct (Js.truthy s).
Qed.

Lemma allStrings_mapValues (h : string -> string) (entry : Entry) :
  allStrings (mapValues h entry) = map h (allStrings entry).
Proof.
  unfold allStrings, values, mapValues.
  induction entry as [|[k v] entry IH]; [reflexivity|].
  cbn [map flat_map fst snd]. rewrite map_app, IH. f_equal.
  destruct v as [s|l|]; cbn [mapValue]; try reflexivity.
  apply stringsOf_mapValue.
Qed.

Lemma getFields_all (f : Filter) (entry : Entry) :
  FilterImpl.getFields f entry
  = if FilterImpl.noField f
    then map Js.toLowerCase (filter Js.truthy (allStrings entry))
    else match field f with
         | Some k => Spec.candidatesOf (getProp entry (Js.toLowerCase k))
         | None => []
         end.
Proof.
  unfold FilterImpl.getFields, FilterImpl.noField, allStrings.
  destruct (field f) as [k|]; [|reflexivity].
  now destruct (Js.truthy k).
Qed.

Lemma getFields_mapValues (h : string -> string) (f : Filter) (entry : Entry) :
  (forall s, Js.toLowerCase (h s) = Js.toLowerCase s) ->
  FilterImpl.getFields f (mapValues h entry) = FilterImpl.getFields f entry.
Proof.
  intros Hh. rewrite !getFields_all.
  destruct (FilterImpl.noField f).
  - rewrite allStrings_mapValues, (filter_truthy_map h _ Hh).
    now apply map_lower_map.
  - destruct (field f) as [k|]; [|reflexivity].
    rewrite getProp_mapValues.
    destruct (getProp entry (Js.toLowerCase k)) as [[s|l|]|];
      cbn [option_map mapValue Spec.candidatesOf]; try reflexivity.
    + now rewrite Hh.
    + rewrite stringsOf_mapValue. now apply map_lower_map.
Qed.

Lemma existsb_pointwise {A : Type} (p q : A -> bool) (l : list A) :
  (forall x, p x = q x) -> existsb p l = existsb q l.
Proof.
  intros H. induction l as [|x l IH]; [reflexivity|].
  cbn [existsb]. now rewrite H, IH.
Qed.

(** X5. Matching ignores letter case: a filter gives the same answer when
    its term is replaced by a term equal to it up to letter case, and when
    the string values and string array elements of the entry are replaced
    by strings equal to them up to letter case. *)
Theorem matchEntry_ignores_case :
  forall (h : string -> string) (f : Filter) (t' : string) (entry : Entry),
    (forall s, Js.toLowerCase (h s) = Js.toLowerCase s) ->
    Js.toLowerCase t' = Js.toLowerCase (term f) ->
    FilterImpl.getFields (withTerm f t') (mapValues h entry)
    = FilterImpl.getFields f entry
    /\ FilterImpl.matchEntry (withTerm f t') (mapValues h entry)
       = FilterImpl.matchEntry f entry.
Proof.
  intros h f t' entry Hh Ht.
  assert (Hg : FilterImpl.getFields (withTerm f t') (mapValues h entry)
               = FilterImpl.getFields f entry).
  { rewrite (getFields_mapValues h _ entry Hh). reflexivity. }
  split; [exact Hg|].
  unfold FilterImpl.matchEntry. rewrite Hg.
  apply existsb_pointwise. intros v.
  unfold FilterImpl.matchField, withTerm. cbn [term operator].
  now rewrite Ht.
Qed.

Lemma matchEntry_ignores_case_witness :
  FilterImpl.matchEntry (mkFilter (Some "Name") "bob" "=")
    [("name", JStr "bob"); ("tags", JArr [JStr "x y"; JOther])]
  = FilterImpl.matchEntry (mkFilter (Some "Name") "BoB" "=")
      [("name", JStr "BOB"); ("tags", JArr [JStr "X y"; JOther])].
Proof.
  apply (matchEntry_ignores_case Js.toLowerCase
           (mkFilter (Some "Name") "BoB" "=") "bob"
           [("name", JStr "BOB"); ("tags", JArr [JStr "X y"; JOther])]).
  - apply toLowerCase_idempotent.
  - reflexivity.
Defined.

Lemma prefix_refl (s : string) : prefix s s = true.
Proof.
  induction s as [|c s IH]; [reflexivity|].
  cbn [prefix]. destruct (ascii_dec c c); [exact IH | congruence].
Qed.

Lemma includes_refl (s : string) : Js.includes s s = true.
Proof. destruct s; cbn [Js.includes]; now rewrite prefix_refl. Qed.

(** X6. What matches exactly matches under every operator: if the filter
    with operator [=] matches an entry, the filter with the same field and
    term and any other operator matches it too. *)
Theorem exact_match_implies_contains :
  forall (fld : option string) (t op : string) (entry : Entry),
    FilterImpl.matchEntry (mkFilter fld t "=") entry = true ->
    FilterImpl.matchEntry (mkFilter fld t op) entry = true.
Proof.
  intros fld t op entry H. unfold FilterImpl.matchEntry in *.
  apply existsb_exists in H. destruct H as [v [Hin Hv]].
  apply existsb_exists. exists v. split; [exact Hin|].
  unfold FilterImpl.matchField in *. cbn [term operator] in *.
  apply String.eqb_eq in Hv.
  destruct (String.eqb op "="); [now apply String.eqb_eq|].
  rewrite Hv. apply includes_refl.
Qed.

Lemma exact_match_implies_contains_witness :
  FilterImpl.matchEntry (mkFilter (Some "name") "Bob" ":")
    [("name", JStr "bob")] = true.
Proof.
  apply (exact_match_implies_contains (Some "name") "Bob" ":"
           [("name", JStr "bob")]).
  reflexivity.
Defined.

Lemma prefix_iff (t s : string) :
  prefix t s = true <-> exists b, s = (t ++ b)%string.
Proof.
  revert s. induction t as [|c t IH]; intros s.
  - rewrite prefix_empty. split; [intros _; now exists s | reflexivity].
  - destruct s as [|d s]; cbn [prefix].
    + split; [discriminate | intros [b Hb]; discriminate].
    + destruct (ascii_dec c d) as [<-|Hne].
      * rewrite IH. split; intros [b Hb]; exists b; cbn [append] in *;
          congruence.
      * split; [discriminate|]. intros [b Hb]. cbn [append] in Hb.
        congruence.
Qed.

Lemma includes_iff (s t : string) :
  Js.includes s t = true <-> exists a b, s = (a ++ t ++ b)%string.
Proof.
  induction s as [|c s IH]; cbn [Js.includes].
  - rewrite orb_false_r, prefix_iff. split.
    + intros [b Hb]. now exists EmptyString, b.
    + intros [a [b Hab]]. destruct a; [now exists b | discriminate].
  - rewrite orb_true_iff, prefix_iff, IH. split.
    + intros [[b Hb]|[a [b Hab]]].
      * now exists EmptyString, b.
      * exists (String c a), b. cbn [append]. now rewrite Hab.
    + intros [a [b Hab]]. destruct a as [|d a].
      * left. now exists b.
      * right. exists a, b. cbn [append] in Hab. congruence.
Qed.

(** X7. The operator test on one value: with operator [=] the lower-cased
    value must equal the lower-cased term; with any other operator the
    lower-cased term must occur in the lower-cased value, so an empty term
    is then found in every value. *)
Theorem matchField_meaning :
  forall (f : Filter) (value : string),
    (operator f = "=" ->
       (FilterImpl.matchField f value = true
        <-> Js.toLowerCase value = Js.toLowerCase (term f)))
    /\ (operator f <> "=" ->
          (FilterImpl.matchField f value = true
           <-> exists a b,
                 Js.toLowerCase value
                 = (a ++ Js.toLowerCase (term f) ++ b)%string)
          /\ (term f = EmptyString -> FilterImpl.matchField f value = true)).
Proof.
  intros f value. unfold FilterImpl.matchField. split.
  - intros ->. cbn. apply String.eqb_eq.
  - intros Hop. apply String.eqb_neq in Hop. rewrite Hop.
    split; [apply includes_iff|].
    intros ->. apply includes_iff.
    exists EmptyString, (Js.toLowerCase value). reflexivity.
Qed.

Lemma matchField_meaning_witness :
  FilterImpl.matchField (mkFilter None "LO W" ":") "Hello World" = true
  /\ FilterImpl.matchField (mkFilter None EmptyString ":") "x" = true.
Proof.
  split.
  - destruct (matchField_meaning (mkFilter None "LO W" ":") "Hello World")
      as [_ H].
    destruct H as [[_ H] _]; [discriminate|].
    apply H. exists "hel", "orld". reflexivity.
  - destruct (matchField_meaning (mkFilter None EmptyString ":") "x")
      as [_ H].
    destruct H as [_ H]; [discriminate|]. now apply H.
Defined.

Lemma matchField_lowered (f : Filter) (v : string) :
  FilterImpl.matchField f (Js.toLowerCase v) = FilterImpl.matchField f v.
Proof.
  unfold FilterImpl.matchField. now rewrite toLowerCase_idempotent.
Qed.

Lemma existsb_map_lowered (f : Filter) (l : list string) :
  existsb (FilterImpl.matchField f) (map Js.toLowerCase l)
  = existsb (FilterImpl.matchField f) l.
Proof.
  induction l as [|s l IH]; [reflexivity|].
  cbn [map existsb]. now rewrite matchField_lowered, IH.
Qed.

(** X8. A filter with a (non-empty) field looks at one property only, the
    one under its lower-cased field: a string there is tested, an array
    there matches when one of its string elements passes the test, and the
    filter does not match when the property is missing or holds anything
    else.  No filter matches the empty entry. *)
Theorem matchEntry_by_field :
  forall (f : Filter) (entry : Entry),
    FilterImpl.matchEntry f [] = false
    /\ (forall k, field f = Some k -> Js.truthy k = true ->
          FilterImpl.matchEntry f entry
          = match getProp entry (Js.toLowerCase k) with
            | Some (JStr s) => FilterImpl.matchField f s
            | Some (JArr l) =>
                existsb (FilterImpl.matchField f) (stringsOf l)
            | _ => false
            end).
Proof.
  intros f entry. split.
  - unfold FilterImpl.matchEntry. rewrite getFields_all.
    destruct (FilterImpl.noField f); [reflexivity|].
    now destruct (field f).
  - intros k Hf Hk. unfold FilterImpl.matchEntry.
    rewrite (getFields_field f entry k Hf Hk).
    destruct (getProp entry (Js.toLowerCase k)) as [[s|l|]|];
      try reflexivity.
    + cbn [existsb]. now rewrite matchField_lowered, orb_false_r.
    + apply existsb_map_lowered.
Qed.

Lemma matchEntry_by_field_witness :
  FilterImpl.matchEntry (mkFilter (Some "Tag") "red" "=")
    [("name", JStr "red"); ("tag", JArr [JOther; JStr "blue"; JStr "RED"])]
  = true
  /\ FilterImpl.matchEntry (mkFilter (Some "size") "red" ":")
       [("name", JStr "red"); ("tag", JOther)] = false.
Proof.
  split.
  - rewrite (proj2 (matchEntry_by_field (mkFilter (Some "Tag") "red" "=")
                      [("name", JStr "red");
                       ("tag", JArr [JOther; JStr "blue"; JStr "RED"])])
               "Tag" eq_refl eq_refl).
    reflexivity.
  - rewrite (proj2 (matchEntry_by_field (mkFilter (Some "size") "red" ":")
                      [("name", JStr "red"); ("tag", JOther)])
               "size" eq_refl eq_refl).
    reflexivity.
Defined.

(** X9. A filter without field matches an entry exactly when some
    non-empty string that is a property value, or a string element of an
    array value, passes the operator test, whatever the key. *)
Theorem matchEntry_without_field :
  forall (f : Filter) (entry : Entry),
    FilterImpl.noField f = true ->
    (FilterImpl.matchEntry f entry = true
     <-> exists s, s <> EmptyString
           /\ FilterImpl.matchField f s = true
           /\ exists k w, In (k, w) entry
                /\ (w = JStr s \/ exists l, w = JArr l /\ In (JStr s) l)).
Proof.
  intros f entry Hno. unfold FilterImpl.matchEntry.
  rewrite (getFields_noField f entry Hno), existsb_map_lowered.
  rewrite existsb_exists. split.
  - intros [s [Hin Hm]]. apply filter_In in Hin. destruct Hin as [Hin Ht].
    exists s. split; [now apply truthy_true_iff|]. split; [exact Hm|].
    now apply In_allStrings.
  - intros [s [Hne [Hm Hin]]]. exists s. split; [|exact Hm].
    apply filter_In. split; [now apply In_allStrings|].
    now apply truthy_true_iff.
Qed.

Lemma matchEntry_without_field_witness :
  FilterImpl.matchEntry (mkFilter None "x" ":")
    [("a", JStr "no"); ("b", JArr [JStr "y"; JStr "has X"])] = true.
Proof.
  apply (matchEntry_without_field (mkFilter None "x" ":")
           [("a", JStr "no"); ("b", JArr [JStr "y"; JStr "has X"])] eq_refl).
  exists "has X". split; [discriminate|]. split; [reflexivity|].
  exists "b", (JArr [JStr "y"; JStr "has X"]). split.
  - right. left. reflexivity.
  - right. exists [JStr "y"; JStr "has X"]. split; [reflexivity|].
    right. left. reflexivity.
Defined.

(** ** FilterGroup: adding items *)

Lemma matchesEntry_split (g : FilterGroup) (e : Entry) :
  FilterGroupImpl.matchesEntry g e
  = Spec.includeMatch g e && Spec.excludeMatch g e.
Proof.
  unfold FilterGroupImpl.matchesEntry, Spec.includeMatch, Spec.excludeMatch.
  rewrite forallb_negb_existsb. now destruct (include g).
Qed.

(** X10. Adding an item to the exclude list narrows the group by the
    negation of the item, with [add] and with [addWithMode] alike and
    whatever the modes: the new group matches an entry exactly when the old
    group matches it and the item does not. *)
Theorem add_exclude_narrows :
  forall (g : FilterGroup) (x : Item) (m : string) (e : Entry),
    FilterGroupImpl.matchesEntry (FilterGroupImpl.add g x true) e
    = FilterGroupImpl.matchesEntry g e && negb (FilterGroupImpl.matchItem e x)
    /\ FilterGroupImpl.matchesEntry (FilterGroupImpl.addWithMode g x m true) e
       = FilterGroupImpl.matchesEntry g e
         && negb (FilterGroupImpl.matchItem e x).
Proof.
  intros g x m e.
  assert (H : FilterGroupImpl.matchesEntry (FilterGroupImpl.add g x true) e
              = FilterGroupImpl.matchesEntry g e
                && negb (FilterGroupImpl.matchItem e x)).
  { rewrite !matchesEntry_split.
    unfold Spec.includeMatch, Spec.excludeMatch, FilterGroupImpl.add,
      FilterGroupImpl.setExclude.
    cbn [include exclude mode]. rewrite existsb_app. cbn [existsb].
    rewrite orb_false_r, negb_orb. now rewrite andb_assoc. }
  split; exact H.
Qed.

Lemma addWithMode_include (g : FilterGroup) (x : Item) (m : string) :
  FilterGroupImpl.addWithMode g x m false
  = if String.eqb (mode g) m
    then mkGroup (include g ++ [x]) (exclude g) (mode g)
    else mkGroup [IGroup (mkGroup (include g) [] (mode g)); x] (exclude g) m.
Proof.
  unfold FilterGroupImpl.addWithMode. cbn [negb andb].
  now destruct (String.eqb (mode g) m).
Qed.

Lemma includeMatch_promoted (g : FilterGroup) (e : Entry) :
  FilterGroupImpl.matchItem e (IGroup (mkGroup (include g) [] (mode g)))
  = Spec.includeMatch g e.
Proof.
  rewrite matchItem_group, matchesEntry_split.
  unfold Spec.includeMatch, Spec.excludeMatch. cbn [include exclude mode existsb].
  apply andb_true_r.
Qed.

(** X11. Adding an item with mode AND to the include list narrows the
    group by the item, whatever the group's mode was and whether or not
    its include list was empty: the new group matches an entry exactly
    when the old group and the item both match it. *)
Theorem addWithMode_and_narrows :
  forall (g : FilterGroup) (x : Item) (e : Entry),
    FilterGroupImpl.matchesEntry (FilterGroupImpl.addWithMode g x "AND" false) e
    = FilterGroupImpl.matchesEntry g e && FilterGroupImpl.matchItem e x.
Proof.
  intros g x e. rewrite addWithMode_include, (matchesEntry_split g).
  destruct (String.eqb (mode g) "AND") eqn:Hm.
  - rewrite matchesEntry_split.
    unfold Spec.includeMatch, Spec.excludeMatch.
    cbn [include exclude mode]. rewrite Hm, forallb_app. cbn [forallb].
    rewrite andb_true_r.
    destruct (include g) as [|y inc]; cbn [app forallb];
      destruct (FilterGroupImpl.matchItem e x),
        (negb (existsb (FilterGroupImpl.matchItem e) (exclude g)));
      rewrite ?andb_true_r, ?andb_false_r; reflexivity.
  - rewrite matchesEntry_split.
    unfold Spec.includeMatch at 1. unfold Spec.excludeMatch at 1.
    cbn [include exclude mode]. cbn [String.eqb Ascii.eqb Bool.eqb forallb].
    rewrite includeMatch_promoted, andb_true_r.
    unfold Spec.excludeMatch.
    destruct (Spec.includeMatch g e), (FilterGroupImpl.matchItem e x),
      (negb (existsb (FilterGroupImpl.matchItem e) (exclude g))); reflexivity.
Qed.

(** X12. Adding an item with a mode other than AND to the include list
    widens the include side by the item, provided the include list was not
    empty or the group had another mode: the new group matches an entry
    exactly when the old include side or the item matches it and no exclude
    item does.  Added to an empty include list of a group that already has
    the mode, the item is the whole include side. *)
Theorem addWithMode_or_widens :
  forall (g : FilterGroup) (x : Item) (m : string) (e : Entry),
    m <> "AND" ->
    (include g <> [] \/ mode g <> m ->
     FilterGroupImpl.matchesEntry (FilterGroupImpl.addWithMode g x m false) e
     = (Spec.includeMatch g e || FilterGroupImpl.matchItem e x)
       && Spec.excludeMatch g e)
    /\ (include g = [] -> mode g = m ->
        FilterGroupImpl.matchesEntry (FilterGroupImpl.addWithMode g x m false) e
        = FilterGroupImpl.matchItem e x && Spec.excludeMatch g e).
Proof.
  intros g x m e Hm. apply String.eqb_neq in Hm.
  rewrite addWithMode_include, matchesEntry_split.
  destruct (String.eqb (mode g) m) eqn:Hgm.
  - apply String.eqb_eq in Hgm.
    unfold Spec.includeMatch, Spec.excludeMatch. cbn [include exclude mode].
    rewrite Hgm, Hm. split.
    + intros [Hinc|Hne]; [|congruence].
      destruct (include g) as [|y inc]; [congruence|].
      cbn [app existsb]. rewrite existsb_app. cbn [existsb].
      now rewrite orb_false_r, orb_assoc.
    + intros Hinc _. rewrite Hinc. cbn [app existsb]. now rewrite orb_false_r.
  - apply String.eqb_neq in Hgm. split; [|congruence].
    intros _. unfold Spec.includeMatch at 1. unfold Spec.excludeMatch at 1.
    cbn [include exclude mode]. rewrite Hm. cbn [existsb].
    rewrite includeMatch_promoted, orb_false_r. reflexivity.
Qed.

Lemma addWithMode_or_widens_witness :
  FilterGroupImpl.matchesEntry
    (FilterGroupImpl.addWithMode
       (mkGroup [IFilter (mkFilter None "a" ":"); IFilter (mkFilter None "b" ":")]
          [IFilter (mkFilter None "z" ":")] "AND")
       (IFilter (mkFilter None "c" ":")) "OR" false)
    [("text", JStr "only c")]
  = true.
Proof.
  assert (Hm : "OR" <> "AND") by discriminate.
  rewrite (proj1 (addWithMode_or_widens
                    (mkGroup [IFilter (mkFilter None "a" ":");
                              IFilter (mkFilter None "b" ":")]
                       [IFilter (mkFilter None "z" ":")] "AND")
                    (IFilter (mkFilter None "c" ":")) "OR"
                    [("text", JStr "only c")] Hm)).
  - reflexivity.
  - left. discriminate.
Defined.

(** ** FilterGroup.hasFilter, with add and remove *)

(** ** FilterGroup.hasFilter, with add and remove *)

Lemma hasFilter_selected (g : FilterGroup) (f : Filter) (b n : bool) :
  FilterGroupImpl.hasFilter g f b n
  = existsb (FilterGroupImpl.hasFilterItem f b n) (selected g b).
Proof. reflexivity. Qed.

Lemma selected_add_same (g : FilterGroup) (x : Item) (b : bool) :
  selected (FilterGroupImpl.add g x b) b = (selected g b ++ [x])%list.
Proof. now destruct b. Qed.

Lemma selected_add_other (g : FilterGroup) (x : Item) (b : bool) :
  selected (FilterGroupImpl.add g x (negb b)) b = selected g b.
Proof. now destruct b. Qed.

Lemma selected_remove (g : FilterGroup) (f : Filter) (b : bool) :
  selected (FilterGroupImpl.remove g f b) b
  = filter (FilterGroupImpl.removeKeeps f) (selected g b).
Proof. now destruct b. Qed.

Lemma hasFilterItem_flat_iff (f : Filter) (b : bool) (x : Item) :
  FilterGroupImpl.hasFilterItem f b false x = true <-> x = IFilter f.
Proof.
  destruct x as [f'|h]; cbn [FilterGroupImpl.hasFilterItem].
  - split.
    + intros H. apply equals_eq in H. now subst.
    + intros [= ->]. apply equals_refl.
  - split; discriminate.
Qed.

(** X13. The flat search [hasFilter] answers true exactly when the filter
    is an item of the selected list.  A filter is found in the list it was
    added to, by the flat and by the nested search; adding to the other
    list changes nothing; and what the flat search finds the nested search
    finds too. *)
Theorem hasFilter_finds_members :
  forall (g : FilterGroup) (f : Filter) (isExclude nestedEntries : bool),
    (FilterGroupImpl.hasFilter g f isExclude false = true
     <-> In (IFilter f) (selected g isExclude))
    /\ FilterGroupImpl.hasFilter
         (FilterGroupImpl.add g (IFilter f) isExclude) f isExclude nestedEntries
       = true
    /\ (forall x : Item,
          FilterGroupImpl.hasFilter
            (FilterGroupImpl.add g x (negb isExclude)) f isExclude nestedEntries
          = FilterGroupImpl.hasFilter g f isExclude nestedEntries)
    /\ (FilterGroupImpl.hasFilter g f isExclude false = true ->
        FilterGroupImpl.hasFilter g f isExclude true = true).
Proof.
  intros g f b n. rewrite !hasFilter_selected. split; [|split; [|split]].
  - rewrite existsb_exists. split.
    + intros [x [Hin Hx]]. apply hasFilterItem_flat_iff in Hx. now subst.
    + intros Hin. exists (IFilter f). split; [exact Hin|].
      now apply hasFilterItem_flat_iff.
  - rewrite selected_add_same, existsb_app.
    cbn [existsb FilterGroupImpl.hasFilterItem].
    now rewrite equals_refl, orb_true_r.
  - intros x. now rewrite !hasFilter_selected, selected_add_other.
  - rewrite !existsb_exists. intros [x [Hin Hx]].
    apply hasFilterItem_flat_iff in Hx. subst x.
    exists (IFilter f). split; [exact Hin|].
    cbn [FilterGroupImpl.hasFilterItem]. apply equals_refl.
Qed.

Lemma filter_idempotent {A : Type} (p : A -> bool) (l : list A) :
  filter p (filter p l) = filter p l.
Proof.
  induction l as [|x l IH]; [reflexivity|].
  cbn [filter]. destruct (p x) eqn:E; [|exact IH].
  cbn [filter]. now rewrite E, IH.
Qed.

Lemma remove_as_filter (g : FilterGroup) (f : Filter) (b : bool) :
  FilterGroupImpl.remove g f b
  = if b
    then mkGroup (include g)
           (filter (FilterGroupImpl.removeKeeps f) (exclude g)) (mode g)
    else mkGroup (filter (FilterGroupImpl.removeKeeps f) (include g))
           (exclude g) (mode g).
Proof. now destruct b. Qed.

(** X14. After [remove] the flat search no longer finds the removed filter
    in that list, and finds every other filter as before; removing again
    changes nothing; and removing a filter just added to the list gives
    what removing it from the group before the addition gives. *)
Theorem remove_then_hasFilter :
  forall (g : FilterGroup) (f : Filter) (isExclude : bool),
    FilterGroupImpl.hasFilter (FilterGroupImpl.remove g f isExclude)
      f isExclude false = false
    /\ (forall f', f' <> f ->
          FilterGroupImpl.hasFilter (FilterGroupImpl.remove g f isExclude)
            f' isExclude false
          = FilterGroupImpl.hasFilter g f' isExclude false)
    /\ FilterGroupImpl.remove (FilterGroupImpl.remove g f isExclude)
         f isExclude
       = FilterGroupImpl.remove g f isExclude
    /\ FilterGroupImpl.remove
         (FilterGroupImpl.add g (IFilter f) isExclude) f isExclude
       = FilterGroupImpl.remove g f isExclude.
Proof.
  intros g f b. split; [|split; [|split]].
  - rewrite hasFilter_selected, selected_remove.
    destruct (existsb _ _) eqn:E; [|reflexivity].
    apply existsb_exists in E. destruct E as [x [Hin Hx]].
    apply hasFilterItem_flat_iff in Hx. subst x.
    apply filter_In in Hin. destruct Hin as [_ Hk].
    cbn [FilterGroupImpl.removeKeeps] in Hk.
    now rewrite equals_refl in Hk.
  - intros f' Hne. rewrite !hasFilter_selected, selected_remove.
    induction (selected g b) as [|x l IH]; [reflexivity|].
    cbn [filter existsb]. destruct x as [f0|h].
    + cbn [FilterGroupImpl.removeKeeps].
      destruct (FilterImpl.equals f0 f) eqn:E; cbn [negb existsb].
      * apply equals_eq in E. subst f0.
        cbn [FilterGroupImpl.hasFilterItem].
        destruct (FilterImpl.equals f f') eqn:E';
          [apply equals_eq in E'; congruence|].
        exact IH.
      * now rewrite IH.
    + cbn [FilterGroupImpl.removeKeeps FilterGroupImpl.hasFilterItem orb].
      exact IH.
  - rewrite !remove_as_filter. destruct b; cbn [include exclude mode];
      now rewrite filter_idempotent.
  - rewrite !remove_as_filter.
    destruct b;
      cbn [FilterGroupImpl.add FilterGroupImpl.setInclude
             FilterGroupImpl.setExclude include exclude mode];
      rewrite filter_app; cbn [filter FilterGroupImpl.removeKeeps];
      rewrite equals_refl; cbn [negb]; now rewrite app_nil_r.
Qed.

(** ** FilterGroup.matchesEntry: laws of evaluation *)

Lemma forallb_permutation {A : Type} (p : A -> bool) (l l' : list A) :
  Permutation l l' -> forallb p l = forallb p l'.
Proof.
  induction 1 as [|x l l' _ IH|x y l|l l1 l2 _ IH1 _ IH2]; cbn [forallb].
  - reflexivity.
  - now rewrite IH.
  - now destruct (p x), (p y).
  - now rewrite IH1.
Qed.

Lemma existsb_permutation {A : Type} (p : A -> bool) (l l' : list A) :
  Permutation l l' -> existsb p l = existsb p l'.
Proof.
  induction 1 as [|x l l' _ IH|x y l|l l1 l2 _ IH1 _ IH2]; cbn [existsb].
  - reflexivity.
  - now rewrite IH.
  - now destruct (p x), (p y).
  - now rewrite IH1.
Qed.

(** X15. The order of the items does not matter: a group whose include and
    exclude lists are rearranged matches the same entries. *)
Theorem matchesEntry_order_irrelevant :
  forall (g : FilterGroup) (inc' exc' : list Item) (e : Entry),
    Permutation (include g) inc' -> Permutation (exclude g) exc' ->
    FilterGroupImpl.matchesEntry (mkGroup inc' exc' (mode g)) e
    = FilterGroupImpl.matchesEntry g e.
Proof.
  intros g inc' exc' e Hinc Hexc. rewrite !matchesEntry_split.
  unfold Spec.includeMatch, Spec.excludeMatch. cbn [include exclude mode].
  rewrite <- (existsb_permutation _ _ _ Hexc). f_equal.
  rewrite <- (forallb_permutation _ _ _ Hinc),
    <- (existsb_permutation _ _ _ Hinc).
  destruct (include g) as [|x l], inc' as [|y l']; try reflexivity.
  - apply Permutation_nil in Hinc. discriminate.
  - apply Permutation_sym, Permutation_nil in Hinc. discriminate.
Qed.

Lemma matchesEntry_order_irrelevant_witness :
  FilterGroupImpl.matchesEntry
    (mkGroup [IFilter (mkFilter None "b" ":"); IFilter (mkFilter None "a" ":")]
       [] "AND") [("text", JStr "a b")]
  = FilterGroupImpl.matchesEntry
      (mkGroup [IFilter (mkFilter None "a" ":"); IFilter (mkFilter None "b" ":")]
         [] "AND") [("text", JStr "a b")].
Proof.
  apply (matchesEntry_order_irrelevant
           (mkGroup [IFilter (mkFilter None "a" ":");
                     IFilter (mkFilter None "b" ":")] [] "AND")).
  - apply perm_swap.
  - apply perm_nil.
Defined.

(** X16. A nested group of the same mode can be merged into its parent.
    Under mode AND the items of the nested group join the include list and
    its exclude items join the exclude list of the parent.  Under modes
    other than AND a nested group without exclude items and with at least
    one include item can be replaced by its include items. *)
Theorem nested_group_flattens :
  forall (l l' excIn exc : list Item) (m1 m2 : string) (e : Entry),
    FilterGroupImpl.matchesEntry
      (mkGroup (IGroup (mkGroup l excIn "AND") :: l') exc "AND") e
    = FilterGroupImpl.matchesEntry
        (mkGroup (l ++ l') (excIn ++ exc) "AND") e
    /\ (m1 <> "AND" -> m2 <> "AND" -> l <> [] ->
        FilterGroupImpl.matchesEntry
          (mkGroup (IGroup (mkGroup l [] m1) :: l') exc m2) e
        = FilterGroupImpl.matchesEntry (mkGroup (l ++ l') exc m2) e).
Proof.
  intros l l' excIn exc m1 m2 e. split.
  - rewrite !matchesEntry_split.
    unfold Spec.includeMatch, Spec.excludeMatch. cbn [include exclude mode].
    replace (String.eqb "AND" "AND") with true by reflexivity.
    cbn [forallb]. rewrite matchItem_group, matchesEntry_split.
    unfold Spec.includeMatch, Spec.excludeMatch. cbn [include exclude mode].
    replace (String.eqb "AND" "AND") with true by reflexivity.
    rewrite existsb_app, negb_orb.
    assert (Hl : match (l ++ l')%list with
                 | [] => true
                 | _ :: _ => forallb (FilterGroupImpl.matchItem e) (l ++ l')
                 end
                 = match l with
                   | [] => true
                   | _ :: _ => forallb (FilterGroupImpl.matchItem e) l
                   end && forallb (FilterGroupImpl.matchItem e) l').
    { rewrite forallb_app. destruct l as [|x l]; [|reflexivity].
      cbn [app forallb andb]. now destruct l'. }
    rewrite Hl.
    destruct (match l with
              | [] => true
              | _ :: _ => forallb (FilterGroupImpl.matchItem e) l
              end),
      (forallb (FilterGroupImpl.matchItem e) l'),
      (negb (existsb (FilterGroupImpl.matchItem e) excIn)),
      (negb (existsb (FilterGroupImpl.matchItem e) exc)); reflexivity.
  - intros H1 H2 Hl. apply String.eqb_neq in H1, H2.
    rewrite !matchesEntry_split.
    unfold Spec.includeMatch, Spec.excludeMatch. cbn [include exclude mode].
    rewrite H2. cbn [existsb]. rewrite matchItem_group, matchesEntry_split.
    unfold Spec.includeMatch, Spec.excludeMatch. cbn [include exclude mode].
    rewrite H1. cbn [existsb negb]. rewrite andb_true_r, existsb_app.
    destruct l as [|x l]; [congruence|]. reflexivity.
Qed.

Lemma nested_group_flattens_witness :
  FilterGroupImpl.matchesEntry
    (mkGroup [IGroup (mkGroup [IFilter (mkFilter None "a" ":")] [] "OR");
              IFilter (mkFilter None "b" ":")] [] "OR") [("text", JStr "b")]
  = FilterGroupImpl.matchesEntry
      (mkGroup [IFilter (mkFilter None "a" ":");
                IFilter (mkFilter None "b" ":")] [] "OR") [("text", JStr "b")].
Proof.
  apply (proj2 (nested_group_flattens
                  [IFilter (mkFilter None "a" ":")]
                  [IFilter (mkFilter None "b" ":")] [] [] "OR" "OR"
                  [("text", JStr "b")])); discriminate.
Defined.

(** ** SearchQueryParser.tokenize: quotes, separators, blank input *)

Lemma tokenize_whole (w : string) :
  wholeToken w = true -> SearchQueryParser.tokenize w = [w].
Proof.
  intros H. rewrite tokenize_scan. unfold Spec.tokenize.
  pose proof (wholeToken_tokenizes w H [] I) as Hs.
  rewrite app_nil_r in Hs. exact Hs.
Qed.

Lemma trimEnd_app_char (s : string) (c : ascii) :
  Js.isWhiteSpace c = false ->
  Js.trimEnd (s ++ String c EmptyString) = (s ++ String c EmptyString)%string.
Proof.
  intros Hc. induction s as [|d s IH].
  - cbn. now rewrite Hc.
  - cbn [append Js.trimEnd]. rewrite IH.
    assert (Ht : Js.truthy (s ++ String c EmptyString) = true)
      by (destruct s; reflexivity).
    rewrite Ht. cbn [negb]. now rewrite andb_false_r.
Qed.

Lemma noQuote_cons (c : ascii) (t : string) :
  noQuote (String c t) = negb (Ascii.eqb c Js.quote) && noQuote t.
Proof. reflexivity. Qed.

Lemma unbroken_inside_quotes (t : string) :
  noQuote t = true ->
  unbroken true (list_ascii_of_string (t ++ Js.quoteStr)) = true.
Proof.
  induction t as [|c t IH]; [reflexivity|].
  rewrite noQuote_cons. intros H.
  apply andb_true_iff in H. destruct H as [Hc Ht].
  apply negb_true_iff in Hc.
  cbn [append list_ascii_of_string unbroken]. rewrite Hc. cbn [negb andb].
  now apply IH.
Qed.

(** X17. A phrase between double quotes is one token: for every string
    without double quote, the tokenizer reads the string between two double
    quotes as the single token made of the quotes and the string, spaces,
    brackets and tildes included. *)
Theorem tokenize_quoted_phrase :
  forall t : string,
    noQuote t = true ->
    SearchQueryParser.tokenize (String Js.quote (t ++ Js.quoteStr))
    = [String Js.quote (t ++ Js.quoteStr)].
Proof.
  intros t Ht. apply tokenize_whole. unfold wholeToken.
  cbn [Js.truthy Js.trimStart].
  replace (Js.isWhiteSpace Js.quote) with false by reflexivity.
  rewrite String.eqb_refl.
  change (String Js.quote (t ++ Js.quoteStr))
    with (Js.quoteStr ++ (t ++ Js.quoteStr))%string at 1.
  rewrite <- append_assoc. unfold Js.quoteStr at 2.
  rewrite trimEnd_app_char by reflexivity.
  rewrite append_assoc. cbn [append Js.quoteStr].
  rewrite String.eqb_refl. cbn [andb list_ascii_of_string unbroken].
  replace (Ascii.eqb Js.quote Js.quote) with true by reflexivity.
  cbn [negb]. now apply unbroken_inside_quotes.
Qed.

Lemma tokenize_quoted_phrase_witness :
  SearchQueryParser.tokenize (String Js.quote ("a (b ~ c)" ++ Js.quoteStr))
  = [String Js.quote ("a (b ~ c)" ++ Js.quoteStr)].
Proof. apply tokenize_quoted_phrase. reflexivity. Defined.

Lemma scan_inside_quotes (chars : list ascii) :
  forall buf : string,
    forallb (fun c => negb (Ascii.eqb c Js.quote)) chars = true ->
    Spec.scan true buf chars
    = Spec.flushed (buf ++ string_of_list_ascii chars).
Proof.
  induction chars as [|c chars IH]; intros buf H.
  - cbn. now rewrite append_nil_r.
  - cbn [forallb] in H. apply andb_true_iff in H. destruct H as [Hc H].
    apply negb_true_iff in Hc.
    cbn [Spec.scan string_of_list_ascii]. rewrite Hc, (IH _ H).
    unfold Js.push. now rewrite append_assoc.
Qed.

(** X18. A double quote that is never closed swallows the rest of the
    input: when no further double quote follows, the quote and everything
    after it, brackets, tildes and spaces included, are one token, trimmed
    at its end. *)
Theorem tokenize_unclosed_quote :
  forall t : string,
    noQuote t = true ->
    SearchQueryParser.tokenize (String Js.quote t)
    = [String Js.quote (Js.trimEnd t)].
Proof.
  intros t Ht. rewrite tokenize_scan. unfold Spec.tokenize.
  cbn [list_ascii_of_string Spec.scan].
  replace (Ascii.eqb Js.quote Js.quote) with true by reflexivity.
  cbn [negb]. rewrite (scan_inside_quotes _ _ Ht).
  rewrite string_of_list_ascii_of_string.
  unfold Js.push, Spec.flushed, Js.trim. cbn [append Js.trimStart Js.trimEnd].
  replace (Js.isWhiteSpace Js.quote) with false by reflexivity.
  reflexivity.
Qed.

Lemma tokenize_unclosed_quote_witness :
  SearchQueryParser.tokenize (String Js.quote "a (b~c) d  ")
  = [String Js.quote "a (b~c) d"].
Proof. apply (tokenize_unclosed_quote "a (b~c) d  "). reflexivity. Defined.

Lemma scan_at_separator (chars : list ascii) :
  forall (inQ : bool) (buf : string) (c : ascii) (rest : list ascii),
    quoteState inQ chars = false ->
    SearchQueryParser.isStructural c = true ->
    Spec.scan inQ buf (chars ++ c :: rest)
    = (Spec.scan inQ buf chars
       ++ (if Ascii.eqb c " " then [] else [String c EmptyString])
       ++ Spec.scan false EmptyString rest)%list.
Proof.
  induction chars as [|d chars IH]; intros inQ buf c rest Hq Hc.
  - cbn [quoteState] in Hq. subst inQ. cbn [app Spec.scan].
    rewrite (structural_not_quote c Hc).
    unfold SearchQueryParser.isStructural in Hc.
    destruct (Ascii.eqb c "(" || Ascii.eqb c ")" || Ascii.eqb c "~") eqn:E.
    + destruct (Ascii.eqb c " ") eqn:Es; [|reflexivity].
      apply Ascii.eqb_eq in Es. subst c. discriminate.
    + cbn [orb] in Hc. now rewrite Hc.
  - cbn [quoteState] in Hq. cbn [app Spec.scan].
    destruct (Ascii.eqb d Js.quote) eqn:Ed; [now apply IH|].
    destruct inQ; [now apply IH|].
    destruct (Ascii.eqb d "(" || Ascii.eqb d ")" || Ascii.eqb d "~").
    { rewrite (IH false EmptyString c rest Hq Hc).
      now rewrite <- !app_assoc. }
    destruct (Ascii.eqb d " ").
    { rewrite (IH false EmptyString c rest Hq Hc).
      now rewrite <- !app_assoc. }
    now apply IH.
Qed.

(** X19. Tokenizing distributes over separators: when the text before a
    space, a tilde or a bracket has an even number of double quotes, the
    tokens of the whole are the tokens of that text, then the separator as
    a token of its own unless it is a space, then the tokens of the text
    after it. *)
Theorem tokenize_splits_at_separator :
  forall (a b : string) (c : ascii),
    balanced a = true ->
    SearchQueryParser.isStructural c = true ->
    SearchQueryParser.tokenize (a ++ String c b)
    = (SearchQueryParser.tokenize a
       ++ (if Ascii.eqb c " " then [] else [String c EmptyString])
       ++ SearchQueryParser.tokenize b)%list.
Proof.
  intros a b c Ha Hc. rewrite !tokenize_scan. unfold Spec.tokenize.
  rewrite list_ascii_app. cbn [list_ascii_of_string].
  apply scan_at_separator; [|exact Hc].
  unfold balanced in Ha. now apply negb_true_iff in Ha.
Qed.

Lemma tokenize_splits_at_separator_witness :
  SearchQueryParser.tokenize ("say (hi" ++ String "~" "you) all")
  = (SearchQueryParser.tokenize "say (hi" ++ ["~"]
     ++ SearchQueryParser.tokenize "you) all")%list.
Proof.
  apply (tokenize_splits_at_separator "say (hi" "you) all" "~");
    reflexivity.
Defined.

Lemma whiteSpace_facts (c : ascii) :
  Js.isWhiteSpace c = true ->
  Ascii.eqb c Js.quote = false
  /\ (Ascii.eqb c "(" || Ascii.eqb c ")" || Ascii.eqb c "~") = false.
Proof.
  destruct c as [[] [] [] [] [] [] [] []]; vm_compute; intros H;
    first [discriminate H | split; reflexivity].
Qed.

Lemma trimEnd_empty_iff (s : string) :
  Js.truthy (Js.trimEnd s) = false <-> allChars Js.isWhiteSpace s = true.
Proof.
  induction s as [|c s IH]; [split; reflexivity|].
  cbn [Js.trimEnd]. rewrite allChars_cons.
  destruct (Js.isWhiteSpace c); cbn [andb].
  - destruct (Js.truthy (Js.trimEnd s)) eqn:E; cbn [negb].
    + split; [discriminate|]. intros H. apply IH in H. discriminate.
    + split; [intros _; now apply IH | reflexivity].
  - split; discriminate.
Qed.

Lemma allChars_trimStart (s : string) :
  allChars Js.isWhiteSpace (Js.trimStart s) = allChars Js.isWhiteSpace s.
Proof.
  induction s as [|c s IH]; [reflexivity|].
  cbn [Js.trimStart]. destruct (Js.isWhiteSpace c) eqn:E; [|reflexivity].
  now rewrite allChars_cons, E, IH.
Qed.

Lemma flushed_nil_iff (buf : string) :
  Spec.flushed buf = [] <-> allChars Js.isWhiteSpace buf = true.
Proof.
  unfold Spec.flushed, Js.trim.
  rewrite <- allChars_trimStart, <- trimEnd_empty_iff.
  destruct (Js.truthy (Js.trimEnd (Js.trimStart buf)));
    split; (reflexivity || discriminate).
Qed.

Lemma allChars_push (p : ascii -> bool) (buf : string) (c : ascii) :
  allChars p (Js.push buf c) = allChars p buf && p c.
Proof.
  unfold Js.push. rewrite allChars_app, allChars_cons.
  cbn. now rewrite andb_true_r.
Qed.

Lemma scan_nil_iff (chars : list ascii) :
  forall (inQ : bool) (buf : string),
    Spec.scan inQ buf chars = []
    <-> allChars Js.isWhiteSpace buf = true
        /\ forallb Js.isWhiteSpace chars = true.
Proof.
  induction chars as [|c chars IH]; intros inQ buf.
  - cbn [Spec.scan forallb]. rewrite flushed_nil_iff. tauto.
  - cbn [Spec.scan forallb].
    destruct (Js.isWhiteSpace c) eqn:Hws.
    + destruct (whiteSpace_facts c Hws) as [Hq Hst]. rewrite Hq.
      assert (Hpush : forall q,
                 Spec.scan q (Js.push buf c) chars = []
                 <-> allChars Js.isWhiteSpace buf = true
                     /\ true && forallb Js.isWhiteSpace chars = true).
      { intros q. rewrite IH, allChars_push, Hws, andb_true_r. tauto. }
      destruct inQ; [apply Hpush|]. rewrite Hst.
      destruct (Ascii.eqb c " "); [|apply Hpush].
      split.
      * intros H. apply app_eq_nil in H. destruct H as [H1 H2].
        apply flushed_nil_iff in H1. apply IH in H2. tauto.
      * intros [H1 H2]. apply flushed_nil_iff in H1. rewrite H1.
        apply IH. split; [reflexivity | exact H2].
    + cbn [andb]. split; [|intros [_ H]; discriminate].
      intros H. exfalso.
      assert (Hpush : forall q, Spec.scan q (Js.push buf c) chars <> []).
      { intros q Hq. apply IH in Hq. destruct Hq as [Hq _].
        rewrite allChars_push, Hws, andb_false_r in Hq. discriminate. }
      destruct (Ascii.eqb c Js.quote); [now apply (Hpush (negb inQ))|].
      destruct inQ; [now apply (Hpush true)|].
      destruct (Ascii.eqb c "(" || Ascii.eqb c ")" || Ascii.eqb c "~").
      { apply app_eq_nil in H. destruct H as [_ H]. discriminate. }
      destruct (Ascii.eqb c " ") eqn:Es; [|now apply (Hpush false)].
      apply Ascii.eqb_eq in Es. subst c. discriminate.
Qed.

(** X20. The tokenizer yields no token exactly when the query is blank
    (made of white space only).  A blank query parses to the empty group
    with mode AND, as the constructor builds for no query at all, and
    matches every entry. *)
Theorem blank_query_matches_everything :
  forall query : string,
    (SearchQueryParser.tokenize query = []
     <-> allChars Js.isWhiteSpace query = true)
    /\ (allChars Js.isWhiteSpace query = true ->
        SearchQueryParser.parseQuery query = Some FilterGroupImpl.new0
        /\ SearchQueryParser.construct (Some query)
           = SearchQueryParser.construct None
        /\ forall e : Entry,
             SearchQueryParser.queryMatches query e = Some true).
Proof.
  intros query.
  assert (Hiff : SearchQueryParser.tokenize query = []
                 <-> allChars Js.isWhiteSpace query = true).
  { rewrite tokenize_scan. unfold Spec.tokenize. rewrite scan_nil_iff.
    unfold allChars. cbn [list_ascii_of_string forallb]. tauto. }
  split; [exact Hiff|].
  intros H. apply Hiff in H.
  assert (Hp : SearchQueryParser.parseQuery query = Some FilterGroupImpl.new0)
    by (unfold SearchQueryParser.parseQuery; now rewrite H).
  split; [exact Hp|]. split.
  - unfold SearchQueryParser.construct. now rewrite Hp.
  - intros e. unfold SearchQueryParser.queryMatches. now rewrite Hp.
Qed.

Lemma blank_query_matches_everything_witness :
  SearchQueryParser.queryMatches "   " [("text", JStr "anything")] = Some true.
Proof.
  apply (proj2 (blank_query_matches_everything "   ")). reflexivity.
Defined.

(** ** SearchQueryParser.parseTokens: where it stops and what it builds *)

Lemma parseLoop_stops_at_bracket (fuel : nat) :
  forall (toks : list string) (i : nat) (g : FilterGroup) (m : string)
         (r : FilterGroup) (n : nat),
    SearchQueryParser.parseLoop fuel toks i g m = Some (r, n) ->
    n = length toks \/ nth_error toks n = Some ")".
Proof.
  induction fuel as [|fuel IH]; intros toks i g m r n H; [discriminate|].
  cbn [SearchQueryParser.parseLoop] in H.
  destruct (nth_error toks i) as [token|] eqn:Hnth.
  - destruct (String.eqb token "~"); [now apply IH in H|].
    destruct (String.eqb token "(").
    { destruct (SearchQueryParser.parseLoop fuel toks (i + 1)
                  FilterGroupImpl.new0 "AND") as [[sub next]|];
        [now apply IH in H | discriminate]. }
    destruct (String.eqb token ")") eqn:Hc; [|now apply IH in H].
    apply String.eqb_eq in Hc. subst token.
    injection H as _ <-. now right.
  - injection H as _ <-. now left.
Qed.

(** X21. [parseTokens] stops at the end of the tokens or on a closing
    bracket: the index it returns is at least the start index (or the
    number of tokens, if that is smaller), at most the number of tokens,
    and when it is less than the number of tokens the token there is a
    closing bracket. *)
Theorem parseTokens_stops_at_bracket :
  forall (toks : list string) (start : nat),
    exists (g : FilterGroup) (n : nat),
      SearchQueryParser.parseTokens toks start = Some (g, n)
      /\ Nat.min start (length toks) <= n <= length toks
      /\ (n < length toks -> nth_error toks n = Some ")").
Proof.
  intros toks start.
  destruct (parseLoop_total (SearchQueryParser.parseFuel toks start) toks
              start FilterGroupImpl.new0 (mode FilterGroupImpl.new0))
    as [g [n [H [Hle Hmin]]]]; [unfold SearchQueryParser.parseFuel; lia|].
  exists g, n. split; [exact H|]. split; [lia|].
  intros Hlt. destruct (parseLoop_stops_at_bracket _ _ _ _ _ _ _ H); [lia|].
  assumption.
Qed.

Lemma parse_parsedFilter (token : string) :
  parsedFilter (FilterImpl.parse token) = true.
Proof.
  rewrite parse_spec. unfold Spec.parse, Spec.splitField, parsedFilter.
  destruct (Spec.dropWord token) as [|c rest].
  { now destruct (Js.startsWith token Js.quoteStr
                  && Js.endsWith token Js.quoteStr). }
  destruct (Js.truthy (Spec.takeWord token) && FilterImpl.isOperatorChar c
            && Js.truthy rest && negb (Spec.hasLineTerminator rest)) eqn:E.
  - apply andb_true_iff in E. destruct E as [E H4].
    apply andb_true_iff in E. destruct E as [E H3].
    apply andb_true_iff in E. destruct E as [H1 H2].
    apply negb_true_iff in H4.
    destruct (stripped_term_facts rest H3 H4) as [Hne _].
    cbn [field term operator]. unfold isWord.
    rewrite H1, takeWord_allWord, Hne. cbn [andb]. rewrite andb_true_r.
    unfold FilterImpl.isOperatorChar in H2. apply orb_true_iff in H2.
    destruct H2 as [H2|H2]; apply Ascii.eqb_eq in H2; subst c; reflexivity.
  - now destruct (Js.startsWith token Js.quoteStr
                  && Js.endsWith token Js.quoteStr).
Qed.

Lemma forallb_snoc {A : Type} (p : A -> bool) (l : list A) (x : A) :
  forallb p (l ++ [x]) = forallb p l && p x.
Proof. rewrite forallb_app. cbn. now rewrite andb_true_r. Qed.

(** The lists of a group under construction, and of a finished group. *)
Lemma parseLoop_shape (fuel : nat) :
  forall (toks : list string) (i : nat) (g : FilterGroup) (m : string)
         (r : FilterGroup) (n : nat),
    SearchQueryParser.parseLoop fuel toks i g m = Some (r, n) ->
    m = "AND" \/ m = "OR" ->
    forallb parsedShape (include g) = true ->
    forallb (fun x => FilterGroupImpl.isFilter x && parsedShape x) (exclude g)
    = true ->
    parsedShape (IGroup r) = true.
Proof.
  induction fuel as [|fuel IH]; intros toks i g m r n H Hm Hinc Hexc;
    [discriminate|].
  assert (Hdone : parsedShape (IGroup (FilterGroupImpl.setMode g m)) = true).
  { cbn [parsedShape FilterGroupImpl.setMode include exclude mode].
    rewrite Hinc, Hexc. now destruct Hm as [-> | ->]. }
  cbn [SearchQueryParser.parseLoop] in H.
  destruct (nth_error toks i) as [token|];
    [|injection H as <- _; exact Hdone].
  destruct (String.eqb token "~").
  { apply (IH _ _ _ _ _ _ H); auto. }
  destruct (String.eqb token "(").
  { destruct (SearchQueryParser.parseLoop fuel toks (i + 1)
                FilterGroupImpl.new0 "AND") as [[sub next]|] eqn:Hsub;
      [|discriminate].
    apply (IH _ _ _ _ _ _ H Hm); [|exact Hexc].
    cbn [FilterGroupImpl.add FilterGroupImpl.setInclude include].
    rewrite forallb_snoc, Hinc.
    apply (IH _ _ _ _ _ _ Hsub); auto. }
  destruct (String.eqb token ")"); [injection H as <- _; exact Hdone|].
  apply (IH _ _ _ _ _ _ H Hm).
  - destruct (Js.startsWith token "-"); [exact Hinc|].
    cbn [FilterGroupImpl.add FilterGroupImpl.setInclude include].
    rewrite forallb_snoc, Hinc. apply parse_parsedFilter.
  - destruct (Js.startsWith token "-"); [|exact Hexc].
    cbn [FilterGroupImpl.add FilterGroupImpl.setExclude exclude].
    rewrite forallb_snoc, Hexc. cbn [FilterGroupImpl.isFilter parsedShape andb].
    apply parse_parsedFilter.
Qed.

(** X22. What the parser builds has, at every depth, a mode that is AND
    or OR, only filters in the exclude lists, and only filters as
    [Filter.parse] yields them: the operator is the colon or the equals
    sign, a field is a word and comes with a non-empty term, and a filter
    without field has the operator colon. *)
Theorem parseQuery_shape :
  forall query : string,
    exists g : FilterGroup,
      SearchQueryParser.parseQuery query = Some g
      /\ parsedShape (IGroup g) = true.
Proof.
  intros query. unfold SearchQueryParser.parseQuery.
  destruct (parseLoop_total
              (SearchQueryParser.parseFuel (SearchQueryParser.tokenize query) 0)
              (SearchQueryParser.tokenize query) 0
              FilterGroupImpl.new0 (mode FilterGroupImpl.new0))
    as [g [n [H _]]]; [unfold SearchQueryParser.parseFuel; lia|].
  exists g. unfold SearchQueryParser.parseTokens,
    SearchQueryParser.parseTokensFuel. rewrite H. split; [reflexivity|].
  apply (parseLoop_shape _ _ _ _ _ _ _ H); auto.
Qed.

Lemma flatIncludes_cons (t : string) (ts : list string) :
  flatIncludes (t :: ts)
  = if leafToken t && negb (tokenIsExclude t)
    then tokenFilter t :: flatIncludes ts else flatIncludes ts.
Proof.
  unfold flatIncludes. cbn [filter].
  destruct (leafToken t); [|reflexivity]. cbn [filter andb].
  now destruct (negb (tokenIsExclude t)).
Qed.

Lemma flatExcludes_cons (t : string) (ts : list string) :
  flatExcludes (t :: ts)
  = if leafToken t && tokenIsExclude t
    then tokenFilter t :: flatExcludes ts else flatExcludes ts.
Proof.
  unfold flatExcludes. cbn [filter].
  destruct (leafToken t); [|reflexivity]. cbn [filter andb].
  now destruct (tokenIsExclude t).
Qed.

Lemma flat_returns (ts : list string) :
  forall (toks : list string) (i : nat) (acc : FilterGroup) (m : string),
    skipn i toks = ts -> noBrackets ts = true ->
    Returns toks i acc m
      (mkGroup (include acc ++ flatIncludes ts) (exclude acc ++ flatExcludes ts)
         (if existsb isTilde ts then "OR" else m))
      (length toks).
Proof.
  induction ts as [|t ts IH]; intros toks i acc m Hs Hnb.
  - cbn. rewrite !app_nil_r. now apply Returns_end.
  - cbn [noBrackets forallb] in Hnb. apply andb_true_iff in Hnb.
    destruct Hnb as [Ht Hnb]. apply andb_true_iff in Ht.
    destruct Ht as [Ho Hc]. apply negb_true_iff in Ho, Hc.
    pose proof (skipn_view _ _ _ _ Hs) as [_ Hs'].
    rewrite flatIncludes_cons, flatExcludes_cons. cbn [existsb].
    unfold leafToken, isTilde at 1. rewrite Ho, Hc.
    destruct (String.eqb t "~") eqn:Etilde; cbn [negb andb orb].
    + apply String.eqb_eq in Etilde. subst t.
      apply (Returns_tilde _ _ _ _ _ _ _ Hs).
      specialize (IH toks (S i) acc "OR" Hs' Hnb).
      now destruct (existsb isTilde ts).
    + apply (Returns_leaf _ _ _ _ _ _ _ _ Hs Etilde Ho Hc).
      fold (tokenFilter t). fold (tokenIsExclude t).
      specialize (IH toks (S i)
                    (FilterGroupImpl.add acc (tokenFilter t) (tokenIsExclude t))
                    m Hs' Hnb).
      destruct (tokenIsExclude t); cbn [negb];
        cbn [FilterGroupImpl.add FilterGroupImpl.setInclude
               FilterGroupImpl.setExclude include exclude mode] in IH;
        rewrite <- app_assoc in IH; exact IH.
Qed.

(** X23. A token list without brackets parses to one flat group, up to its
    end: the tokens other than the tilde become filters, in their order,
    those that start with a minus sign (which is cut off) in the exclude
    list and the others in the include list; the mode is OR when a tilde
    occurs among the tokens and AND otherwise. *)
Theorem parseTokens_without_brackets :
  forall toks : list string,
    noBrackets toks = true ->
    SearchQueryParser.parseTokens toks 0 = Some (flatGroup toks, length toks).
Proof.
  intros toks H. apply Returns_parseTokens.
  apply (flat_returns toks toks 0 FilterGroupImpl.new0 "AND" eq_refl H).
Qed.

Lemma parseTokens_without_brackets_witness :
  SearchQueryParser.parseTokens ["a"; "~"; "-b"; "f=c"] 0
  = Some (mkGroup [IFilter (mkFilter None "a" ":");
                   IFilter (mkFilter (Some "f") "c" "=")]
            [IFilter (mkFilter None "b" ":")] "OR", 4).
Proof.
  apply (parseTokens_without_brackets ["a"; "~"; "-b"; "f=c"]). reflexivity.
Defined.

(** ** FilterGroup.toString after a round trip *)

Lemma toString_parts (g : FilterGroup) :
  FilterGroupImpl.toString g = twoParts (incString g) (excString g).
Proof. reflexivity. Qed.

Lemma twoParts_cases (a b : string) :
  twoParts a b
  = if Js.truthy a
    then if Js.truthy b then (a ++ " " ++ b)%string else a
    else b.
Proof. destruct a, b; reflexivity. Qed.

Lemma concat_app_space (A B : list string) :
  String.concat " " (A ++ B)
  = match A, B with
    | [], _ => String.concat " " B
    | _, [] => String.concat " " A
    | _, _ => (String.concat " " A ++ " " ++ String.concat " " B)%string
    end.
Proof.
  induction A as [|x [|y A] IH].
  - reflexivity.
  - cbn [app]. destruct B; reflexivity.
  - change (String.concat " " ((x :: y :: A) ++ B))
      with (x ++ " " ++ String.concat " " ((y :: A) ++ B))%string.
    rewrite IH. destruct B as [|z B].
    + reflexivity.
    + change (String.concat " " (x :: y :: A))
        with (x ++ " " ++ String.concat " " (y :: A))%string.
      now rewrite !append_assoc.
Qed.

Lemma truthy_concat_dashed (x : Item) (l : list Item) :
  Js.truthy (String.concat " " (map dashed (x :: l))) = true.
Proof. destruct l; reflexivity. Qed.

Lemma twoParts_assoc_strings (a b c : string) :
  twoParts (twoParts a b) c = twoParts a (twoParts b c).
Proof.
  destruct a as [|x a], b as [|y b], c as [|z c]; try reflexivity.
  cbn. now rewrite append_assoc.
Qed.

Lemma concat_dashed_app (l1 l2 : list Item) :
  String.concat " " (map dashed (l1 ++ l2))
  = twoParts (String.concat " " (map dashed l1))
      (String.concat " " (map dashed l2)).
Proof.
  rewrite map_app, concat_app_space, twoParts_cases.
  destruct l1 as [|x l1]; [reflexivity|].
  rewrite truthy_concat_dashed.
  destruct l2 as [|y l2]; [reflexivity|].
  now rewrite truthy_concat_dashed.
Qed.

Lemma twoParts_assoc (a : string) (l1 l2 : list Item) :
  twoParts (twoParts a (String.concat " " (map dashed l1)))
    (String.concat " " (map dashed l2))
  = twoParts a (String.concat " " (map dashed (l1 ++ l2))).
Proof. now rewrite concat_dashed_app, twoParts_assoc_strings. Qed.

Lemma excString_filters (g : FilterGroup) :
  forallb FilterGroupImpl.isFilter (exclude g) = true ->
  excString g = String.concat " " (map dashed (exclude g)).
Proof.
  intros H. unfold excString, Js.join. f_equal.
  apply map_ext_in. intros x Hx.
  rewrite forallb_forall in H. specialize (H x Hx).
  destruct x; [reflexivity | discriminate].
Qed.

Lemma excludes_are_filters (g : FilterGroup) :
  roundTrippable (IGroup g) = true ->
  forallb FilterGroupImpl.isFilter (exclude g) = true.
Proof.
  cbn [roundTrippable]. intros H.
  apply andb_true_iff in H. destruct H as [_ H].
  rewrite forallb_forall in H |- *. intros x Hx.
  specialize (H x Hx). now apply andb_true_iff in H.
Qed.

Lemma forallb_map_normItem (p : Item -> bool) (l : list Item) :
  Forall (fun y => p y = true -> p (normItem y) = true) l ->
  forallb p l = true -> forallb p (map normItem l) = true.
Proof.
  induction 1 as [|y l Hy _ IH]; [reflexivity|].
  cbn [forallb map]. intros H. apply andb_true_iff in H.
  destruct H as [H1 H2]. now rewrite (Hy H1), (IH H2).
Qed.

(** The tree obtained by a round trip is again a tree of the round trip. *)
Lemma roundTrippable_reparsed (x : Item) :
  roundTrippable x = true -> roundTrippable (IGroup (reparsed x)) = true.
Proof.
  induction x as [f|g IHinc _] using Item_nested_ind.
  - cbn. intros ->. reflexivity.
  - intros Hrt. pose proof Hrt as Hrt0. cbn [roundTrippable] in Hrt.
    apply andb_true_iff in Hrt. destruct Hrt as [Hinc Hexc].
    assert (Hplain :
              roundTrippable
                (IGroup (mkGroup (map normItem (include g)) (exclude g)
                           (if negb (String.eqb (mode g) "AND")
                               && (1 <? length (include g))
                            then "OR" else "AND"))) = true).
    { cbn [roundTrippable include exclude]. rewrite Hexc, andb_true_r.
      apply forallb_map_normItem; [|exact Hinc].
      apply Forall_forall. intros y Hy Hry.
      rewrite Forall_forall in IHinc.
      destruct y as [f|h]; [exact Hry|]. exact (IHinc _ Hy Hry). }
    rewrite reparsed_group. cbv zeta.
    destruct (include g) as [|x1 [|x2 l]] eqn:Einc; try exact Hplain.
    destruct x1 as [f|h]; [exact Hplain|].
    inversion IHinc as [|? ? H1 _]; subst.
    cbn [forallb] in Hinc. rewrite andb_true_r in Hinc.
    specialize (H1 Hinc). cbn [roundTrippable] in H1 |- *.
    apply andb_true_iff in H1. destruct H1 as [Ha Hb].
    cbn [include exclude]. now rewrite Ha, forallb_app, Hb, Hexc.
Qed.

Lemma incString_same (g r : FilterGroup) :
  include r = include g ->
  String.eqb (mode r) "AND" = String.eqb (mode g) "AND" ->
  incString r = incString g.
Proof. unfold incString. now intros -> ->. Qed.

(** The string of the tree obtained by a round trip is the string of the
    tree. *)
Lemma toString_reparsed (x : Item) :
  roundTrippable x = true ->
  FilterGroupImpl.itemToString (IGroup (reparsed x))
  = FilterGroupImpl.itemToString x.
Proof.
  induction x as [f|g IHinc _] using Item_nested_ind.
  - intros _. rewrite itemToString_group, toString_parts, twoParts_cases.
    cbn. now destruct (FilterImpl.toString f).
  - intros Hrt. pose proof (excludes_are_filters g Hrt) as Hfil.
    pose proof Hrt as Hrt0. cbn [roundTrippable] in Hrt.
    apply andb_true_iff in Hrt. destruct Hrt as [Hinc Hexc].
    rewrite !itemToString_group, !toString_parts.
    assert (Hplain :
              twoParts
                (incString (mkGroup (map normItem (include g)) (exclude g)
                              (if negb (String.eqb (mode g) "AND")
                                  && (1 <? length (include g))
                               then "OR" else "AND")))
                (excString (mkGroup (map normItem (include g)) (exclude g)
                              (if negb (String.eqb (mode g) "AND")
                                  && (1 <? length (include g))
                               then "OR" else "AND")))
              = twoParts (incString g) (excString g)).
    { f_equal. unfold incString. cbn [include mode].
      assert (Hitems :
                map (fun item =>
                       FilterGroupImpl.itemMapper item
                         (map normItem (include g)))
                  (map normItem (include g))
                = map (fun item => FilterGroupImpl.itemMapper item (include g))
                    (include g)).
      { rewrite map_map. apply map_ext_in. intros y Hy.
        rewrite Forall_forall in IHinc. rewrite forallb_forall in Hinc.
        destruct y as [f|h]; [reflexivity|].
        cbn [normItem FilterGroupImpl.itemMapper]. rewrite length_map.
        now rewrite (IHinc _ Hy (Hinc _ Hy)). }
      rewrite Hitems.
      destruct (include g) as [|y1 [|y2 l]]; try reflexivity.
      cbn [length Nat.ltb Nat.leb]. rewrite andb_true_r.
      now destruct (String.eqb (mode g) "AND"). }
    rewrite reparsed_group. cbv zeta.
    destruct (include g) as [|x1 [|x2 l]] eqn:Einc; try exact Hplain.
    destruct x1 as [f|h]; [exact Hplain|].
    inversion IHinc as [|? ? H1 _]; subst.
    cbn [forallb] in Hinc. rewrite andb_true_r in Hinc.
    specialize (H1 Hinc).
    rewrite itemToString_group, toString_parts in H1.
    pose proof (excludes_are_filters _ (roundTrippable_reparsed _ Hinc))
      as Hfil'.
    set (rh := reparsed (IGroup h)) in *.
    assert (Hg : incString g = FilterGroupImpl.itemToString (IGroup h)).
    { unfold incString. rewrite Einc.
      now destruct (String.eqb (mode g) "AND"). }
    rewrite Hg, <- H1.
    rewrite (excString_filters g Hfil), (excString_filters rh Hfil').
    rewrite twoParts_assoc.
    f_equal.
    rewrite excString_filters;
      [reflexivity | cbn [exclude]; now rewrite forallb_app, Hfil', Hfil].
Qed.

(** X24. On the trees of the round trip serialisation is stable: the tree
    parsed from the string of a tree is written as the same string, so
    parsing its string gives that very tree again. *)
Theorem toString_stable_after_roundtrip :
  forall g : FilterGroup,
    roundTrippable (IGroup g) = true ->
    exists g' : FilterGroup,
      SearchQueryParser.parseQuery (FilterGroupImpl.toString g) = Some g'
      /\ FilterGroupImpl.toString g' = FilterGroupImpl.toString g
      /\ SearchQueryParser.parseQuery (FilterGroupImpl.toString g') = Some g'.
Proof.
  intros g Hrt. exists (reparsed (IGroup g)).
  assert (Hp : SearchQueryParser.parseQuery (FilterGroupImpl.toString g)
               = Some (reparsed (IGroup g))).
  { unfold SearchQueryParser.parseQuery.
    now rewrite (tokenize_toString g Hrt), (parseTokens_itemTokens _ Hrt). }
  assert (Hs : FilterGroupImpl.toString (reparsed (IGroup g))
               = FilterGroupImpl.toString g)
    by apply (toString_reparsed (IGroup g) Hrt).
  split; [exact Hp|]. split; [exact Hs|]. now rewrite Hs.
Qed.

Lemma toString_stable_after_roundtrip_witness :
  exists g' : FilterGroup,
    SearchQueryParser.parseQuery
      (FilterGroupImpl.toString
         (mkGroup
            [IGroup (mkGroup [IFilter (mkFilter None "a" ":");
                              IFilter (mkFilter (Some "f") "b c" "=")]
                       [IFilter (mkFilter None "x" ":")] "OR")]
            [IFilter (mkFilter None "y" ":")] "AND"))
    = Some g'
    /\ FilterGroupImpl.toString g'
       = FilterGroupImpl.toString
           (mkGroup
              [IGroup (mkGroup [IFilter (mkFilter None "a" ":");
                                IFilter (mkFilter (Some "f") "b c" "=")]
                         [IFilter (mkFilter None "x" ":")] "OR")]
              [IFilter (mkFilter None "y" ":")] "AND")
    /\ SearchQueryParser.parseQuery (FilterGroupImpl.toString g') = Some g'.
Proof.
  apply toString_stable_after_roundtrip. reflexivity.
Defined.

(** ** SearchQueryParser.hasQuery *)

Lemma parseLoop_grows (fuel : nat) :
  forall (toks : list string) (i : nat) (g : FilterGroup) (m : string)
         (r : FilterGroup) (n : nat),
    SearchQueryParser.parseLoop fuel toks i g m = Some (r, n) ->
    length (include g) <= length (include r)
    /\ length (exclude g) <= length (exclude r).
Proof.
  induction fuel as [|fuel IH]; intros toks i g m r n H; [discriminate|].
  cbn [SearchQueryParser.parseLoop] in H.
  destruct (nth_error toks i) as [token|];
    [|injection H as <- _; cbn; lia].
  destruct (String.eqb token "~"); [now apply IH in H|].
  destruct (String.eqb token "(").
  { destruct (SearchQueryParser.parseLoop fuel toks (i + 1)
                FilterGroupImpl.new0 "AND") as [[sub next]|];
      [|discriminate].
    apply IH in H. cbn [FilterGroupImpl.add FilterGroupImpl.setInclude
                          include exclude] in H.
    rewrite length_app in H. cbn [length] in H. lia. }
  destruct (String.eqb token ")"); [injection H as <- _; cbn; lia|].
  apply IH in H.
  destruct (Js.startsWith token "-");
    cbn [FilterGroupImpl.add FilterGroupImpl.setInclude
           FilterGroupImpl.setExclude include exclude] in H;
    rewrite length_app in H; cbn [length] in H; lia.
Qed.

Lemma hasItems_grown (g r : FilterGroup) :
  length (include g) <= length (include r)
  /\ length (exclude g) <= length (exclude r) ->
  hasItems g = true -> hasItems r = true.
Proof.
  unfold hasItems. intros [H1 H2] H. apply orb_true_iff in H.
  apply orb_true_iff.
  destruct H as [H|H]; apply Nat.ltb_lt in H; [left | right];
    apply Nat.ltb_lt; lia.
Qed.

Lemma parseLoop_hasItems (fuel : nat) :
  forall (toks : list string) (i : nat) (m : string)
         (r : FilterGroup) (n : nat),
    SearchQueryParser.parseLoop fuel toks i FilterGroupImpl.new0 m
    = Some (r, n) ->
    hasItems r = startsQuery (skipn i toks).
Proof.
  induction fuel as [|fuel IH]; intros toks i m r n H; [discriminate|].
  cbn [SearchQueryParser.parseLoop] in H.
  destruct (nth_error toks i) as [token|] eqn:Hnth.
  - rewrite (nth_error_skipn_cons _ _ _ Hnth). cbn [startsQuery].
    destruct (String.eqb token "~"); [now apply IH in H|].
    destruct (String.eqb token "(") eqn:Ho.
    { apply String.eqb_eq in Ho. subst token.
      destruct (SearchQueryParser.parseLoop fuel toks (i + 1)
                  FilterGroupImpl.new0 "AND") as [[sub next]|];
        [|discriminate].
      apply parseLoop_grows in H.
      now apply (hasItems_grown _ _ H). }
    destruct (String.eqb token ")"); [now injection H as <- _|].
    apply parseLoop_grows in H. apply (hasItems_grown _ _ H).
    now destruct (Js.startsWith token "-").
  - injection H as <- _. now rewrite (nth_error_skipn_nil _ _ Hnth).
Qed.

(** X25. Whether a parsed query counts as a query is decided by its first
    token that is not a tilde: [hasQuery] is true exactly when that token
    exists and is not a closing bracket.  When [hasQuery] is false the
    parser matches every entry and is written as the empty string. *)
Theorem hasQuery_of_parsed_query :
  forall query : string,
    exists p : SearchQueryParser.Parser,
      SearchQueryParser.construct (Some query) = Some p
      /\ SearchQueryParser.hasQuery p
         = startsQuery (SearchQueryParser.tokenize query)
      /\ (SearchQueryParser.hasQuery p = false ->
          SearchQueryParser.instToString p = EmptyString
          /\ forall e : Entry, SearchQueryParser.instMatchesEntry p e = true).
Proof.
  intros query.
  destruct (parseLoop_total
              (SearchQueryParser.parseFuel (SearchQueryParser.tokenize query) 0)
              (SearchQueryParser.tokenize query) 0
              FilterGroupImpl.new0 (mode FilterGroupImpl.new0))
    as [g [n [H _]]]; [unfold SearchQueryParser.parseFuel; lia|].
  exists (SearchQueryParser.mkParser g).
  unfold SearchQueryParser.construct, SearchQueryParser.parseQuery,
    SearchQueryParser.parseTokens, SearchQueryParser.parseTokensFuel.
  rewrite H. split; [reflexivity|]. split.
  - apply (parseLoop_hasItems _ _ _ _ _ _ H).
  - unfold SearchQueryParser.hasQuery, SearchQueryParser.instToString,
      SearchQueryParser.instMatchesEntry.
    cbn [SearchQueryParser.rootGroup]. intros Hq.
    apply orb_false_iff in Hq. destruct Hq as [H1 H2].
    destruct g as [[|x inc] [|y exc] m]; try discriminate.
    split; [now destruct (String.eqb m "AND") eqn:E; cbv; rewrite ?E|].
    reflexivity.
Qed.

(** ** SearchQueryParser.tokenize: tokens joined by spaces *)

Lemma validToken_tokenizes (t : string) :
  validToken t = true -> Tokenizes t [t].
Proof.
  unfold validToken. intros H.
  destruct (String.eqb t "(") eqn:E1;
    [apply String.eqb_eq in E1; subst t; intros rest _; reflexivity|].
  destruct (String.eqb t ")") eqn:E2;
    [apply String.eqb_eq in E2; subst t; intros rest _; reflexivity|].
  destruct (String.eqb t "~") eqn:E3;
    [apply String.eqb_eq in E3; subst t; intros rest _; reflexivity|].
  cbn [orb] in H. now apply wholeToken_tokenizes.
Qed.

Lemma concat_singletons {A : Type} (l : list A) :
  concat (map (fun x => [x]) l) = l.
Proof. induction l as [|x l IH]; cbn; [reflexivity | now rewrite IH]. Qed.

(** X26. Tokens joined by single spaces are read back as those tokens:
    for every list of tokens, each a bracket, a tilde, or a string that the
    tokenizer keeps in one piece (not empty, no white space at its ends, no
    bracket, tilde or space outside its balanced quotes), tokenizing the
    tokens joined by spaces gives the list. *)
Theorem tokenize_joined_tokens :
  forall toks : list string,
    forallb validToken toks = true ->
    SearchQueryParser.tokenize (Js.join " " toks) = toks.
Proof.
  intros toks H. rewrite tokenize_scan. unfold Spec.tokenize.
  assert (Hall : Forall2 Tokenizes toks (map (fun t => [t]) toks)).
  { rewrite <- (map_id toks) at 1. apply Forall2_map_both.
    apply Forall_forall. intros t Ht. rewrite forallb_forall in H.
    apply validToken_tokenizes. now apply H. }
  pose proof (tokenizes_join " " [] tokenizes_space _ _ Hall [] I) as Hs.
  rewrite joinTokens_no_sep, concat_singletons, !app_nil_r in Hs.
  exact Hs.
Qed.

Lemma tokenize_joined_tokens_witness :
  SearchQueryParser.tokenize
    (Js.join " " ["("; "a"; "~"; "-f:b"; ")"; String Js.quote ("c d" ++ Js.quoteStr)])
  = ["("; "a"; "~"; "-f:b"; ")"; String Js.quote ("c d" ++ Js.quoteStr)].
Proof. apply tokenize_joined_tokens. reflexivity. Defined.

(** ** SearchQueryParser.tokenize: the tokens as a normal form *)

Lemma unbroken_split (chars : list ascii) :
  forall q : bool,
    unbroken q chars = noBreak q chars && negb (quoteState q chars).
Proof.
  induction chars as [|c chars IH]; intros q; cbn [unbroken noBreak quoteState].
  - reflexivity.
  - destruct (Ascii.eqb c Js.quote); [apply IH|].
    destruct (negb q && SearchQueryParser.isStructural c);
      [reflexivity | apply IH].
Qed.

Lemma noBreak_app (a b : list ascii) :
  forall q : bool,
    noBreak q (a ++ b) = noBreak q a && noBreak (quoteState q a) b.
Proof.
  induction a as [|c a IH]; intros q; cbn [app noBreak quoteState].
  - reflexivity.
  - destruct (Ascii.eqb c Js.quote); [apply IH|].
    destruct (negb q && SearchQueryParser.isStructural c);
      [reflexivity | apply IH].
Qed.

Lemma quoteState_app (a b : list ascii) :
  forall q : bool,
    quoteState q (a ++ b) = quoteState (quoteState q a) b.
Proof.
  induction a as [|c a IH]; intros q; cbn [app quoteState];
    [reflexivity | apply IH].
Qed.

Lemma trimStart_trimEnd_trimStart (s : string) :
  Js.trimStart (Js.trim s) = Js.trim s.
Proof.
  unfold Js.trim. induction s as [|c s IH]; [reflexivity|].
  cbn [Js.trimStart]. destruct (Js.isWhiteSpace c) eqn:Hws; [exact IH|].
  cbn [Js.trimEnd]. rewrite Hws. cbn [andb Js.trimStart]. now rewrite Hws.
Qed.

Lemma trimEnd_idempotent (s : string) :
  Js.trimEnd (Js.trimEnd s) = Js.trimEnd s.
Proof.
  induction s as [|c s IH]; [reflexivity|].
  cbn [Js.trimEnd].
  destruct (Js.isWhiteSpace c && negb (Js.truthy (Js.trimEnd s))) eqn:E;
    [reflexivity|].
  cbn [Js.trimEnd]. now rewrite IH, E.
Qed.

Lemma trimEnd_trim (s : string) : Js.trimEnd (Js.trim s) = Js.trim s.
Proof. unfold Js.trim. apply trimEnd_idempotent. Qed.

Lemma unbroken_trimStart (s : string) :
  unbroken false (list_ascii_of_string s) = true ->
  unbroken false (list_ascii_of_string (Js.trimStart s)) = true.
Proof.
  induction s as [|c s IH]; [trivial|].
  cbn [Js.trimStart]. destruct (Js.isWhiteSpace c) eqn:Hws; [|trivial].
  destruct (whiteSpace_facts c Hws) as [Hq _].
  cbn [list_ascii_of_string unbroken]. rewrite Hq. cbn [negb andb].
  destruct (SearchQueryParser.isStructural c); [discriminate | exact IH].
Qed.

Lemma whiteSpace_inside_quotes (s : string) :
  allChars Js.isWhiteSpace s = true ->
  unbroken true (list_ascii_of_string s) = false.
Proof.
  induction s as [|c s IH]; [reflexivity|].
  rewrite allChars_cons. intros H. apply andb_true_iff in H.
  destruct H as [Hws Hs]. destruct (whiteSpace_facts c Hws) as [Hq _].
  cbn [list_ascii_of_string unbroken]. rewrite Hq. now apply IH.
Qed.

Lemma unbroken_trimEnd (s : string) :
  forall q : bool,
    unbroken q (list_ascii_of_string s) = true ->
    unbroken q (list_ascii_of_string (Js.trimEnd s)) = true.
Proof.
  induction s as [|c s IH]; intros q H; [exact H|].
  cbn [Js.trimEnd].
  destruct (Js.isWhiteSpace c) eqn:Hws.
  - destruct (whiteSpace_facts c Hws) as [Hq _].
    cbn [list_ascii_of_string unbroken] in H. rewrite Hq in H.
    destruct (Js.truthy (Js.trimEnd s)) eqn:Ht; cbn [andb negb].
    + cbn [list_ascii_of_string unbroken]. rewrite Hq.
      destruct (negb q && SearchQueryParser.isStructural c);
        [discriminate | now apply IH].
    + apply trimEnd_empty_iff in Ht.
      destruct q; [|reflexivity].
      cbn [negb andb] in H.
      now rewrite (whiteSpace_inside_quotes s Ht) in H.
  - cbn [andb]. cbn [list_ascii_of_string unbroken] in H |- *.
    destruct (Ascii.eqb c Js.quote); [now apply IH|].
    destruct (negb q && SearchQueryParser.isStructural c);
      [discriminate | now apply IH].
Qed.

Lemma flushed_valid (buf : string) :
  noBreak false (list_ascii_of_string buf) = true ->
  quoteState false (list_ascii_of_string buf) = false ->
  forallb validToken (Spec.flushed buf) = true.
Proof.
  intros Hn Hq. unfold Spec.flushed.
  destruct (Js.truthy (Js.trim buf)) eqn:Ht; [|reflexivity].
  cbn [forallb]. rewrite andb_true_r. unfold validToken, wholeToken.
  rewrite Ht, trimStart_trimEnd_trimStart, String.eqb_refl.
  rewrite trimEnd_trim, String.eqb_refl. cbn [andb].
  assert (Hu : unbroken false (list_ascii_of_string (Js.trim buf)) = true).
  { unfold Js.trim. apply unbroken_trimEnd, unbroken_trimStart.
    now rewrite unbroken_split, Hn, Hq. }
  rewrite Hu. apply orb_true_r.
Qed.

Lemma scan_valid (chars : list ascii) :
  forall (inQ : bool) (buf : string),
    noBreak false (list_ascii_of_string buf) = true ->
    quoteState false (list_ascii_of_string buf) = inQ ->
    quoteState inQ chars = false ->
    forallb validToken (Spec.scan inQ buf chars) = true.
Proof.
  induction chars as [|c chars IH]; intros inQ buf Hn Hs Hq.
  - cbn [quoteState] in Hq. subst inQ. cbn [Spec.scan].
    now apply flushed_valid.
  - cbn [Spec.scan]. cbn [quoteState] in Hq.
    destruct (Ascii.eqb c Js.quote) eqn:Ec.
    { apply IH; [| |exact Hq]; unfold Js.push; rewrite list_ascii_app;
        cbn [list_ascii_of_string].
      - rewrite noBreak_app, Hn. cbn [andb noBreak]. now rewrite Ec.
      - rewrite quoteState_app, Hs. cbn [quoteState]. now rewrite Ec. }
    destruct inQ.
    { apply IH; [| |exact Hq]; unfold Js.push; rewrite list_ascii_app;
        cbn [list_ascii_of_string].
      - rewrite noBreak_app, Hn, Hs. cbn [andb noBreak]. now rewrite Ec.
      - rewrite quoteState_app, Hs. cbn [quoteState]. now rewrite Ec. }
    destruct (Ascii.eqb c "(" || Ascii.eqb c ")" || Ascii.eqb c "~") eqn:Eb.
    { rewrite forallb_app. cbn [forallb].
      rewrite (flushed_valid buf Hn Hs), (IH false EmptyString);
        [|reflexivity|reflexivity|exact Hq].
      rewrite andb_true_r. cbn [andb]. unfold validToken.
      apply orb_true_iff. left.
      destruct (Ascii.eqb c "(") eqn:E1;
        [apply Ascii.eqb_eq in E1; now subst c|].
      destruct (Ascii.eqb c ")") eqn:E2;
        [apply Ascii.eqb_eq in E2; now subst c|].
      cbn [orb] in Eb. apply Ascii.eqb_eq in Eb. now subst c. }
    destruct (Ascii.eqb c " ") eqn:Esp.
    { rewrite forallb_app.
      rewrite (flushed_valid buf Hn Hs), (IH false EmptyString);
        [reflexivity|reflexivity|reflexivity|exact Hq]. }
    apply IH; [| |exact Hq]; unfold Js.push; rewrite list_ascii_app;
      cbn [list_ascii_of_string].
    + rewrite noBreak_app, Hn, Hs. cbn [andb noBreak negb].
      unfold SearchQueryParser.isStructural. now rewrite Ec, Eb, Esp.
    + rewrite quoteState_app, Hs. cbn [quoteState]. now rewrite Ec.
Qed.

Lemma tokenize_joined_valid (toks : list string) :
  forallb validToken toks = true ->
  Spec.tokenize (Js.join " " toks) = toks.
Proof.
  intros H. unfold Spec.tokenize.
  assert (Hall : Forall2 Tokenizes toks (map (fun t => [t]) toks)).
  { rewrite <- (map_id toks) at 1. apply Forall2_map_both.
    apply Forall_forall. intros t Ht. rewrite forallb_forall in H.
    apply validToken_tokenizes. now apply H. }
  pose proof (tokenizes_join " " [] tokenizes_space _ _ Hall [] I) as Hs.
  rewrite joinTokens_no_sep, concat_singletons, !app_nil_r in Hs.
  exact Hs.
Qed.

(** X27. The tokens are a normal form of the query: when the quotes of a
    query are balanced, every token is a bracket, a tilde, or a string
    without white space at its ends and without bracket, tilde or space
    outside its quotes, and tokenizing the tokens joined by single spaces
    gives the same tokens again. *)
Theorem tokenize_normal_form :
  forall query : string,
    balanced query = true ->
    forallb validToken (SearchQueryParser.tokenize query) = true
    /\ SearchQueryParser.tokenize
         (Js.join " " (SearchQueryParser.tokenize query))
       = SearchQueryParser.tokenize query.
Proof.
  intros query Hb.
  assert (Hv : forallb validToken (SearchQueryParser.tokenize query) = true).
  { rewrite tokenize_scan. unfold Spec.tokenize.
    apply scan_valid; [reflexivity | reflexivity|].
    unfold balanced in Hb. now apply negb_true_iff in Hb. }
  split; [exact Hv|].
  rewrite (tokenize_scan (Js.join " " _)). now apply tokenize_joined_valid.
Qed.

Lemma tokenize_normal_form_witness :
  balanced "(a  ~b)-c:d" = true
  /\ forallb validToken (SearchQueryParser.tokenize "(a  ~b)-c:d") = true
  /\ SearchQueryParser.tokenize
       (Js.join " " (SearchQueryParser.tokenize "(a  ~b)-c:d"))
     = SearchQueryParser.tokenize "(a  ~b)-c:d".
Proof.
  split; [reflexivity|]. apply (tokenize_normal_form "(a  ~b)-c:d").
  reflexivity.
Defined.
